(** * libDaisyDev: WAV container parser and streaming WAV player

    A shallow embedding of the classes [WavParser] (src/util/WavParser.h),
    [FileReader] (FileReader.h), [WavPlayer] and [FileTable]
    (src/util/FileTable.h), the properties of the parser and of the
    playback engine that the specification states about them, and further
    properties of the four classes read off the code.

    Conventions.
    - [uint16_t], [uint32_t] and [size_t] values are integers in [Z]; every
      operation that can leave the range is followed by its wrap-around
      ([u16], [u32], [usz]).  [size_t] is 32 bits wide, as on the Cortex-M
      target of the library.
    - Bytes are [Byte.byte]; buffers are lists of bytes.
    - Objects are records; a member function takes the object and returns
      its result together with the updated object. *)

From Stdlib Require Import ZArith Lia Bool List Ascii String.
From Stdlib Require Import Init.Byte.
From Stdlib Require Import Floats.SpecFloat.
From stdpp Require Import base list sorting.
Import ListNotations.

#[local] Open Scope Z_scope.

(** ** Machine integers *)

Definition u16 (x : Z) : Z := x mod 2 ^ 16.
Definition u32 (x : Z) : Z := x mod 2 ^ 32.
(** [size_t] arithmetic (32 bits). *)
Definition usz (x : Z) : Z := x mod 2 ^ 32.

(** Unsigned [a / b] and [a % b].  A zero divisor is undefined behaviour
    in C++; the model takes quotient [0] and remainder [a] there (what
    [Z.div] and [Z.modulo] give).  The program divides by the frame size
    in [Prepare] and in [Open]: what the model says of a call with frame
    size 0 says nothing of the program, and the theorems that state that
    such a call returns, or what it returns, assume a frame size that is
    not 0. *)
Definition udiv (a b : Z) : Z := a / b.
Definition umod (a b : Z) : Z := a mod b.

Definition u8 (b : byte) : Z := Z.of_N (Byte.to_N b).

(** [b[i]] of a byte buffer; the callers only index inside the buffer. *)
Definition byte_at (b : list byte) (i : nat) : Z := u8 (nth i b x00).

(** ** WavParser.h *)

Record WavFormatInfo := mkFmt {
  audioFormat : Z;
  numChannels : Z;
  sampleRate : Z;
  byteRate : Z;
  blockAlign : Z;
  bitsPerSample : Z;
  validBitsPerSample : Z;
  channelMask : Z;
  subFormat : Z
}.

Definition WavFormatInfo0 : WavFormatInfo := mkFmt 0 0 0 0 0 0 0 0 0.

Record MetadataEntry := mkMeta {
  fourcc : Z;
  size_ : Z;
  offset : Z
}.

Definition ascii_code (c : Ascii.ascii) : Z := Z.of_N (Ascii.N_of_ascii c).

Definition make_fourcc (a b c d : Ascii.ascii) : Z :=
  Z.lor (Z.lor (Z.lor (ascii_code a) (Z.shiftl (ascii_code b) 8))
               (Z.shiftl (ascii_code c) 16))
        (Z.shiftl (ascii_code d) 24).

Definition FOURCC_RIFF : Z := make_fourcc "R"%char "I"%char "F"%char "F"%char.
Definition FOURCC_WAVE : Z := make_fourcc "W"%char "A"%char "V"%char "E"%char.
Definition FOURCC_FMT : Z := make_fourcc "f"%char "m"%char "t"%char " "%char.
Definition FOURCC_DATA : Z := make_fourcc "d"%char "a"%char "t"%char "a"%char.

Definition MAX_METADATA_CHUNKS : Z := 16.

(** The abstract reader, [class IReader].  [read r n] returns the bytes
    actually transferred (their number is the C++ return value) and the
    reader after the call. *)
Class IReader (R : Type) := {
  read : R -> Z -> list byte * R;
  seek : R -> Z -> bool * R;
  position : R -> Z;
  size : R -> Z
}.

Record ChunkHeader := mkChunk { ch_id : Z; ch_size : Z }.

Record WavParser := mkParser {
  fmt_ : WavFormatInfo;
  haveFmt_ : bool;
  haveData_ : bool;
  dataOffset_ : Z;
  dataSize_ : Z;
  metadata_ : list MetadataEntry;
  metadataCount_ : Z;
  fileSize_ : Z
}.

(** A default-constructed parser: 16 zeroed metadata entries. *)
Definition WavParser0 : WavParser :=
  mkParser WavFormatInfo0 false false 0 0
           (replicate 16 (mkMeta 0 0 0)) 0 0.

Definition reset (p : WavParser) : WavParser :=
  mkParser WavFormatInfo0 false false 0 0 (metadata_ p) 0 0.

Definition set_fmt (p : WavParser) (f : WavFormatInfo) : WavParser :=
  mkParser f (haveFmt_ p) (haveData_ p) (dataOffset_ p) (dataSize_ p)
           (metadata_ p) (metadataCount_ p) (fileSize_ p).

Definition set_haveFmt (p : WavParser) (b : bool) : WavParser :=
  mkParser (fmt_ p) b (haveData_ p) (dataOffset_ p) (dataSize_ p)
           (metadata_ p) (metadataCount_ p) (fileSize_ p).

Definition set_haveData (p : WavParser) (b : bool) : WavParser :=
  mkParser (fmt_ p) (haveFmt_ p) b (dataOffset_ p) (dataSize_ p)
           (metadata_ p) (metadataCount_ p) (fileSize_ p).

Definition set_data (p : WavParser) (off sz : Z) : WavParser :=
  mkParser (fmt_ p) (haveFmt_ p) (haveData_ p) off sz
           (metadata_ p) (metadataCount_ p) (fileSize_ p).

Definition set_fileSize (p : WavParser) (sz : Z) : WavParser :=
  mkParser (fmt_ p) (haveFmt_ p) (haveData_ p) (dataOffset_ p) (dataSize_ p)
           (metadata_ p) (metadataCount_ p) sz.

Definition push_metadata (p : WavParser) (e : MetadataEntry) : WavParser :=
  mkParser (fmt_ p) (haveFmt_ p) (haveData_ p) (dataOffset_ p) (dataSize_ p)
           (<[Z.to_nat (metadataCount_ p) := e]> (metadata_ p))
           (metadataCount_ p + 1) (fileSize_ p).

Definition rd_u16 (b : list byte) (off : nat) : Z :=
  u16 (Z.lor (byte_at b off) (Z.shiftl (byte_at b (off + 1)) 8)).

Definition rd_u32 (b : list byte) (off : nat) : Z :=
  u32 (Z.lor (Z.lor (Z.lor (byte_at b off)
                           (Z.shiftl (byte_at b (off + 1)) 8))
                    (Z.shiftl (byte_at b (off + 2)) 16))
             (Z.shiftl (byte_at b (off + 3)) 24)).

Section Parser.
Context {R : Type} `{IReader R}.

(** [r.read(dst, n) == n]; the buffer is returned with the verdict. *)
Definition read_exact (r : R) (n : Z) : bool * list byte * R :=
  let '(buf, r) := read r n in
  (Z.of_nat (length buf) =? n, buf, r).

Definition read_riff_header (p : WavParser) (r : R)
  : bool * WavParser * R :=
  let '(ok, hdr, r) := read_exact r 12 in
  if negb ok then (false, p, r) else
  let riff := rd_u32 hdr 0 in
  let fileSizeMinus8 := rd_u32 hdr 4 in
  let wave := rd_u32 hdr 8 in
  if negb (riff =? FOURCC_RIFF) || negb (wave =? FOURCC_WAVE)
  then (false, p, r) else
  let p := set_fileSize p (u32 (fileSizeMinus8 + 8)) in
  let p := if negb (size r =? 0) then set_fileSize p (size r) else p in
  (true, p, r).

Definition read_chunk_header (r : R) : bool * ChunkHeader * R :=
  let '(ok, buf, r) := read_exact r 8 in
  if negb ok then (false, mkChunk 0 0, r)
  else (true, mkChunk (rd_u32 buf 0) (rd_u32 buf 4), r).

Definition skip_chunk_payload (r : R) (sz : Z) : bool * R :=
  let target := u32 (position r + sz) in
  seek r target.

Definition skip_bytes (r : R) (count : Z) : bool * R :=
  let target := u32 (position r + count) in
  seek r target.

Definition skip_rest_of_chunk (r : R) (ch : ChunkHeader) (consumed : Z)
  : bool * R :=
  if consumed <? ch_size ch then skip_bytes r (ch_size ch - consumed)
  else (true, r).

Definition parse_fmt_chunk (p : WavParser) (r : R) (ch : ChunkHeader)
  : bool * WavParser * R :=
  if ch_size ch <? 16 then (false, p, r) else
  let '(ok, core, r) := read_exact r 16 in
  if negb ok then (false, p, r) else
  let f := mkFmt (rd_u16 core 0) (rd_u16 core 2) (rd_u32 core 4)
                 (rd_u32 core 8) (rd_u16 core 12) (rd_u16 core 14)
                 (validBitsPerSample (fmt_ p)) (channelMask (fmt_ p))
                 (subFormat (fmt_ p)) in
  let p := set_fmt p f in
  let consumed := 16 in
  if negb (audioFormat f =? 1) && negb (audioFormat f =? 3)
     && negb (audioFormat f =? 65534)
  then
    let '(_, r) := skip_rest_of_chunk r ch consumed in
    (false, p, r)
  else
  if ch_size ch >? consumed then
    let remain := ch_size ch - consumed in
    if (audioFormat f =? 65534) && (remain >=? 2) then
      let '(ok, extSizeBuf, r) := read_exact r 2 in
      if negb ok then (false, p, r) else
      let extSize := rd_u16 extSizeBuf 0 in
      if (extSize >=? 22) && (remain >=? 2 + 22) then
        let '(ok, ext, r) := read_exact r 22 in
        if negb ok then (false, p, r) else
        let f := mkFmt (audioFormat f) (numChannels f) (sampleRate f)
                       (byteRate f) (blockAlign f) (bitsPerSample f)
                       (rd_u16 ext 0) (rd_u32 ext 2) (rd_u16 ext 6) in
        let p := set_fmt p f in
        if extSize >? 22 then
          let skip := u32 (extSize - 22) in
          let '(ok, r) := skip_bytes r skip in
          if negb ok then (false, p, r)
          else (true, set_haveFmt p true, r)
        else (true, set_haveFmt p true, r)
      else
        let '(ok, r) := skip_bytes r (remain - 2) in
        if negb ok then (false, p, r)
        else (true, set_haveFmt p true, r)
    else
      let '(ok, r) := skip_bytes r remain in
      if negb ok then (false, p, r)
      else (true, set_haveFmt p true, r)
  else (true, set_haveFmt p true, r).

(** How one pass through the body of the [while] loop of [parse] ends. *)
Inductive LoopExit :=
  | ReturnFalse (p : WavParser) (r : R)
  | Break (p : WavParser) (r : R)
  | NextPass (p : WavParser) (r : R).

(** The end of the loop body: padding byte, then the early exit. *)
Definition chunk_epilogue (p : WavParser) (r : R) (ch : ChunkHeader)
  : LoopExit :=
  if negb (Z.land (ch_size ch) 1 =? 0) then
    let '(pad, r) := read r 1 in
    if negb (Z.of_nat (length pad) =? 1) then Break p r
    else if haveFmt_ p && haveData_ p then Break p r else NextPass p r
  else if haveFmt_ p && haveData_ p then Break p r else NextPass p r.

Definition parse_chunk (p : WavParser) (r : R) : LoopExit :=
  let '(ok, ch, r) := read_chunk_header r in
  if negb ok then ReturnFalse p r else
  if ch_id ch =? FOURCC_FMT then
    let '(ok, p, r) := parse_fmt_chunk p r ch in
    if negb ok then ReturnFalse p r else chunk_epilogue p r ch
  else if ch_id ch =? FOURCC_DATA then
    let p := set_data p (position r) (ch_size ch) in
    let '(ok, r) := skip_chunk_payload r (ch_size ch) in
    if negb ok then ReturnFalse p r
    else chunk_epilogue (set_haveData p true) r ch
  else
    let p := if metadataCount_ p <? MAX_METADATA_CHUNKS
             then push_metadata p (mkMeta (ch_id ch) (ch_size ch) (position r))
             else p in
    let '(ok, r) := skip_chunk_payload r (ch_size ch) in
    if negb ok then ReturnFalse p r else chunk_epilogue p r ch.

(** The loop guard [r.position() + 8 <= fileSize_]. *)
Definition more_chunks (p : WavParser) (r : R) : bool :=
  u32 (position r + 8) <=? fileSize_ p.

(** The [while] loop; [fuel] bounds the number of passes.  [None] means
    the bound was reached with the loop still running. *)
Fixpoint parse_loop (fuel : nat) (p : WavParser) (r : R)
  : option (bool * WavParser * R) :=
  if negb (more_chunks p r) then Some (haveFmt_ p && haveData_ p, p, r)
  else
    match fuel with
    | O => None
    | S fuel =>
        match parse_chunk p r with
        | ReturnFalse p r => Some (false, p, r)
        | Break p r => Some (haveFmt_ p && haveData_ p, p, r)
        | NextPass p r => parse_loop fuel p r
        end
    end.

Definition parse (fuel : nat) (p : WavParser) (r : R)
  : option (bool * WavParser * R) :=
  let p := reset p in
  let '(ok, p, r) := read_riff_header p r in
  if negb ok then Some (false, p, r) else parse_loop fuel p r.

End Parser.

(** ** FatFs (ff.h), the storage interface of the player

    The FatFs library is outside the repository; the player is modelled
    over any implementation of the calls it makes.  [f_read fp n] returns
    the status, the bytes transferred (their number is [*br]) and the file
    object after the call. *)

Inductive FRESULT :=
| FR_OK | FR_DISK_ERR | FR_INT_ERR | FR_NOT_READY | FR_NO_FILE | FR_NO_PATH
| FR_INVALID_NAME | FR_DENIED | FR_INVALID_OBJECT | FR_TIMEOUT.

Definition is_FR_OK (r : FRESULT) : bool :=
  match r with FR_OK => true | _ => false end.

Class FatFs (FIL : Type) := {
  f_open : FIL -> string -> FRESULT * FIL;
  f_close : FIL -> FIL;
  f_read : FIL -> Z -> FRESULT * list byte * FIL;
  f_lseek : FIL -> Z -> FRESULT * FIL;
  f_tell : FIL -> Z;
  f_size : FIL -> Z
}.

(** ** FileReader.h, the FatFs reader *)

Record FileReader (FIL : Type) := mkReader { f_ : FIL; fr_size_ : Z }.
Arguments mkReader {FIL}.
Arguments f_ {FIL}.
Arguments fr_size_ {FIL}.

(** [long p] read as a signed 32-bit value. *)
Definition to_long (x : Z) : Z := (x + 2 ^ 31) mod 2 ^ 32 - 2 ^ 31.

Section Reader.
Context {FIL : Type} `{FatFs FIL}.

(** The constructor: remember the size and rewind. *)
Definition FileReader_new (f : FIL) : FileReader FIL :=
  let sz := u32 (f_size f) in
  let '(_, f) := f_lseek f 0 in
  mkReader f sz.

#[export] Instance FileReader_IReader : IReader (FileReader FIL) := {
  read r n :=
    let '(_, buf, f) := f_read (f_ r) n in (buf, mkReader f (fr_size_ r));
  seek r pos :=
    let '(sta, f) := f_lseek (f_ r) pos in
    (is_FR_OK sta, mkReader f (fr_size_ r));
  position r :=
    let p := to_long (f_tell (f_ r)) in if p <? 0 then 0 else u32 p;
  size r := fr_size_ r
}.
End Reader.

(** ** FIFO *)

(** Modelled from the spec: [daisy::FIFO<T, capacity>] (util/FIFO.h) is not
    among the sources.  It is the "fixed-capacity queue" of the
    specification: elements leave in the order they entered, [PushBack] is
    rejected (returns [false], queue unchanged) when the queue holds
    [capacity] elements.  The specification leaves [PopFront] on an empty
    queue undefined; the model returns a default element [d] and leaves
    the queue empty. *)
Definition FIFO (T : Type) : Type := list T.

Definition Clear {T} (q : FIFO T) : FIFO T := [].
Definition IsEmpty {T} (q : FIFO T) : bool :=
  match q with [] => true | _ => false end.
Definition GetNumElements {T} (q : FIFO T) : Z := Z.of_nat (length q).
Definition IsFull {T} (capacity : Z) (q : FIFO T) : bool :=
  capacity <=? GetNumElements q.
Definition PushBack {T} (capacity : Z) (q : FIFO T) (x : T)
  : bool * FIFO T :=
  if IsFull capacity q then (false, q) else (true, q ++ [x]).
Definition PopFront {T} (d : T) (q : FIFO T) : T * FIFO T :=
  match q with
  | [] => (d, [])
  | x :: q => (x, q)
  end.

(** ** WavPlayer.h *)

Inductive Result :=
| Ok | FileNotFoundError | PlaybackUnderrun | PrepareOverrun
| NewSamplesRequested | DiskError.

Record FileInfo := mkInfo {
  channels : Z;
  length_ : Z;
  samplerate : Z;
  data_start : Z;
  data_size_bytes : Z
}.

Inductive IoType := Read | Seek | Unknown.

Record IoRequest := mkReq { type : IoType; data : Z }.

(** Capacity of [request_fifo_], the template argument of its type. *)
Definition kRequestCapacity : Z := 8.

Definition kMaxAudioChannels : Z := 8.

(** The arithmetic of [float] that [Stream] uses; [s162f] (daisy_core.h)
    converts a 16-bit sample to a normalized float. *)
Class FloatOps (F : Type) := {
  f0 : F;
  f1 : F;
  fadd : F -> F -> F;
  fsub : F -> F -> F;
  fmul : F -> F -> F;
  fge : F -> F -> bool;
  s162f : Z -> F
}.

Record WavPlayer (FIL F : Type) := mkPlayer {
  request_fifo_ : FIFO IoRequest;
  buff_fifo_ : FIFO Z;
  buff_raw_ : list byte;
  position_ : Z;
  file_info_ : FileInfo;
  looping_ : bool;
  playing_ : bool;
  playback_speed_ : F;
  current_sample_ : list F;
  previous_sample_ : list F;
  file_ : FIL;
  is_open_ : bool;
  pending_read_req_ : bool;
  pending_seek_req_ : bool;
  pos_acc_ : F;
  bytes_left_in_chunk_ : Z;
  frame_bytes_ : Z
}.
Arguments mkPlayer {FIL F}.
Arguments request_fifo_ {FIL F}.
Arguments buff_fifo_ {FIL F}.
Arguments buff_raw_ {FIL F}.
Arguments position_ {FIL F}.
Arguments file_info_ {FIL F}.
Arguments looping_ {FIL F}.
Arguments playing_ {FIL F}.
Arguments playback_speed_ {FIL F}.
Arguments current_sample_ {FIL F}.
Arguments previous_sample_ {FIL F}.
Arguments file_ {FIL F}.
Arguments is_open_ {FIL F}.
Arguments pending_read_req_ {FIL F}.
Arguments pending_seek_req_ {FIL F}.
Arguments pos_acc_ {FIL F}.
Arguments bytes_left_in_chunk_ {FIL F}.
Arguments frame_bytes_ {FIL F}.

Section Setters.
Context {FIL F : Type}.
Implicit Type s : WavPlayer FIL F.

Definition set_request_fifo s (x : FIFO IoRequest) : WavPlayer FIL F :=
  mkPlayer x (buff_fifo_ s) (buff_raw_ s) (position_ s) (file_info_ s)
    (looping_ s) (playing_ s) (playback_speed_ s) (current_sample_ s)
    (previous_sample_ s) (file_ s) (is_open_ s) (pending_read_req_ s)
    (pending_seek_req_ s) (pos_acc_ s) (bytes_left_in_chunk_ s)
    (frame_bytes_ s).

Definition set_buff_fifo s (x : FIFO Z) : WavPlayer FIL F :=
  mkPlayer (request_fifo_ s) x (buff_raw_ s) (position_ s)
    (file_info_ s) (looping_ s) (playing_ s) (playback_speed_ s)
    (current_sample_ s) (previous_sample_ s) (file_ s) (is_open_ s)
    (pending_read_req_ s) (pending_seek_req_ s) (pos_acc_ s)
    (bytes_left_in_chunk_ s) (frame_bytes_ s).

Definition set_buff_raw s (x : list byte) : WavPlayer FIL F :=
  mkPlayer (request_fifo_ s) (buff_fifo_ s) x (position_ s)
    (file_info_ s) (looping_ s) (playing_ s) (playback_speed_ s)
    (current_sample_ s) (previous_sample_ s) (file_ s) (is_open_ s)
    (pending_read_req_ s) (pending_seek_req_ s) (pos_acc_ s)
    (bytes_left_in_chunk_ s) (frame_bytes_ s).

Definition set_position s (x : Z) : WavPlayer FIL F :=
  mkPlayer (request_fifo_ s) (buff_fifo_ s) (buff_raw_ s) x
    (file_info_ s) (looping_ s) (playing_ s) (playback_speed_ s)
    (current_sample_ s) (previous_sample_ s) (file_ s) (is_open_ s)
    (pending_read_req_ s) (pending_seek_req_ s) (pos_acc_ s)
    (bytes_left_in_chunk_ s) (frame_bytes_ s).

Definition set_file_info s (x : FileInfo) : WavPlayer FIL F :=
  mkPlayer (request_fifo_ s) (buff_fifo_ s) (buff_raw_ s) (position_ s)
    x (looping_ s) (playing_ s) (playback_speed_ s) (current_sample_ s)
    (previous_sample_ s) (file_ s) (is_open_ s) (pending_read_req_ s)
    (pending_seek_req_ s) (pos_acc_ s) (bytes_left_in_chunk_ s)
    (frame_bytes_ s).

Definition set_looping s (x : bool) : WavPlayer FIL F :=
  mkPlayer (request_fifo_ s) (buff_fifo_ s) (buff_raw_ s) (position_ s)
    (file_info_ s) x (playing_ s) (playback_speed_ s)
    (current_sample_ s) (previous_sample_ s) (file_ s) (is_open_ s)
    (pending_read_req_ s) (pending_seek_req_ s) (pos_acc_ s)
    (bytes_left_in_chunk_ s) (frame_bytes_ s).

Definition set_playing s (x : bool) : WavPlayer FIL F :=
  mkPlayer (request_fifo_ s) (buff_fifo_ s) (buff_raw_ s) (position_ s)
    (file_info_ s) (looping_ s) x (playback_speed_ s)
    (current_sample_ s) (previous_sample_ s) (file_ s) (is_open_ s)
    (pending_read_req_ s) (pending_seek_req_ s) (pos_acc_ s)
    (bytes_left_in_chunk_ s) (frame_bytes_ s).

Definition set_playback_speed s (x : F) : WavPlayer FIL F :=
  mkPlayer (request_fifo_ s) (buff_fifo_ s) (buff_raw_ s) (position_ s)
    (file_info_ s) (looping_ s) (playing_ s) x (current_sample_ s)
    (previous_sample_ s) (file_ s) (is_open_ s) (pending_read_req_ s)
    (pending_seek_req_ s) (pos_acc_ s) (bytes_left_in_chunk_ s)
    (frame_bytes_ s).

Definition set_current_sample s (x : list F) : WavPlayer FIL F :=
  mkPlayer (request_fifo_ s) (buff_fifo_ s) (buff_raw_ s) (position_ s)
    (file_info_ s) (looping_ s) (playing_ s) (playback_speed_ s) x
    (previous_sample_ s) (file_ s) (is_open_ s) (pending_read_req_ s)
    (pending_seek_req_ s) (pos_acc_ s) (bytes_left_in_chunk_ s)
    (frame_bytes_ s).

Definition set_previous_sample s (x : list F) : WavPlayer FIL F :=
  mkPlayer (request_fifo_ s) (buff_fifo_ s) (buff_raw_ s) (position_ s)
    (file_info_ s) (looping_ s) (playing_ s) (playback_speed_ s)
    (current_sample_ s) x (file_ s) (is_open_ s) (pending_read_req_ s)
    (pending_seek_req_ s) (pos_acc_ s) (bytes_left_in_chunk_ s)
    (frame_bytes_ s).

Definition set_file s (x : FIL) : WavPlayer FIL F :=
  mkPlayer (request_fifo_ s) (buff_fifo_ s) (buff_raw_ s) (position_ s)
    (file_info_ s) (looping_ s) (playing_ s) (playback_speed_ s)
    (current_sample_ s) (previous_sample_ s) x (is_open_ s)
    (pending_read_req_ s) (pending_seek_req_ s) (pos_acc_ s)
    (bytes_left_in_chunk_ s) (frame_bytes_ s).

Definition set_is_open s (x : bool) : WavPlayer FIL F :=
  mkPlayer (request_fifo_ s) (buff_fifo_ s) (buff_raw_ s) (position_ s)
    (file_info_ s) (looping_ s) (playing_ s) (playback_speed_ s)
    (current_sample_ s) (previous_sample_ s) (file_ s) x
    (pending_read_req_ s) (pending_seek_req_ s) (pos_acc_ s)
    (bytes_left_in_chunk_ s) (frame_bytes_ s).

Definition set_pending_read_req s (x : bool) : WavPlayer FIL F :=
  mkPlayer (request_fifo_ s) (buff_fifo_ s) (buff_raw_ s) (position_ s)
    (file_info_ s) (looping_ s) (playing_ s) (playback_speed_ s)
    (current_sample_ s) (previous_sample_ s) (file_ s) (is_open_ s) x
    (pending_seek_req_ s) (pos_acc_ s) (bytes_left_in_chunk_ s)
    (frame_bytes_ s).

Definition set_pending_seek_req s (x : bool) : WavPlayer FIL F :=
  mkPlayer (request_fifo_ s) (buff_fifo_ s) (buff_raw_ s) (position_ s)
    (file_info_ s) (looping_ s) (playing_ s) (playback_speed_ s)
    (current_sample_ s) (previous_sample_ s) (file_ s) (is_open_ s)
    (pending_read_req_ s) x (pos_acc_ s) (bytes_left_in_chunk_ s)
    (frame_bytes_ s).

Definition set_pos_acc s (x : F) : WavPlayer FIL F :=
  mkPlayer (request_fifo_ s) (buff_fifo_ s) (buff_raw_ s) (position_ s)
    (file_info_ s) (looping_ s) (playing_ s) (playback_speed_ s)
    (current_sample_ s) (previous_sample_ s) (file_ s) (is_open_ s)
    (pending_read_req_ s) (pending_seek_req_ s) x
    (bytes_left_in_chunk_ s) (frame_bytes_ s).

Definition set_bytes_left_in_chunk s (x : Z) : WavPlayer FIL F :=
  mkPlayer (request_fifo_ s) (buff_fifo_ s) (buff_raw_ s) (position_ s)
    (file_info_ s) (looping_ s) (playing_ s) (playback_speed_ s)
    (current_sample_ s) (previous_sample_ s) (file_ s) (is_open_ s)
    (pending_read_req_ s) (pending_seek_req_ s) (pos_acc_ s) x
    (frame_bytes_ s).

Definition set_frame_bytes s (x : Z) : WavPlayer FIL F :=
  mkPlayer (request_fifo_ s) (buff_fifo_ s) (buff_raw_ s) (position_ s)
    (file_info_ s) (looping_ s) (playing_ s) (playback_speed_ s)
    (current_sample_ s) (previous_sample_ s) (file_ s) (is_open_ s)
    (pending_read_req_ s) (pending_seek_req_ s) (pos_acc_ s)
    (bytes_left_in_chunk_ s) x.
End Setters.

(** [int16_t] read of a 16-bit pattern. *)
Definition to_int16 (x : Z) : Z := (x + 2 ^ 15) mod 2 ^ 16 - 2 ^ 15.

(** [buff_raw_[i]]: the buffer is an array of [int16_t] filled bytewise
    by [f_read] (little-endian host). *)
Definition raw_sample (buf : list byte) (i : nat) : Z :=
  to_int16 (rd_u16 buf (2 * i)).

(** Bytes stored by [f_read] at byte offset [off] of the buffer.  Bytes
    past the end of the array are dropped by the model. *)
Definition buf_write (buf : list byte) (off : nat) (bytes : list byte)
  : list byte :=
  take (length buf)
       (take off buf ++ bytes ++ drop (off + length bytes) buf).

(** [for(i = 0; i < n; i++) if(!buff_fifo_.PushBack(buff_raw_[i])) break;]
    starting at index [i]; the verdict is [false] when a push was
    rejected. *)
Fixpoint push_raw (capacity : Z) (buf : list byte) (i n : nat) (q : FIFO Z)
  : bool * FIFO Z :=
  match n with
  | O => (true, q)
  | S n =>
      let '(ok, q) := PushBack capacity q (raw_sample buf i) in
      if negb ok then (false, q) else push_raw capacity buf (S i) n q
  end.

(** [a[i]] of a float array; a read outside the array is undefined in
    C++ and gives [f0] in the model, a write outside it is dropped.  The
    arrays hold [kMaxAudioChannels] floats and [Stream] indexes them up to
    the channel count: the theorems on what [Stream] leaves in memory
    outside the arrays, or on the values it reads from them, assume at
    most [kMaxAudioChannels] channels. *)
Definition sample_at {F} `{FloatOps F} (a : list F) (i : nat) : F :=
  default f0 (a !! i).

Section Player.
Context {FIL F : Type} `{FatFs FIL} `{FloatOps F}.
Variable workspace_bytes : Z.
Implicit Type s : WavPlayer FIL F.

Definition kRxSizeSamples : Z := udiv workspace_bytes 2.
Definition kRxFifoThreshold : Z := udiv kRxSizeSamples 4 * 3.

(** [std::fill(buff_raw_, buff_raw_ + kRxSizeSamples, 0)] *)
Definition buff_raw_zero : list byte :=
  replicate (Z.to_nat (2 * kRxSizeSamples)) x00.

Definition Close s : Result * WavPlayer FIL F :=
  let s := set_file s (f_close (file_ s)) in
  let fi := file_info_ s in
  let fi := mkInfo 0 (length_ fi) (samplerate fi) (data_start fi)
                   (data_size_bytes fi) in
  let fi := mkInfo (channels fi) (length_ fi) (samplerate fi) 0
                   (data_size_bytes fi) in
  let fi := mkInfo (channels fi) 0 (samplerate fi) (data_start fi)
                   (data_size_bytes fi) in
  let fi := mkInfo (channels fi) (length_ fi) 0 (data_start fi)
                   (data_size_bytes fi) in
  let s := set_file_info s fi in
  let s := set_is_open s false in
  let s := set_playing s false in
  (Ok, s).

Definition SetLooping s (state : bool) := set_looping s state.
Definition GetLooping s : bool := looping_ s.
Definition SetPlaying s (state : bool) := set_playing s state.
Definition GetPlaying s : bool := playing_ s.
Definition GetDurationInSamples s : Z :=
  if length_ (file_info_ s) >? 0 then length_ (file_info_ s) else 1.
Definition GetChannels s : Z := channels (file_info_ s).
Definition GetPosition s : Z := u32 (position_ s).
Definition SetPlaybackSpeedRatio s (speed : F) : WavPlayer FIL F :=
  if fge speed f0 then set_playback_speed s speed else s.

Definition Restart s : WavPlayer FIL F :=
  let s := set_buff_fifo s (Clear (buff_fifo_ s)) in
  let s := set_request_fifo s (Clear (request_fifo_ s)) in
  let s := set_pos_acc s f0 in
  let s := set_previous_sample s (replicate (Z.to_nat kMaxAudioChannels) f0) in
  let s := set_current_sample s (replicate (Z.to_nat kMaxAudioChannels) f0) in
  let s := set_bytes_left_in_chunk s (data_size_bytes (file_info_ s)) in
  let s := set_request_fifo s
             (snd (PushBack kRequestCapacity (request_fifo_ s)
                            (mkReq Seek 0))) in
  let req_samps := kRxSizeSamples in
  let req_samps :=
    if channels (file_info_ s) >? 0
    then req_samps - umod req_samps (channels (file_info_ s))
    else req_samps in
  let s :=
    if req_samps >? 0
    then set_request_fifo s
           (snd (PushBack kRequestCapacity (request_fifo_ s)
                          (mkReq Read req_samps)))
    else s in
  let s := set_pending_read_req s true in
  let s := set_pending_seek_req s true in
  let s := set_position s 0 in
  set_playing s true.

(** *** Stream *)

(** [for(i = 0; i < ch_out; i++) samples[i] = previous_sample_[i]
    + pos_acc_ * (current_sample_[i] - previous_sample_[i]);] *)
Fixpoint interpolate (prev cur : list F) (acc : F) (i n : nat)
         (samples : list F) : list F :=
  match n with
  | O => samples
  | S n =>
      let v := fadd (sample_at prev i)
                    (fmul acc (fsub (sample_at cur i) (sample_at prev i))) in
      interpolate prev cur acc (S i) n (<[i := v]> samples)
  end.

(** [for(i = 0; i < channels; i++) { previous_sample_[i] =
    current_sample_[i]; current_sample_[i] = s162f(buff_fifo_.PopFront()); }]
    The loop runs to the channel count of the file, which [Open] does not
    bound by [kMaxAudioChannels]: with more channels the program writes
    past the two arrays, where the model drops the write. *)
Fixpoint next_frame (i n : nat) s : WavPlayer FIL F :=
  match n with
  | O => s
  | S n =>
      let s := set_previous_sample s
                 (<[i := sample_at (current_sample_ s) i]>
                    (previous_sample_ s)) in
      let '(x, q) := PopFront 0 (buff_fifo_ s) in
      let s := set_buff_fifo s q in
      let s := set_current_sample s
                 (<[i := s162f x]> (current_sample_ s)) in
      next_frame (S i) n s
  end.

(** [while(pos_acc_ >= 1.f) { ... }]; [fuel] bounds the number of
    passes, [None] means the bound was reached with the loop running. *)
Fixpoint advance (fuel : nat) s : option (WavPlayer FIL F) :=
  if fge (pos_acc_ s) f1 then
    match fuel with
    | O => None
    | S fuel =>
        let s := set_position s (usz (position_ s + 1)) in
        let s := set_pos_acc s (fsub (pos_acc_ s) f1) in
        let s := next_frame 0 (Z.to_nat (channels (file_info_ s))) s in
        advance fuel s
    end
  else Some s.

(** Zeroing of the output and the playback block. *)
Definition Stream_play (fuel : nat) s (num_channels : Z)
  : option (list F * WavPlayer FIL F) :=
  let chans := channels (file_info_ s) in
  let samples := replicate (Z.to_nat num_channels) f0 in
  if negb (IsEmpty (buff_fifo_ s)) && playing_ s then
    let ch_out := Z.min chans num_channels in
    let samples :=
      interpolate (previous_sample_ s) (current_sample_ s) (pos_acc_ s)
                  0 (Z.to_nat ch_out) samples in
    let s := set_pos_acc s (fadd (pos_acc_ s) (playback_speed_ s)) in
    match advance fuel s with
    | None => None
    | Some s => Some (samples, s)
    end
  else Some (samples, s).

(** [for(i = 0; i < kMaxAudioChannels; i++) previous_sample_[i] =
    current_sample_[i];] *)
Fixpoint copy_current (i n : nat) s : WavPlayer FIL F :=
  match n with
  | O => s
  | S n =>
      copy_current (S i) n
        (set_previous_sample s
           (<[i := sample_at (current_sample_ s) i]> (previous_sample_ s)))
  end.

(** End-of-file block. *)
Definition Stream_eof s : WavPlayer FIL F :=
  if position_ s >=?
     (if length_ (file_info_ s) >? 0 then length_ (file_info_ s) else 1)
  then
    let s := set_position s 0 in
    if negb (looping_ s) then set_playing s false
    else
      let s := set_pos_acc s f0 in
      copy_current 0 (Z.to_nat kMaxAudioChannels) s
  else s.

(** Prefetch block; the verdict is [requested_new_samps]. *)
Definition Stream_prefetch s : bool * WavPlayer FIL F :=
  if (GetNumElements (buff_fifo_ s) <? kRxFifoThreshold)
     && negb (pending_read_req_ s)
  then
    let free_slots := usz (kRxSizeSamples - GetNumElements (buff_fifo_ s)) in
    let rx_qty := if free_slots >? 1 then free_slots - 1 else 0 in
    let rx_qty :=
      if channels (file_info_ s) >? 0
      then rx_qty - umod rx_qty (channels (file_info_ s))
      else rx_qty in
    if rx_qty >? 0 then
      let s := set_request_fifo s
                 (snd (PushBack kRequestCapacity (request_fifo_ s)
                                (mkReq Read rx_qty))) in
      let s := set_pending_read_req s true in
      (true, s)
    else (false, s)
  else (false, s).

Definition Stream (fuel : nat) s (num_channels : Z)
  : option (Result * list F * WavPlayer FIL F) :=
  match Stream_play fuel s num_channels with
  | None => None
  | Some (samples, s) =>
      let s := Stream_eof s in
      let '(requested_new_samps, s) := Stream_prefetch s in
      if requested_new_samps then Some (NewSamplesRequested, samples, s)
      else if IsEmpty (buff_fifo_ s) && playing_ s
           then Some (PlaybackUnderrun, samples, s)
           else Some (Ok, samples, s)
  end.

(** *** Prepare *)

(** How the body of the [switch] ends: [Return r] leaves [Prepare],
    [Continue] goes back to the test of the [while] loop. *)
Inductive StepExit :=
  | Return (r : Result) s
  | Continue s.

(** The final block of a Read request: push the samples read. *)
Definition Prepare_push s (total_bytes_read : Z) : StepExit :=
  let samps_to_write := udiv total_bytes_read 2 in
  let samps_to_write :=
    if channels (file_info_ s) >? 0
    then samps_to_write - umod samps_to_write (channels (file_info_ s))
    else samps_to_write in
  let '(ok, q) := push_raw kRxSizeSamples (buff_raw_ s) 0
                           (Z.to_nat samps_to_write) (buff_fifo_ s) in
  let s := set_buff_fifo s q in
  if negb ok then Return PrepareOverrun (set_pending_read_req s false)
  else Continue (set_pending_read_req s false).

(** The wrap-around block of a Read request (looping). *)
Definition Prepare_wrap s (bytes_requested total_bytes_read : Z)
  : StepExit :=
  if (total_bytes_read <? bytes_requested) && looping_ s then
    let '(sta, f) := f_lseek (file_ s) (data_start (file_info_ s)) in
    let s := set_file s f in
    if negb (is_FR_OK sta) then Return DiskError s else
    let remaining_bytes := usz (bytes_requested - total_bytes_read) in
    let remaining_bytes :=
      remaining_bytes - umod remaining_bytes (frame_bytes_ s) in
    if remaining_bytes >? 0 then
      let span2 := Z.min remaining_bytes (data_size_bytes (file_info_ s)) in
      let span2 := span2 - umod span2 (frame_bytes_ s) in
      if span2 >? 0 then
        let '(sta, bytes, f) := f_read (file_ s) span2 in
        let bytes_read2 := Z.of_nat (length bytes) in
        let s := set_file s f in
        let s := set_buff_raw s
                   (buf_write (buff_raw_ s) (Z.to_nat total_bytes_read)
                              bytes) in
        if negb (is_FR_OK sta) then Return DiskError s else
        if negb (bytes_read2 =? span2) then Return DiskError s else
        let total_bytes_read := usz (total_bytes_read + bytes_read2) in
        let s := set_bytes_left_in_chunk s
                   (if bytes_read2 <=? data_size_bytes (file_info_ s)
                    then data_size_bytes (file_info_ s) - bytes_read2
                    else 0) in
        Prepare_push s total_bytes_read
      else Prepare_push s total_bytes_read
    else Prepare_push s total_bytes_read
  else Prepare_push s total_bytes_read.

Definition Prepare_read s (req : IoRequest) : StepExit :=
  let bytes_requested := usz (data req * 2) in
  let bytes_requested :=
    bytes_requested - umod bytes_requested (frame_bytes_ s) in
  if bytes_requested =? 0 then Continue (set_pending_read_req s false)
  else
    let s := set_buff_raw s buff_raw_zero in
    let first_span := Z.min bytes_requested (bytes_left_in_chunk_ s) in
    let first_span := first_span - umod first_span (frame_bytes_ s) in
    if first_span >? 0 then
      let '(sta, bytes, f) := f_read (file_ s) first_span in
      let bytes_read := Z.of_nat (length bytes) in
      let s := set_file s f in
      let s := set_buff_raw s (buf_write (buff_raw_ s) 0 bytes) in
      if negb (is_FR_OK sta) then Return DiskError s else
      if negb (bytes_read =? first_span) then Return DiskError s else
      let s := set_bytes_left_in_chunk s
                 (usz (bytes_left_in_chunk_ s - bytes_read)) in
      Prepare_wrap s bytes_requested bytes_read
    else Prepare_wrap s bytes_requested 0.

Definition Prepare_seek s (req : IoRequest) : StepExit :=
  let dest_bytes := usz (data req * 2) in
  let dest_bytes :=
    if dest_bytes >? data_size_bytes (file_info_ s)
    then data_size_bytes (file_info_ s) else dest_bytes in
  let dest_bytes := dest_bytes - umod dest_bytes (frame_bytes_ s) in
  let '(sta, f) :=
    f_lseek (file_ s) (usz (data_start (file_info_ s) + dest_bytes)) in
  let s := set_file s f in
  if negb (is_FR_OK sta) then Return DiskError s else
  let s := set_bytes_left_in_chunk s
             (usz (data_size_bytes (file_info_ s) - dest_bytes)) in
  Continue (set_pending_seek_req s false).

(** One pass of the [while] loop: pop the request, then the [switch]. *)
Definition Prepare_step s : StepExit :=
  let '(req, q) := PopFront (mkReq Unknown 0) (request_fifo_ s) in
  let s := set_request_fifo s q in
  match type req with
  | Read => Prepare_read s req
  | Seek => Prepare_seek s req
  | Unknown => Continue s
  end.

(** [while(!request_fifo_.IsEmpty()) { ... } return Result::Ok;] with at
    most [n] passes. *)
Fixpoint Prepare_loop (n : nat) s : Result * WavPlayer FIL F :=
  if IsEmpty (request_fifo_ s) then (Ok, s)
  else
    match n with
    | O => (Ok, s)
    | S n =>
        match Prepare_step s with
        | Return r s => (r, s)
        | Continue s => Prepare_loop n s
        end
    end.

(** Every pass removes one request and adds none, so the number of
    queued requests bounds the number of passes. *)
Definition Prepare s : Result * WavPlayer FIL F :=
  Prepare_loop (length (request_fifo_ s)) s.

(** *** Open and Init *)

(** The part of [Open] after a successful parse.  The division that gives
    [length] comes before the test of the frame size: with a frame size of
    0 it is a division by zero in C++, where the model takes the quotient 0
    and goes on to the test. *)
Definition Open_prime s (parser : WavParser) : Result * WavPlayer FIL F :=
  let info := fmt_ parser in
  let bd := bitsPerSample info in
  let fi := mkInfo (numChannels info) (length_ (file_info_ s))
                   (sampleRate info) (data_start (file_info_ s))
                   (dataSize_ parser) in
  let fi := mkInfo (channels fi)
                   (udiv (data_size_bytes fi)
                         (usz (udiv bd 8 * channels fi)))
                   (samplerate fi) (dataOffset_ parser)
                   (data_size_bytes fi) in
  let s := set_file_info s fi in
  let s := set_frame_bytes s (usz (channels fi * udiv bd 8)) in
  if frame_bytes_ s =? 0 then (DiskError, s) else
  let '(sta, f) := f_lseek (file_ s) (data_start fi) in
  let s := set_file s f in
  if negb (is_FR_OK sta) then (DiskError, s) else
  let s := set_buff_raw s buff_raw_zero in
  let bytes_to_read := Z.min workspace_bytes (data_size_bytes fi) in
  let bytes_to_read := bytes_to_read - umod bytes_to_read (frame_bytes_ s) in
  let finish s (bytes_read : Z) : Result * WavPlayer FIL F :=
    let s := set_buff_fifo s (Clear (buff_fifo_ s)) in
    let samps_to_write := udiv bytes_read 2 in
    let samps_to_write :=
      if channels fi >? 0
      then samps_to_write - umod samps_to_write (channels fi)
      else samps_to_write in
    let '(_, q) := push_raw kRxSizeSamples (buff_raw_ s) 0
                            (Z.to_nat samps_to_write) (buff_fifo_ s) in
    let s := set_buff_fifo s q in
    let s := set_position s 0 in
    let s := set_pending_read_req s false in
    let s := set_pending_seek_req s false in
    let s := set_bytes_left_in_chunk s
               (if bytes_read <=? data_size_bytes fi
                then data_size_bytes fi - bytes_read else 0) in
    (Ok, s) in
  if bytes_to_read >? 0 then
    let '(sta, bytes, f) := f_read (file_ s) bytes_to_read in
    let bytes_read := Z.of_nat (length bytes) in
    let s := set_file s f in
    let s := set_buff_raw s (buf_write (buff_raw_ s) 0 bytes) in
    if negb (is_FR_OK sta)
    then (DiskError, set_file s (f_close (file_ s))) else
    if negb (bytes_read =? bytes_to_read)
    then (DiskError, set_file s (f_close (file_ s))) else
    finish s bytes_read
  else finish s 0.

(** [Open]; [fuel] bounds the passes of the parser's loop, [None] means
    the parser was still running at the bound. *)
Definition Open (fuel : nat) s (name : string)
  : option (Result * WavPlayer FIL F) :=
  let s := if is_open_ s then set_file s (f_close (file_ s)) else s in
  let '(sta, f) := f_open (file_ s) name in
  let s := set_file s f in
  match sta with
  | FR_OK =>
      let s := set_is_open s true in
      let reader := FileReader_new (file_ s) in
      match parse fuel WavParser0 reader with
      | None => None
      | Some (ok, parser, reader) =>
          let s := set_file s (f_ reader) in
          if negb ok then Some (DiskError, s)
          else Some (Open_prime s parser)
      end
  | FR_NO_FILE | FR_NO_PATH => Some (FileNotFoundError, s)
  | _ => Some (DiskError, s)
  end.

Definition Init (fuel : nat) s (name : string)
  : option (Result * WavPlayer FIL F) :=
  match Open fuel s name with
  | None => None
  | Some (res, s) =>
      match res with
      | Ok =>
          let s := set_current_sample s
                     (replicate (Z.to_nat kMaxAudioChannels) f0) in
          let s := set_previous_sample s
                     (replicate (Z.to_nat kMaxAudioChannels) f0) in
          let s := set_pos_acc s f0 in
          let s := set_playback_speed s f1 in
          let s := set_looping s false in
          let s := set_playing s false in
          Some (Ok, s)
      | _ => Some (res, s)
      end
  end.

End Player.

(** ** Concrete instances, used to run the model *)

(** IEEE 754 binary32 ([float]), round to nearest even. *)
Definition binary32 : Type := spec_float.

Definition b32_of_Z (m e : Z) : binary32 := binary_normalize 24 128 m e false.

(** Modelled from the spec: [s162f] (daisy_core.h) is not among the
    sources; it is "converting the 16-bit integer to a normalized floating
    value", here the sample times [2^-15]. *)
Definition b32_s162f (x : Z) : binary32 :=
  SFmul 24 128 (b32_of_Z x 0) (b32_of_Z 1 (-15)).

#[export] Instance binary32_FloatOps : FloatOps binary32 := {
  f0 := S754_zero false;
  f1 := b32_of_Z 1 0;
  fadd := SFadd 24 128;
  fsub := SFsub 24 128;
  fmul := SFmul 24 128;
  fge x y := SFleb y x;
  s162f := b32_s162f
}.

(** A volume held in memory, standing for FatFs over a storage device:
    named files, one open file with its read pointer, and a switch that
    makes every transfer fail. *)
Record RamFile := mkRam {
  volume : list (string * list byte);
  content : list byte;
  fptr : Z;
  faulty : bool
}.

Fixpoint find_file (name : string) (v : list (string * list byte))
  : option (list byte) :=
  match v with
  | [] => None
  | (n, d) :: v => if String.eqb n name then Some d else find_file name v
  end.

#[export] Instance RamFile_FatFs : FatFs RamFile := {
  f_open fp name :=
    if faulty fp then (FR_DISK_ERR, fp) else
    match find_file name (volume fp) with
    | Some d => (FR_OK, mkRam (volume fp) d 0 false)
    | None => (FR_NO_FILE, fp)
    end;
  f_close fp := fp;
  f_read fp n :=
    if faulty fp then (FR_DISK_ERR, [], fp) else
    let bytes := take (Z.to_nat n) (drop (Z.to_nat (fptr fp)) (content fp)) in
    (FR_OK, bytes,
     mkRam (volume fp) (content fp) (fptr fp + Z.of_nat (length bytes)) false);
  f_lseek fp pos :=
    if faulty fp then (FR_DISK_ERR, fp) else
    (FR_OK, mkRam (volume fp) (content fp)
                  (Z.min pos (Z.of_nat (length (content fp)))) false);
  f_tell fp := fptr fp;
  f_size fp := Z.of_nat (length (content fp))
}.

Definition byte_of (z : Z) : byte :=
  default x00 (Byte.of_N (Z.to_N (z mod 256))).

Definition le16 (z : Z) : list byte :=
  [byte_of z; byte_of (Z.shiftr z 8)].

Definition le32 (z : Z) : list byte :=
  [byte_of z; byte_of (Z.shiftr z 8); byte_of (Z.shiftr z 16);
   byte_of (Z.shiftr z 24)].

(** A canonical WAV stream: 16-byte [fmt ] chunk, then the [data] chunk. *)
Definition wav_file (format chans rate bits : Z) (payload : list byte)
  : list byte :=
  let n := Z.of_nat (length payload) in
  list_byte_of_string "RIFF" ++ le32 (36 + n) ++ list_byte_of_string "WAVE"
  ++ list_byte_of_string "fmt " ++ le32 16
  ++ le16 format ++ le16 chans ++ le32 rate
  ++ le32 (rate * chans * (bits / 8)) ++ le16 (chans * (bits / 8))
  ++ le16 bits
  ++ list_byte_of_string "data" ++ le32 n ++ payload.

(** Mono, 16 bit, 48000 Hz, the four frames 0 1 2 3. *)
Definition ramp_wav : list byte :=
  wav_file 1 1 48000 16 (le16 0 ++ le16 1 ++ le16 2 ++ le16 3).

(** The same header with a channel count of zero. *)
Definition zero_channel_wav : list byte :=
  wav_file 1 0 48000 16 (le16 0 ++ le16 1 ++ le16 2 ++ le16 3).

(** Mono, 16 bit, seven frames. *)
Definition seven_wav : list byte :=
  wav_file 1 1 48000 16
    (le16 0 ++ le16 1 ++ le16 2 ++ le16 3 ++ le16 4 ++ le16 5 ++ le16 6).

(** Stereo, 16 bit, four frames. *)
Definition stereo_wav : list byte :=
  wav_file 1 2 48000 16
    (le16 0 ++ le16 0 ++ le16 1 ++ le16 1 ++ le16 2 ++ le16 2
     ++ le16 3 ++ le16 3).

(** [ramp_wav] cut after its second frame: the data chunk announces
    eight bytes, four are there. *)
Definition truncated_wav : list byte := take 48 ramp_wav.

(** Twenty bytes: a RIFF header and the header of a [data] chunk whose
    size, 0xFFFFFFF8, makes the seek target wrap round to the chunk's own
    header. *)
Definition wrapping_wav : list byte :=
  list_byte_of_string "RIFF" ++ le32 12 ++ list_byte_of_string "WAVE"
  ++ list_byte_of_string "data" ++ le32 4294967288.

(** Eighteen empty [JUNK] chunks before the [fmt ] and [data] chunks of
    a mono 16-bit file with no samples. *)
Definition junk_wav : list byte :=
  let body :=
    concat (replicate 18 (list_byte_of_string "JUNK" ++ le32 0))
    ++ list_byte_of_string "fmt " ++ le32 16
    ++ le16 1 ++ le16 1 ++ le32 48000 ++ le32 96000 ++ le16 2 ++ le16 16
    ++ list_byte_of_string "data" ++ le32 0 in
  list_byte_of_string "RIFF" ++ le32 (4 + Z.of_nat (length body))
  ++ list_byte_of_string "WAVE" ++ body.

Definition test_volume : list (string * list byte) :=
  [("ramp.wav"%string, ramp_wav);
   ("seven.wav"%string, seven_wav);
   ("stereo.wav"%string, stereo_wav);
   ("cut.wav"%string, truncated_wav);
   ("nochan.wav"%string, zero_channel_wav);
   ("empty.wav"%string, [])].

(** A player object before [Init]: nothing open, empty queues. *)
Definition fresh_player : WavPlayer RamFile binary32 :=
  mkPlayer [] [] [] 0 (mkInfo 0 0 0 0 0) false false f1
           (replicate 8 f0) (replicate 8 f0)
           (mkRam test_volume [] 0 false) false false false f0 0 0.

(** [fresh_player] after [Init(name)], for a player of [workspace_bytes]
    bytes ([fresh_player] itself should the parser not return). *)
Definition opened (workspace_bytes : Z) (name : string)
  : WavPlayer RamFile binary32 :=
  match Init workspace_bytes 16 fresh_player name with
  | Some (_, s) => s
  | None => fresh_player
  end.

(** The 32-byte player with [ramp.wav] open and playback switched on,
    and the same player after [n] calls of [Stream] (speed 1.0). *)
Definition ramp_playing : WavPlayer RamFile binary32 :=
  SetPlaying (opened 32 "ramp.wav") true.

Definition stream_once (s : WavPlayer RamFile binary32)
  : WavPlayer RamFile binary32 :=
  match Stream 32 4 s 1 with
  | Some (_, _, s) => s
  | None => s
  end.

Definition ramp_after (n : nat) : WavPlayer RamFile binary32 :=
  Nat.iter n stream_once ramp_playing.

(** The reader [Open] builds for a file of the test volume. *)
Definition reader_of (bytes : list byte) : FileReader RamFile :=
  FileReader_new (mkRam test_volume bytes 0 false).

(** One [Open("ramp.wav")] followed by one [Stream] on a 32-byte player,
    with no [Prepare] in between. *)
Definition reopen_and_stream (s : WavPlayer RamFile binary32)
  : WavPlayer RamFile binary32 :=
  match Open 32 16 s "ramp.wav" with
  | Some (_, s) =>
      match Stream 32 4 s 1 with
      | Some (_, _, s) => s
      | None => s
      end
  | None => s
  end.

(** Eight such rounds fill the request queue; one more [Open] clears the
    pending-read flag. *)
Definition stalled_player : WavPlayer RamFile binary32 :=
  match Open 32 16 (Nat.iter 8 reopen_and_stream fresh_player) "ramp.wav" with
  | Some (_, s) => s
  | None => fresh_player
  end.

(** ** Statement vocabulary *)

(** [x] rounded down to a whole multiple of [m]; left alone when [m] is
    not positive (the guard [file_info_.channels > 0] of the source). *)
Definition round_down (x m : Z) : Z :=
  if m >? 0 then x - x mod m else x.

(** The quantity of a prefetch request when [occ] samples are buffered:
    free slots, minus one slot of headroom, in whole frames. *)
Definition prefetch_qty (workspace_bytes chans occ : Z) : Z :=
  round_down (kRxSizeSamples workspace_bytes - occ - 1) chans.

(** The test of the prefetch block on a player: occupancy below the
    threshold, no read pending, a positive quantity. *)
Definition prefetch_due {FIL F} (workspace_bytes : Z) (s : WavPlayer FIL F)
  : bool :=
  (GetNumElements (buff_fifo_ s) <? kRxFifoThreshold workspace_bytes)
  && negb (pending_read_req_ s)
  && (0 <? prefetch_qty workspace_bytes (channels (file_info_ s))
                        (GetNumElements (buff_fifo_ s))).

(** The loop [while(pos_acc_ >= 1.f) pos_acc_ -= 1.f] leaves the value [x]
    below 1 within [k] passes. *)
Fixpoint settles_in {F} `{FloatOps F} (k : nat) (x : F) : bool :=
  if fge x f1 then
    match k with
    | O => false
    | S k => settles_in k (fsub x f1)
    end
  else true.

(** The arrays [current_sample_] and [previous_sample_] hold
    [kMaxAudioChannels] floats. *)
Definition sample_arrays_ok {FIL F} (s : WavPlayer FIL F) : Prop :=
  length (current_sample_ s) = Z.to_nat kMaxAudioChannels
  /\ length (previous_sample_ s) = Z.to_nat kMaxAudioChannels.

(** The state a pass of [Prepare] ends in. *)
Definition exit_state {FIL F} (e : StepExit (FIL := FIL) (F := F))
  : WavPlayer FIL F :=
  match e with
  | Return _ s => s
  | Continue s => s
  end.

(** A call of the public interface of the player, and runs of calls.
    ([SetPlaybackSpeedSemitones] is left out: it needs [std::pow].) *)
Inductive Call (F : Type) :=
| CallStream (fuel : nat) (num_channels : Z)
| CallPrepare
| CallOpen (fuel : nat) (name : string)
| CallInit (fuel : nat) (name : string)
| CallClose
| CallRestart
| CallSetLooping (state : bool)
| CallSetPlaying (state : bool)
| CallSetPlaybackSpeedRatio (speed : F).
Arguments CallStream {F}.
Arguments CallPrepare {F}.
Arguments CallOpen {F}.
Arguments CallInit {F}.
Arguments CallClose {F}.
Arguments CallRestart {F}.
Arguments CallSetLooping {F}.
Arguments CallSetPlaying {F}.
Arguments CallSetPlaybackSpeedRatio {F}.

Definition run_call {FIL F} `{FatFs FIL} `{FloatOps F} (workspace_bytes : Z)
         (c : Call F) (s : WavPlayer FIL F) : option (WavPlayer FIL F) :=
match c with
| CallStream fuel n =>
    match Stream workspace_bytes fuel s n with
    | Some (_, _, s) => Some s
    | None => None
    end
| CallPrepare => Some (snd (Prepare workspace_bytes s))
| CallOpen fuel name =>
    match Open workspace_bytes fuel s name with
    | Some (_, s) => Some s
    | None => None
    end
| CallInit fuel name =>
    match Init workspace_bytes fuel s name with
    | Some (_, s) => Some s
    | None => None
    end
| CallClose => Some (snd (Close s))
| CallRestart => Some (Restart workspace_bytes s)
| CallSetLooping b => Some (SetLooping s b)
| CallSetPlaying b => Some (SetPlaying s b)
| CallSetPlaybackSpeedRatio x => Some (SetPlaybackSpeedRatio s x)
end.

Fixpoint run_calls {FIL F} `{FatFs FIL} `{FloatOps F} (workspace_bytes : Z)
       (cs : list (Call F)) (s : WavPlayer FIL F)
: option (WavPlayer FIL F) :=
match cs with
| [] => Some s
| c :: cs =>
    match run_call workspace_bytes c s with
    | Some s => run_calls workspace_bytes cs s
    | None => None
    end
end.



(** [drains s handled r s']: started in [s], [Prepare] takes the requests
    [handled] off the queue, oldest first, handing each to the [switch],
    and returns [r] in state [s']. *)
Inductive drains {FIL F} `{FatFs FIL} `{FloatOps F} (workspace_bytes : Z)
  : WavPlayer FIL F -> list IoRequest -> Result -> WavPlayer FIL F -> Prop :=
| drains_done s :
    request_fifo_ s = [] -> drains workspace_bytes s [] Ok s
| drains_stop s req rest r s' :
    request_fifo_ s = req :: rest ->
    Prepare_step workspace_bytes s = Return r s' ->
    drains workspace_bytes s [req] r s'
| drains_next s req rest s1 handled r s' :
    request_fifo_ s = req :: rest ->
    Prepare_step workspace_bytes s = Continue s1 ->
    drains workspace_bytes s1 handled r s' ->
    drains workspace_bytes s (req :: handled) r s'.

(** A transfer or a seek that the request handlers treat as an error. *)
Definition read_fails {FIL} `{FatFs FIL} (fp : FIL) (n : Z) : Prop :=
  is_FR_OK (fst (fst (f_read fp n))) = false
  \/ Z.of_nat (length (snd (fst (f_read fp n)))) <> n.

Definition seek_fails {FIL} `{FatFs FIL} (fp : FIL) (pos : Z) : Prop :=
  is_FR_OK (fst (f_lseek fp pos)) = false.

(** The way a pass of [Prepare] that stops the call has failed, read off
    the state [t] it stops in: the file object of [t] comes out of a
    failed transfer or seek, or the ring buffer of [t] is full. *)
Definition stopped_by_source {FIL F} `{FatFs FIL} (t : WavPlayer FIL F)
  : Prop :=
  exists fp,
    (exists n, read_fails fp n /\ file_ t = snd (f_read fp n))
    \/ (exists pos, seek_fails fp pos /\ file_ t = snd (f_lseek fp pos)).

Definition stopped_by_overrun {FIL F} (workspace_bytes : Z)
         (t : WavPlayer FIL F) : Prop :=
IsFull (kRxSizeSamples workspace_bytes) (buff_fifo_ t) = true.



(** The parser a pass of the loop of [parse] ends with. *)
Definition exit_parser {R} (e : LoopExit (R := R)) : WavParser :=
  match e with
  | ReturnFalse p _ => p
  | Break p _ => p
  | NextPass p _ => p
  end.

(** [reaches p0 r0 k p r]: [parse], called on parser [p0] and reader [r0],
    has accepted the RIFF header and completed [k] passes of its loop,
    and stands at the loop test with parser [p] and reader [r]. *)
Inductive reaches {R} `{IReader R} (p0 : WavParser) (r0 : R)
  : nat -> WavParser -> R -> Prop :=
| reaches_header p r :
    read_riff_header (reset p0) r0 = (true, p, r) ->
    reaches p0 r0 O p r
| reaches_pass k p r p' r' :
    reaches p0 r0 k p r ->
    more_chunks p r = true ->
    parse_chunk p r = NextPass p' r' ->
    reaches p0 r0 (S k) p' r'.

(** A chunk with tag [tag] was found within the declared size: some pass
    of the loop, entered because eight more bytes fit below [fileSize_],
    read a complete chunk header carrying that tag. *)
Definition found_chunk {R} `{IReader R} (p0 : WavParser) (r0 : R) (tag : Z)
  : Prop :=
  exists k p r,
    reaches p0 r0 k p r /\ more_chunks p r = true
    /\ Z.of_nat (length (fst (read r 8))) = 8
    /\ rd_u32 (fst (read r 8)) 0 = tag.

(** [v] is the channel count field of a [fmt ] chunk of the file: some
    pass of the loop read a complete chunk header with the tag [fmt ],
    then the 16 bytes of the chunk body, and [v] is the unsigned 16-bit
    value at bytes 2 and 3 of the body. *)
Definition channels_field {R} `{IReader R} (p0 : WavParser) (r0 : R) (v : Z)
  : Prop :=
  exists k p r,
    reaches p0 r0 k p r /\ more_chunks p r = true
    /\ Z.of_nat (length (fst (read r 8))) = 8
    /\ rd_u32 (fst (read r 8)) 0 = FOURCC_FMT
    /\ Z.of_nat (length (fst (read (snd (read r 8)) 16))) = 16
    /\ v = rd_u16 (fst (read (snd (read r 8)) 16)) 2.

(** The RIFF header is bad: short read, or wrong RIFF or WAVE magic. *)
Definition riff_fault {R} `{IReader R} (r0 : R) : Prop :=
  Z.of_nat (length (fst (read r0 12))) <> 12
  \/ rd_u32 (fst (read r0 12)) 0 <> FOURCC_RIFF
  \/ rd_u32 (fst (read r0 12)) 8 <> FOURCC_WAVE.

Definition supported_format (tag : Z) : Prop :=
  tag = 1 \/ tag = 3 \/ tag = 65534.

(** The chunk at the reader is faulty: its header is cut short, or it is
    a [fmt ] chunk that is too small, cut short, or of an unsupported
    format. *)
Inductive chunk_fault {R} `{IReader R} (r : R) : Prop :=
| fault_header :
    Z.of_nat (length (fst (read r 8))) <> 8 -> chunk_fault r
| fault_fmt_small hdr r1 :
    read r 8 = (hdr, r1) -> Z.of_nat (length hdr) = 8 ->
    rd_u32 hdr 0 = FOURCC_FMT ->
    rd_u32 hdr 4 < 16 -> chunk_fault r
| fault_fmt_core hdr r1 :
    read r 8 = (hdr, r1) -> Z.of_nat (length hdr) = 8 ->
    rd_u32 hdr 0 = FOURCC_FMT -> 16 <= rd_u32 hdr 4 ->
    Z.of_nat (length (fst (read r1 16))) <> 16 -> chunk_fault r
| fault_fmt_tag hdr r1 core r2 :
    read r 8 = (hdr, r1) -> Z.of_nat (length hdr) = 8 ->
    rd_u32 hdr 0 = FOURCC_FMT -> 16 <= rd_u32 hdr 4 ->
    read r1 16 = (core, r2) -> Z.of_nat (length core) = 16 ->
    ~ supported_format (rd_u16 core 0) -> chunk_fault r
| fault_ext_size hdr r1 core r2 :
    read r 8 = (hdr, r1) -> Z.of_nat (length hdr) = 8 ->
    rd_u32 hdr 0 = FOURCC_FMT -> 16 + 2 <= rd_u32 hdr 4 ->
    read r1 16 = (core, r2) -> Z.of_nat (length core) = 16 ->
    rd_u16 core 0 = 65534 ->
    Z.of_nat (length (fst (read r2 2))) <> 2 -> chunk_fault r
| fault_ext_block hdr r1 core r2 ext r3 :
    read r 8 = (hdr, r1) -> Z.of_nat (length hdr) = 8 ->
    rd_u32 hdr 0 = FOURCC_FMT -> 16 + 2 + 22 <= rd_u32 hdr 4 ->
    read r1 16 = (core, r2) -> Z.of_nat (length core) = 16 ->
    rd_u16 core 0 = 65534 ->
    read r2 2 = (ext, r3) -> Z.of_nat (length ext) = 2 ->
    22 <= rd_u16 ext 0 ->
    Z.of_nat (length (fst (read r3 22))) <> 22 -> chunk_fault r.

(** The fields of the player that belong to the playback side: what
    [Stream] and the setters work on, and what the disk side reads. *)
Definition playback_side {FIL F} (s : WavPlayer FIL F)
  : Z * bool * bool * F * F * list F * list F * FileInfo * Z * bool :=
  (position_ s, playing_ s, looping_ s, playback_speed_ s, pos_acc_ s,
   current_sample_ s, previous_sample_ s, file_info_ s, frame_bytes_ s,
   is_open_ s).

Definition is_read (req : IoRequest) : bool :=
  match type req with Read => true | _ => false end.

Definition is_seek (req : IoRequest) : bool :=
  match type req with Seek => true | _ => false end.

(** A request as [Stream] and [Restart] make them: a Read of at least one
    and at most [kRxSizeSamples] samples, or a Seek to 0. *)
Definition request_ok (workspace_bytes : Z) (req : IoRequest) : Prop :=
  match type req with
  | Read => 0 < data req <= kRxSizeSamples workspace_bytes
  | Seek => data req = 0
  | Unknown => False
  end.

(** Both queues within their capacity, every queued request well formed. *)
Definition queues_ok {FIL F} (workspace_bytes : Z) (s : WavPlayer FIL F)
  : Prop :=
  GetNumElements (buff_fifo_ s) <= kRxSizeSamples workspace_bytes
  /\ GetNumElements (request_fifo_ s) <= kRequestCapacity
  /\ Forall (request_ok workspace_bytes) (request_fifo_ s).

(** The samples [buff_raw_[i]], [i] from [first], [count] of them. *)
Definition raw_samples (buf : list byte) (first count : nat) : list Z :=
  map (raw_sample buf) (seq first count).

(** * FileTable.h

    An index of the files of a directory.  A C string is the list of its
    characters before the terminating NUL, so [strlen] is [length] and
    [fname[0] == 0] says that the list is empty.  The directory functions
    of FatFs are an interface, as the file functions are; [f_readdir]
    returns the status, the [FILINFO] it filled in and the directory object
    after the call. *)

Module FileTable.

Record FILINFO := mkFILINFO {
  fsize : Z;
  fattrib : Z;
  fname : list byte
}.

(** Attribute bits of [ff.h]. *)
Definition AM_HID : Z := 2.
Definition AM_SYS : Z := 4.
Definition AM_DIR : Z := 16.

Class FatFsDir (DIR : Type) := {
  f_opendir : DIR -> string -> FRESULT * DIR;
  f_readdir : DIR -> FRESULT * FILINFO * DIR;
  f_closedir : DIR -> DIR
}.

Record FileInfo := mkFileInfo {
  name : list byte;
  size : Z
}.

Record FileTable (DIR : Type) := mkTable {
  dir : DIR;
  table : list FileInfo;
  num_files_found : Z;
  load_pending_ : bool;
  save_pending_ : bool;
  slot_for_load_save_ : Z
}.
Arguments mkTable {DIR}.
Arguments dir {DIR}.
Arguments table {DIR}.
Arguments num_files_found {DIR}.
Arguments load_pending_ {DIR}.
Arguments save_pending_ {DIR}.
Arguments slot_for_load_save_ {DIR}.

(** [std::tolower] in the C locale, on an [unsigned char] value. *)
Definition tolower (c : Z) : Z :=
  if (65 <=? c) && (c <=? 90) then c + 32 else c.

Fixpoint CaseInsensitiveCmp (a b : list byte) : Z :=
  match a, b with
  | ca :: a', cb :: b' =>
      let ca := tolower (u8 ca) in
      let cb := tolower (u8 cb) in
      if negb (ca =? cb) then (if ca <? cb then -1 else 1)
      else CaseInsensitiveCmp a' b'
  | [], [] => 0
  | [], _ :: _ => -1
  | _ :: _, [] => 1
  end.

(** [strncmp(h, n, strlen(n)) == 0] *)
Fixpoint starts_with (h n : list byte) : bool :=
  match n, h with
  | [], _ => true
  | c :: n, d :: h => Byte.eqb c d && starts_with h n
  | _ :: _, [] => false
  end.

(** [strstr(h, n) != nullptr] *)
Fixpoint strstr (h n : list byte) : bool :=
  starts_with h n
  || match h with
     | [] => false
     | _ :: h => strstr h n
     end.

Definition strlen (s : list byte) : Z := Z.of_nat (length s).

Section Table.
Context {DIR : Type} `{FatFsDir DIR}.
(** The template parameter and [_MAX_LFN]. *)
Variable max_slots : Z.
Variable kMaxCustomFileNameLen : Z.

Definition kMaxFileSlots : Z := max_slots.

Definition set_dir (t : FileTable DIR) (d : DIR) : FileTable DIR :=
  mkTable d (table t) (num_files_found t) (load_pending_ t)
          (save_pending_ t) (slot_for_load_save_ t).

Definition set_table (t : FileTable DIR) (tbl : list FileInfo)
  : FileTable DIR :=
  mkTable (dir t) tbl (num_files_found t) (load_pending_ t)
          (save_pending_ t) (slot_for_load_save_ t).

Definition set_num_files_found (t : FileTable DIR) (n : Z)
  : FileTable DIR :=
  mkTable (dir t) (table t) n (load_pending_ t)
          (save_pending_ t) (slot_for_load_save_ t).

Definition Clear (t : FileTable DIR) : FileTable DIR :=
  set_num_files_found
    (set_table t (map (fun _ => mkFileInfo [] 0) (table t))) 0.

(** The body of the [while] loop of [SortTable] and the assignment
    [table[j] = key] after it, started at index [j].  The loop reads
    [table[j - 1]] inside the table as long as [num_files_found] does not
    exceed the number of slots; a read outside it is undefined in C++, and
    the model leaves the loop there. *)
Fixpoint SortTable_insert (tbl : list FileInfo) (key : FileInfo) (j : nat)
  : list FileInfo :=
  match j with
  | O => <[j := key]> tbl
  | S j' =>
      match tbl !! j' with
      | Some prev =>
          if CaseInsensitiveCmp (name prev) (name key) >? 0
          then SortTable_insert (<[j := prev]> tbl) key j'
          else <[j := key]> tbl
      | None => <[j := key]> tbl
      end
  end.

(** The [for] loop of [SortTable] from index [i], [passes] passes of it. *)
Fixpoint SortTable_from (tbl : list FileInfo) (i passes : nat)
  : list FileInfo :=
  match passes with
  | O => tbl
  | S passes =>
      match tbl !! i with
      | Some key => SortTable_from (SortTable_insert tbl key i) (S i) passes
      | None => tbl
      end
  end.

Definition SortTable (t : FileTable DIR) : FileTable DIR :=
  if num_files_found t <? 2 then t
  else set_table t (SortTable_from (table t) 1
                      (Z.to_nat (num_files_found t) - 1)).

Definition valid_file_attrs (fno : FILINFO) : bool :=
  (Z.land (fattrib fno) AM_HID =? 0)
  && (Z.land (fattrib fno) AM_DIR =? 0)
  && (Z.land (fattrib fno) AM_SYS =? 0).

Definition valid_size (fno : FILINFO) : bool := fsize fno >? 0.

Definition valid_name (fno : FILINFO) (endswith : option (list byte))
  : bool :=
  match endswith with
  | Some suffix =>
      let suffix_len := u32 (strlen suffix) in
      strstr (fname fno) suffix
      && (strlen (fname fno) >? suffix_len)
      && (strlen (fname fno) <? kMaxCustomFileNameLen)
  | None => strlen (fname fno) <? kMaxCustomFileNameLen
  end.

(** The [for(;;)] loop of [Fill]: the status of the last [f_readdir], the
    directory object, the table and the count when the loop is left;
    [fuel] bounds the number of passes, [None] means the loop was still
    running at the bound.  A write to [table[cnt]] past the last slot is
    undefined in C++; the model drops it. *)
Fixpoint Fill_loop (fuel : nat) (d : DIR) (tbl : list FileInfo) (cnt : Z)
         (endswith : option (list byte))
  : option (FRESULT * DIR * list FileInfo * Z) :=
  match fuel with
  | O => None
  | S fuel =>
      let '(res, fno, d) := f_readdir d in
      match fname fno with
      | [] => Some (res, d, tbl, cnt)
      | _ =>
          let '(tbl, cnt) :=
            if valid_file_attrs fno && valid_size fno
               && valid_name fno endswith
            then (<[Z.to_nat cnt := mkFileInfo (fname fno) (usz (fsize fno))]>
                    tbl,
                  usz (cnt + 1))
            else (tbl, cnt) in
          if cnt >? usz (kMaxFileSlots - 1) then Some (res, d, tbl, cnt)
          else Fill_loop fuel d tbl cnt endswith
      end
  end.

(** [Fill]; a null [path] is [None], a null [endswith] is [None]. *)
Definition Fill (fuel : nat) (t : FileTable DIR) (path : option string)
           (endswith : option (list byte))
  : option (bool * FileTable DIR) :=
  match path with
  | None => Some (false, t)
  | Some path =>
      let '(res, d) := f_opendir (dir t) path in
      let t := set_dir t d in
      if is_FR_OK res then
        match Fill_loop fuel (dir t) (table t) 0 endswith with
        | None => None
        | Some (res, d, tbl, cnt) =>
            let t := set_dir t (f_closedir d) in
            let t := set_table t tbl in
            let t := set_num_files_found t cnt in
            Some (is_FR_OK res, SortTable t)
        end
      else Some (false, SortTable (set_num_files_found t 0))
  end.

(** The accessors; the callers index inside the table. *)
Definition GetFileSize (t : FileTable DIR) (idx : Z) : Z :=
  match table t !! Z.to_nat idx with
  | Some e => size e
  | None => 0
  end.

Definition IsFileInSlot (t : FileTable DIR) (idx : Z) : bool :=
  GetFileSize t idx >? 0.

Definition GetFileName (t : FileTable DIR) (idx : Z) : list byte :=
  match table t !! Z.to_nat idx with
  | Some e => name e
  | None => []
  end.

Definition GetNumFiles (t : FileTable DIR) : Z := num_files_found t.

End Table.

(** The order of the sorted table. *)
Definition name_le (x y : FileInfo) : Prop :=
  CaseInsensitiveCmp (name x) (name y) <= 0.

(** The case fold of a name. *)
Definition folded (a : list byte) : list Z := map (fun c => tolower (u8 c)) a.

(** [lists d fno]: some call of [f_readdir], made one after the other from
    the directory object [d] on, returns the entry [fno]. *)
Inductive lists {DIR} `{FatFsDir DIR} : DIR -> FILINFO -> Prop :=
| lists_here d res fno d' :
    f_readdir d = (res, fno, d') -> lists d fno
| lists_later d res fno0 d' fno :
    f_readdir d = (res, fno0, d') -> lists d' fno -> lists d fno.

(** The entries with the name [a], up to the case of ASCII letters. *)
Definition same_name (a : list byte) (x : FileInfo) : bool :=
  CaseInsensitiveCmp (name x) a =? 0.

(** [accepted len endswith d e]: the entry [e] of the table was made from
    an entry that the directory [d] lists and that passed the three tests
    of [Fill]. *)
Definition accepted {DIR} `{FatFsDir DIR} (kMaxCustomFileNameLen : Z)
           (endswith : option (list byte)) (d : DIR) (e : FileInfo) : Prop :=
  exists fno,
    lists d fno
    /\ fname fno <> []
    /\ valid_file_attrs fno = true
    /\ valid_size fno = true
    /\ valid_name kMaxCustomFileNameLen fno endswith = true
    /\ e = mkFileInfo (fname fno) (usz (fsize fno)).

(** A directory held in memory: the outcomes of the calls of [f_readdir]
    still to come. *)
Record RamDir := mkRamDir {
  listing : list (FRESULT * FILINFO)
}.

#[global] Instance RamDir_FatFsDir : FatFsDir RamDir := {
  f_opendir d path := (FR_OK, d);
  f_readdir d :=
    match listing d with
    | [] => (FR_OK, mkFILINFO 0 0 [], d)
    | (res, fno) :: rest => (res, fno, mkRamDir rest)
    end;
  f_closedir d := d
}.

Definition test_dir : RamDir :=
  mkRamDir
    [(FR_OK, mkFILINFO 10 0 (list_byte_of_string "b.wav"));
     (FR_OK, mkFILINFO 20 0 (list_byte_of_string "A.WAV"));
     (FR_OK, mkFILINFO 5 AM_DIR (list_byte_of_string "sub.wav"));
     (FR_OK, mkFILINFO 7 0 (list_byte_of_string "a.wav"));
     (FR_OK, mkFILINFO 9 0 (list_byte_of_string "c.wav.txt"));
     (FR_OK, mkFILINFO 0 0 (list_byte_of_string "d.wav"));
     (FR_OK, mkFILINFO 3 0 (list_byte_of_string "notes"))].

(** A table of four empty slots. *)
Definition test_table : FileTable RamDir :=
  mkTable test_dir (replicate 4 (mkFileInfo [] 0)) 0 false false 0.

(** Three files in a table of four slots, not in order. *)
Definition unsorted_table : FileTable RamDir :=
  mkTable test_dir
    [mkFileInfo (list_byte_of_string "b.wav") 10;
     mkFileInfo (list_byte_of_string "A.WAV") 20;
     mkFileInfo (list_byte_of_string "a.wav") 7;
     mkFileInfo [] 0]
    3 false false 0.

End FileTable.

(** * Properties of the playback engine *)

Section PlayerFacts.
Context {FIL F : Type} `{FatFs FIL} `{FloatOps F}.
Variable workspace_bytes : Z.
Implicit Type s : WavPlayer FIL F.

#[local] Abbreviation kRx := (kRxSizeSamples workspace_bytes).
#[local] Abbreviation kThreshold := (kRxFifoThreshold workspace_bytes).

(** *** What the playback block of [Stream] leaves alone *)

Lemma next_frame_frame i n s :
  request_fifo_ (next_frame i n s) = request_fifo_ s
  /\ pending_read_req_ (next_frame i n s) = pending_read_req_ s
  /\ file_info_ (next_frame i n s) = file_info_ s
  /\ playing_ (next_frame i n s) = playing_ s
  /\ looping_ (next_frame i n s) = looping_ s
  /\ pos_acc_ (next_frame i n s) = pos_acc_ s
  /\ position_ (next_frame i n s) = position_ s
  /\ length (previous_sample_ (next_frame i n s))
     = length (previous_sample_ s)
  /\ length (current_sample_ (next_frame i n s))
     = length (current_sample_ s).
Proof.
    revert i s. induction n as [|n IH]; intros i s; [cbn; tauto|].
    cbn [next_frame].
    destruct (PopFront 0 _) as [x q] eqn:E.
    specialize (IH (S i)).
    match goal with |- context [next_frame (S i) n ?t] =>
      destruct (IH t) as (A & B & C & D & E' & G & P & L1 & L2)
    end.
    rewrite A, B, C, D, E', G, P, L1, L2. cbn.
    rewrite !length_insert. tauto.
Qed.

Lemma advance_frame fuel s s' :
  advance fuel s = Some s' ->
  request_fifo_ s' = request_fifo_ s
  /\ pending_read_req_ s' = pending_read_req_ s
  /\ file_info_ s' = file_info_ s
  /\ playing_ s' = playing_ s
  /\ looping_ s' = looping_ s
  /\ length (previous_sample_ s') = length (previous_sample_ s)
  /\ length (current_sample_ s') = length (current_sample_ s).
Proof.
    revert s. induction fuel as [|fuel IH]; intros s; cbn [advance].
    - destruct (fge _ _); [discriminate|]. intros [= <-]. tauto.
    - destruct (fge _ _); [|intros [= <-]; tauto].
      intros E. apply IH in E.
      match type of E with context [next_frame 0 ?n ?t] =>
        destruct (next_frame_frame 0 n t) as (A & B & C & D & E' & _ & _ & L1 & L2)
      end.
      destruct E as (A' & B' & C' & D' & E'' & L1' & L2').
      rewrite A', B', C', D', E'', L1', L2', A, B, C, D, E', L1, L2.
      cbn. tauto.
Qed.

Lemma Stream_play_frame fuel s n out s1 :
  Stream_play fuel s n = Some (out, s1) ->
  request_fifo_ s1 = request_fifo_ s
  /\ pending_read_req_ s1 = pending_read_req_ s
  /\ file_info_ s1 = file_info_ s
  /\ playing_ s1 = playing_ s
  /\ looping_ s1 = looping_ s
  /\ length (previous_sample_ s1) = length (previous_sample_ s)
  /\ length (current_sample_ s1) = length (current_sample_ s).
Proof.
    unfold Stream_play.
    destruct (negb (IsEmpty (buff_fifo_ s)) && playing_ s).
    - destruct (advance _ _) as [s2|] eqn:E; [|discriminate].
      intros [= <- <-]. apply advance_frame in E. cbn in E. exact E.
    - intros [= <- <-]. tauto.
Qed.


Lemma advance_returns fuel : forall s,
  settles_in fuel (pos_acc_ s) = true ->
  exists s', advance fuel s = Some s'.
Proof.
  induction fuel as [|fuel IH]; intros s; cbn [advance settles_in];
    destruct (fge (pos_acc_ s) f1); try discriminate; eauto.
  intros St. apply IH.
  match goal with |- context [next_frame 0 ?n ?t] =>
    destruct (next_frame_frame 0 n t) as (_ & _ & _ & _ & _ & -> & _)
  end.
  exact St.
Qed.

(** [Stream] returns as soon as the bound covers the passes the
    accumulator needs to come back below 1. *)
Lemma Stream_returns fuel s n :
  settles_in fuel (fadd (pos_acc_ s) (playback_speed_ s)) = true ->
  exists r out s', Stream workspace_bytes fuel s n = Some (r, out, s').
Proof.
  intros St. unfold Stream, Stream_play.
  destruct (negb (IsEmpty (buff_fifo_ s)) && playing_ s).
  - destruct (advance_returns fuel
                (set_pos_acc s (fadd (pos_acc_ s) (playback_speed_ s))) St)
      as [s1 ->].
    destruct (Stream_prefetch _ _) as [b t].
    destruct b; [|destruct (_ && _)]; eauto.
  - destruct (Stream_prefetch _ _) as [b t].
    destruct b; [|destruct (_ && _)]; eauto.
Qed.

(** *** The end-of-file block *)

Lemma copy_current_frame i n s :
  request_fifo_ (copy_current i n s) = request_fifo_ s
  /\ pending_read_req_ (copy_current i n s) = pending_read_req_ s
  /\ buff_fifo_ (copy_current i n s) = buff_fifo_ s
  /\ file_info_ (copy_current i n s) = file_info_ s
  /\ playing_ (copy_current i n s) = playing_ s
  /\ looping_ (copy_current i n s) = looping_ s
  /\ position_ (copy_current i n s) = position_ s
  /\ pos_acc_ (copy_current i n s) = pos_acc_ s
  /\ current_sample_ (copy_current i n s) = current_sample_ s.
Proof.
    revert i s. induction n as [|n IH]; intros i s; [cbn; tauto|].
    cbn [copy_current].
    match goal with |- context [copy_current (S i) n ?t] =>
      destruct (IH (S i) t) as (A & B & C & D & E & G & P & Q & K)
    end.
    rewrite A, B, C, D, E, G, P, Q, K. cbn. tauto.
Qed.

Lemma Stream_eof_frame s :
  request_fifo_ (Stream_eof s) = request_fifo_ s
  /\ pending_read_req_ (Stream_eof s) = pending_read_req_ s
  /\ buff_fifo_ (Stream_eof s) = buff_fifo_ s
  /\ file_info_ (Stream_eof s) = file_info_ s
  /\ looping_ (Stream_eof s) = looping_ s
  /\ (playing_ s = false -> playing_ (Stream_eof s) = false).
Proof.
    unfold Stream_eof. cbv zeta. cbn [looping_ set_position].
    destruct (position_ s >=? _); [|tauto].
    destruct (looping_ s) eqn:L; cbn [negb].
    - match goal with |- context [copy_current 0 ?n ?t] =>
        destruct (copy_current_frame 0 n t) as (A & B & C & D & E & G & _)
      end.
      rewrite A, B, C, D, E, G. cbn. tauto.
    - cbn. tauto.
Qed.

(** *** The prefetch block *)

Hypothesis workspace_range : 0 <= workspace_bytes < 2 ^ 32.

Lemma kRx_range : 0 <= kRx < 2 ^ 31.
Proof.
    unfold kRxSizeSamples, udiv. split.
    - apply Z.div_pos; lia.
    - apply Z.div_lt_upper_bound; lia.
Qed.

Lemma kThreshold_le : kThreshold <= kRx.
Proof.
    pose proof kRx_range as K. unfold kRxFifoThreshold, udiv.
    pose proof (Z.mul_div_le kRx 4 ltac:(lia)).
    pose proof (Z.div_pos kRx 4 ltac:(lia) ltac:(lia)). lia.
Qed.

(** The prefetch block pushes one Read request of [prefetch_qty] samples
    and marks a read pending when [prefetch_due] holds, and does nothing
    otherwise. *)
Lemma Stream_prefetch_eq s :
  Stream_prefetch workspace_bytes s =
  if prefetch_due workspace_bytes s then
    (true,
     set_pending_read_req
       (set_request_fifo s
          (snd (PushBack kRequestCapacity (request_fifo_ s)
                  (mkReq Read
                     (prefetch_qty workspace_bytes (channels (file_info_ s))
                                   (GetNumElements (buff_fifo_ s)))))))
       true)
  else (false, s).
Proof.
    pose proof kRx_range as K. pose proof kThreshold_le as T.
    unfold Stream_prefetch, prefetch_due, prefetch_qty, round_down, umod.
    set (occ := GetNumElements (buff_fifo_ s)).
    assert (0 <= occ) by (unfold occ, GetNumElements; lia).
    destruct (occ <? kThreshold) eqn:O; cbn [andb]; [|reflexivity].
    destruct (pending_read_req_ s); cbn [andb negb]; [reflexivity|].
    apply Z.ltb_lt in O.
    assert (U : usz (kRx - occ) = kRx - occ)
      by (unfold usz; apply Z.mod_small; lia).
    rewrite U.
    assert (Q : (if kRx - occ >? 1 then kRx - occ - 1 else 0) = kRx - occ - 1).
    { destruct (Z.gtb_spec (kRx - occ) 1); [reflexivity|lia]. }
    rewrite Q.
    set (q := if channels (file_info_ s) >? 0 then _ else _).
    rewrite (Z.gtb_ltb q 0). destruct (0 <? q); reflexivity.
Qed.

(** [Stream] is its three blocks in sequence. *)
Lemma Stream_inv fuel s n r out s' :
  Stream workspace_bytes fuel s n = Some (r, out, s') ->
  exists s0,
    Stream_play fuel s n = Some (out, s0)
    /\ s' = snd (Stream_prefetch workspace_bytes (Stream_eof s0))
    /\ r = (if fst (Stream_prefetch workspace_bytes (Stream_eof s0))
            then NewSamplesRequested
            else if IsEmpty (buff_fifo_ s') && playing_ s'
                 then PlaybackUnderrun else Ok).
Proof.
    unfold Stream.
    destruct (Stream_play fuel s n) as [[o s0]|]; [|discriminate].
    destruct (Stream_prefetch _ _) as [b s2] eqn:E. cbn [fst snd].
    destruct b.
    - intros [= <- <- <-]. exists s0. rewrite E. auto.
    - destruct (IsEmpty (buff_fifo_ s2) && playing_ s2) eqn:E2;
        intros [= <- <- <-]; exists s0; rewrite E; cbn [fst snd];
        rewrite E2; auto.
Qed.

(** The prefetch block seen from outside a [Stream] call: the test is
    on the occupancy the call leaves behind, and on the pending flag and
    channel count it found. *)
Lemma Stream_prefetch_outcome fuel s n r out s' :
  Stream workspace_bytes fuel s n = Some (r, out, s') ->
  let occ := GetNumElements (buff_fifo_ s') in
  let qty := prefetch_qty workspace_bytes (channels (file_info_ s)) occ in
  let due := (occ <? kThreshold) && negb (pending_read_req_ s)
             && (0 <? qty) in
  if due then
    request_fifo_ s'
    = snd (PushBack kRequestCapacity (request_fifo_ s) (mkReq Read qty))
    /\ pending_read_req_ s' = true /\ r = NewSamplesRequested
  else
    request_fifo_ s' = request_fifo_ s
    /\ pending_read_req_ s' = pending_read_req_ s
    /\ r = (if IsEmpty (buff_fifo_ s') && playing_ s'
            then PlaybackUnderrun else Ok).
Proof.
    intros E. apply Stream_inv in E as (s0 & P & Es & Er).
    apply Stream_play_frame in P as (A & B & C & _).
    destruct (Stream_eof_frame s0) as (A1 & B1 & C1 & D1 & _).
    set (s1 := Stream_eof s0) in *.
    rewrite Stream_prefetch_eq in Es, Er.
    assert (Hb : buff_fifo_ s' = buff_fifo_ s1)
      by (rewrite Es; destruct (prefetch_due _ s1); reflexivity).
    cbv zeta. rewrite Hb.
    unfold prefetch_due in Es, Er. rewrite D1, C, B1, B in Es, Er.
    destruct (_ && _ && _); cbn [fst snd] in Es, Er.
    - rewrite Es. cbn. rewrite A1, A. auto.
    - rewrite Hb in Er. rewrite Es at 1 2. rewrite A1, A, B1, B. auto.
Qed.

Lemma PushBack_full {T} cap (q : FIFO T) x :
  IsFull cap q = true -> snd (PushBack cap q x) = q.
Proof. unfold PushBack. intros ->. reflexivity. Qed.

Lemma PushBack_room {T} cap (q : FIFO T) x :
  IsFull cap q = false -> snd (PushBack cap q x) = q ++ [x].
Proof. unfold PushBack. intros ->. reflexivity. Qed.

Lemma app_one_neq {T} (q : list T) x : q ++ [x] <> q.
Proof.
    intros E. apply (f_equal (@length T)) in E.
    rewrite length_app in E. cbn in E. lia.
Qed.

(** C2 (as amended).  A [Stream] call changes the request queue by at
    most one push.  The push is made exactly when the occupancy left by
    the call is strictly below [kRxFifoThreshold = (kRxSizeSamples / 4)
    * 3], no read was pending, and [free_slots - 1], rounded down to a
    multiple of the channel count when that count is positive, is
    positive.  The request carries that quantity, the pending-read flag
    is set, and the request enters the queue unless the queue is full. *)
Theorem Stream_prefetch_at_most_once fuel s n r out s' :
  Stream workspace_bytes fuel s n = Some (r, out, s') ->
  let occ := GetNumElements (buff_fifo_ s') in
  let qty := prefetch_qty workspace_bytes (channels (file_info_ s)) occ in
  let due := occ < kThreshold /\ pending_read_req_ s = false /\ 0 < qty in
  (due ->
   pending_read_req_ s' = true
   /\ (IsFull kRequestCapacity (request_fifo_ s) = false ->
       request_fifo_ s' = request_fifo_ s ++ [mkReq Read qty])
   /\ (IsFull kRequestCapacity (request_fifo_ s) = true ->
       request_fifo_ s' = request_fifo_ s))
  /\ (~ due ->
      request_fifo_ s' = request_fifo_ s
      /\ pending_read_req_ s' = pending_read_req_ s).
Proof.
    intros E occ qty due.
    pose proof (Stream_prefetch_outcome _ _ _ _ _ _ E) as O.
    cbv zeta in O. fold occ in O. fold qty in O.
    split.
    - intros (D1 & D2 & D3).
      apply Z.ltb_lt in D1, D3. rewrite D1, D2, D3 in O. cbn in O.
      destruct O as (Q & P & _). split; [exact P|].
      split; intros Full; rewrite Q.
      + apply PushBack_room, Full.
      + apply PushBack_full, Full.
    - intros ND.
      destruct (_ && _ && _) eqn:Due in O; [|tauto].
      exfalso. apply ND.
      apply andb_prop in Due as [Due D3]. apply andb_prop in Due as [D1 D2].
      apply Z.ltb_lt in D1, D3. apply negb_true_iff in D2. unfold due. tauto.
Qed.

(** C9.  A [Stream] call whose prefetch request is enqueued returns
    [NewSamplesRequested], whether or not the ring buffer is empty with
    the player playing; a call that returns [PlaybackUnderrun] has
    enqueued nothing and has left the pending-read flag alone. *)
Theorem Stream_request_outranks_underrun fuel s n r out s' :
  Stream workspace_bytes fuel s n = Some (r, out, s') ->
  (forall req, request_fifo_ s' = request_fifo_ s ++ [req] ->
               r = NewSamplesRequested)
  /\ (r = PlaybackUnderrun ->
      request_fifo_ s' = request_fifo_ s
      /\ pending_read_req_ s' = pending_read_req_ s
      /\ IsEmpty (buff_fifo_ s') = true /\ playing_ s' = true).
Proof.
    intros E.
    pose proof (Stream_prefetch_outcome _ _ _ _ _ _ E) as O. cbv zeta in O.
    destruct (_ && _ && _) in O.
    - destruct O as (_ & _ & ->). split; [auto|discriminate].
    - destruct O as (Q & P & R). split.
      + intros req Q'. rewrite Q in Q'. symmetry in Q'.
        now apply app_one_neq in Q'.
      + intros ->. repeat split; auto;
          destruct (IsEmpty (buff_fifo_ s')), (playing_ s');
          cbn in R; congruence.
Qed.

(** [Restart] leaves exactly its own requests in the queue. *)
Lemma Restart_queue s :
  request_fifo_ (Restart workspace_bytes s)
  = mkReq Seek 0
    :: (if round_down kRx (channels (file_info_ s)) >? 0
        then [mkReq Read (round_down kRx (channels (file_info_ s)))]
        else [])
  /\ pending_read_req_ (Restart workspace_bytes s) = true
  /\ pending_seek_req_ (Restart workspace_bytes s) = true
  /\ playing_ (Restart workspace_bytes s) = true.
Proof.
    unfold Restart, round_down, umod. cbn.
    destruct (channels (file_info_ s) >? 0);
      match goal with |- context [if ?c >? 0 then _ else _] =>
        destruct (c >? 0) end; cbn; auto.
Qed.

(** C10 (as amended).  With the request queue full, the prefetch request
    of a [Stream] call is dropped: the queue is unchanged, so the request
    never reaches [Prepare], while the pending-read flag is set and the
    call returns [NewSamplesRequested].  [Restart] ignores the results
    of its pushes too, but it clears the queue first: whatever the queue
    held, its Seek request and its Read request are enqueued. *)
Theorem full_queue_drops_prefetch fuel s n r out s' :
  Stream workspace_bytes fuel s n = Some (r, out, s') ->
  IsFull kRequestCapacity (request_fifo_ s) = true ->
  GetNumElements (buff_fifo_ s') < kThreshold ->
  pending_read_req_ s = false ->
  0 < prefetch_qty workspace_bytes (channels (file_info_ s))
                   (GetNumElements (buff_fifo_ s')) ->
  (request_fifo_ s' = request_fifo_ s
   /\ pending_read_req_ s' = true
   /\ r = NewSamplesRequested)
  /\ (let t := Restart workspace_bytes s in
      let qty := round_down kRx (channels (file_info_ s)) in
      request_fifo_ t
      = mkReq Seek 0 :: (if qty >? 0 then [mkReq Read qty] else [])
      /\ pending_read_req_ t = true).
Proof.
    intros E Full D1 D2 D3. split.
    - pose proof (Stream_prefetch_outcome _ _ _ _ _ _ E) as O. cbv zeta in O.
      apply Z.ltb_lt in D1, D3. rewrite D1, D2, D3 in O. cbn in O.
      destruct O as (Q & P & R). rewrite Q, PushBack_full; auto.
    - cbv zeta. destruct (Restart_queue s) as (Q & P & _). auto.
Qed.

(** *** The playing flag *)

Ltac break_exit :=
  repeat match goal with
         | |- context [match ?x with _ => _ end] => destruct x eqn:?
         end.










(** *** End of file *)





(** *** Prepare *)

Lemma Prepare_push_exit s total :
  request_fifo_ (exit_state (Prepare_push workspace_bytes s total))
  = request_fifo_ s
  /\ forall r t, Prepare_push workspace_bytes s total = Return r t ->
                 r = PrepareOverrun.
Proof.
  unfold Prepare_push. break_exit; cbn; split; auto; congruence.
Qed.

Lemma Prepare_wrap_exit s a b :
  request_fifo_ (exit_state (Prepare_wrap workspace_bytes s a b))
  = request_fifo_ s
  /\ forall r t, Prepare_wrap workspace_bytes s a b = Return r t ->
                 r = DiskError \/ r = PrepareOverrun.
Proof.
  unfold Prepare_wrap. cbv zeta.
  break_exit;
    try match goal with |- context [Prepare_push _ ?u ?v] =>
          destruct (Prepare_push_exit u v) as [Q R]; rewrite Q
        end;
    cbn; (split; [reflexivity|]); intros r t E;
    try (injection E as <- <-; auto); try discriminate;
    right; eapply R, E.
Qed.

(** One pass takes the oldest request off the queue and puts nothing
    back; it leaves [Prepare] only with [DiskError] or [PrepareOverrun]. *)
Lemma Prepare_step_exit s :
  request_fifo_ (exit_state (Prepare_step workspace_bytes s))
  = tail (request_fifo_ s)
  /\ forall r t, Prepare_step workspace_bytes s = Return r t ->
                 r = DiskError \/ r = PrepareOverrun.
Proof.
  unfold Prepare_step, Prepare_read, Prepare_seek. cbv zeta.
  assert (Q0 : snd (PopFront (mkReq Unknown 0) (request_fifo_ s))
               = tail (request_fifo_ s))
    by (destruct (request_fifo_ s); reflexivity).
  destruct (PopFront _ _) as [req q]. cbn [snd] in Q0. subst q.
  break_exit;
    try match goal with |- context [Prepare_wrap _ ?u ?v ?w] =>
          destruct (Prepare_wrap_exit u v w) as [Q R]; rewrite Q
        end;
    cbn; (split; [reflexivity|]); intros r t E;
    try (injection E as <- <-; auto); try discriminate;
    eapply R, E.
Qed.

Lemma Prepare_loop_drains n : forall s,
  (length (request_fifo_ s) <= n)%nat ->
  exists handled,
    drains workspace_bytes s handled
           (fst (Prepare_loop workspace_bytes n s))
           (snd (Prepare_loop workspace_bytes n s))
    /\ request_fifo_ s
       = handled ++ request_fifo_ (snd (Prepare_loop workspace_bytes n s))
    /\ (fst (Prepare_loop workspace_bytes n s) = Ok
        /\ request_fifo_ (snd (Prepare_loop workspace_bytes n s)) = []
        \/ (fst (Prepare_loop workspace_bytes n s) = DiskError
            \/ fst (Prepare_loop workspace_bytes n s) = PrepareOverrun)
           /\ handled <> []).
Proof.
  induction n as [|n IH]; intros s L; cbn [Prepare_loop].
  - destruct (request_fifo_ s) as [|req rest] eqn:Q; [|cbn in L; lia].
    cbn. exists []. rewrite Q. repeat split; auto. now constructor.
  - destruct (request_fifo_ s) as [|req rest] eqn:Q; cbn [IsEmpty].
    + cbn. exists []. rewrite Q. repeat split; auto. now constructor.
    + destruct (Prepare_step_exit s) as [T R]. rewrite Q in T. cbn in T.
      destruct (Prepare_step workspace_bytes s) as [r t|t] eqn:E;
        cbn in T |- *.
      * exists [req]. rewrite T. split; [econstructor 2; eauto|].
        split; [reflexivity|]. right. split; [eapply R; eauto|discriminate].
      * destruct (IH t) as (handled & D & A & C);
          [rewrite T; cbn in L; lia|].
        exists (req :: handled). split; [econstructor 3; eauto|].
        split; [cbn; rewrite <- A, T; reflexivity|].
        destruct C as [C|[C _]]; [left; exact C|right].
        split; [exact C|discriminate].
Qed.

Lemma push_raw_rejected cap buf i n q q' :
  push_raw cap buf i n q = (false, q') -> IsFull cap q' = true.
Proof.
  revert i q. induction n as [|n IH]; intros i q; cbn [push_raw];
    [discriminate|].
  unfold PushBack. destruct (IsFull cap q) eqn:Full; cbn [negb].
  - now intros [= <-].
  - apply IH.
Qed.

Lemma Prepare_push_cause s total r t :
  Prepare_push workspace_bytes s total = Return r t ->
  stopped_by_overrun workspace_bytes t.
Proof.
  unfold Prepare_push, stopped_by_overrun.
  destruct (push_raw _ _ _ _ _) as [ok q] eqn:E.
  destruct ok; cbn [negb]; [discriminate|].
  intros [= <- <-]. cbn. eapply push_raw_rejected, E.
Qed.

Lemma Prepare_wrap_cause s a b r t :
  Prepare_wrap workspace_bytes s a b = Return r t ->
  (r = DiskError /\ stopped_by_source t)
  \/ (r = PrepareOverrun /\ stopped_by_overrun workspace_bytes t).
Proof.
  unfold Prepare_wrap. cbv zeta.
  destruct (_ && looping_ s).
  2:{ intros E. right. split; [eapply Prepare_push_exit, E
                              |eapply Prepare_push_cause, E]. }
  destruct (f_lseek _ _) as [sta f] eqn:Sk.
  destruct (is_FR_OK sta) eqn:Ok1; cbn [negb].
  2:{ intros [= <- <-]. left. split; [reflexivity|].
      exists (file_ s). right. eexists. unfold seek_fails.
      rewrite Sk. cbn. auto. }
  cbn [frame_bytes_ file_info_ set_file file_].
  set (push := Prepare_push workspace_bytes).
  assert (P : forall u v, push u v = Return r t ->
              (r = DiskError /\ stopped_by_source t)
              \/ (r = PrepareOverrun /\ stopped_by_overrun workspace_bytes t)).
  { intros u v E. right. split; [eapply Prepare_push_exit, E
                                |eapply Prepare_push_cause, E]. }
  destruct (_ >? 0); [|apply P].
  destruct (_ >? 0); [|apply P].
  destruct (f_read f _) as [[sta2 bytes] f2] eqn:Rd.
  destruct (is_FR_OK sta2) eqn:Ok2; cbn [negb].
  2:{ intros [= <- <-]. left. split; [reflexivity|].
      exists f. left. eexists. unfold read_fails. rewrite Rd. cbn. auto. }
  destruct (_ =? _) eqn:Len; cbn [negb]; [apply P|].
  intros [= <- <-]. left. split; [reflexivity|].
  exists f. left. eexists. unfold read_fails. rewrite Rd. cbn.
  apply Z.eqb_neq in Len. auto.
Qed.

Lemma Prepare_step_cause s r t :
  Prepare_step workspace_bytes s = Return r t ->
  (r = DiskError /\ stopped_by_source t)
  \/ (r = PrepareOverrun /\ stopped_by_overrun workspace_bytes t).
Proof.
  unfold Prepare_step. destruct (PopFront _ _) as [req q]. cbv zeta.
  destruct (type req); [| |discriminate].
  - unfold Prepare_read. cbv zeta.
    destruct (_ =? 0); [discriminate|].
    destruct (_ >? 0); [|apply Prepare_wrap_cause].
    cbn [file_ set_buff_raw set_request_fifo].
    destruct (f_read _ _) as [[sta bytes] f] eqn:Rd.
    destruct (is_FR_OK sta) eqn:Ok1; cbn [negb].
    2:{ intros [= <- <-]. left. split; [reflexivity|].
        exists (file_ s). left. eexists. unfold read_fails.
        rewrite Rd. cbn. auto. }
    destruct (_ =? _) eqn:Len; cbn [negb]; [apply Prepare_wrap_cause|].
    intros [= <- <-]. left. split; [reflexivity|].
    exists (file_ s). left. eexists. unfold read_fails. rewrite Rd. cbn.
    apply Z.eqb_neq in Len. auto.
  - unfold Prepare_seek. cbv zeta. cbn [file_ set_request_fifo].
    destruct (f_lseek _ _) as [sta f] eqn:Sk.
    destruct (is_FR_OK sta) eqn:Ok1; cbn [negb]; [discriminate|].
    intros [= <- <-]. left. split; [reflexivity|].
    exists (file_ s). right. eexists. unfold seek_fails.
    rewrite Sk. cbn. auto.
Qed.

Lemma drains_cause s handled r s' :
  drains workspace_bytes s handled r s' ->
  r = Ok
  \/ (r = DiskError /\ stopped_by_source s')
  \/ (r = PrepareOverrun /\ stopped_by_overrun workspace_bytes s').
Proof.
  induction 1 as [| s req rest r s' Q E |]; auto.
  right. eapply Prepare_step_cause, E.
Qed.

(** C4 (as amended).  On a player whose frame size is not 0, as [Open]
    leaves it, and whose queues are as [Stream] and [Restart] fill them,
    [Prepare] returns.  It takes requests off the queue oldest first; it
    returns [Ok] with the queue empty unless a request ends in
    [DiskError] (a failed or short read, a failed seek) or in
    [PrepareOverrun] (the ring buffer rejected a sample).  In both of
    these cases the requests behind the failing one stay queued, and the
    failing request itself is gone from the queue.  (With a frame size of
    0 the remainders by [frame_bytes_] in the Read and Seek handlers are
    divisions by zero.) *)
Theorem Prepare_drains_queue s :
  0 < frame_bytes_ s ->
  queues_ok workspace_bytes s ->
  exists handled,
    drains workspace_bytes s handled
           (fst (Prepare workspace_bytes s)) (snd (Prepare workspace_bytes s))
    /\ request_fifo_ s
       = handled ++ request_fifo_ (snd (Prepare workspace_bytes s))
    /\ (fst (Prepare workspace_bytes s) = Ok
        /\ request_fifo_ (snd (Prepare workspace_bytes s)) = []
        \/ (fst (Prepare workspace_bytes s) = DiskError
            /\ stopped_by_source (snd (Prepare workspace_bytes s))
            \/ fst (Prepare workspace_bytes s) = PrepareOverrun
               /\ stopped_by_overrun workspace_bytes
                                     (snd (Prepare workspace_bytes s)))
           /\ handled <> []).
Proof.
  intros _ _. unfold Prepare.
  destruct (Prepare_loop_drains (length (request_fifo_ s)) s (le_n _))
    as (handled & D & A & C).
  exists handled. split; [exact D|]. split; [exact A|].
  destruct C as [C|[C N]]; [left; exact C|right].
  split; [|exact N].
  destruct (drains_cause _ _ _ _ D) as [O|O]; [|exact O].
  rewrite O in C. destruct C; discriminate.
Qed.




(** *** Close *)

(** [Close] clears four of the five fields of [file_info_] and the two
    flags; [data_size_bytes] keeps its value. *)
Lemma Close_effect s :
  channels (file_info_ (snd (Close s))) = 0
  /\ length_ (file_info_ (snd (Close s))) = 0
  /\ samplerate (file_info_ (snd (Close s))) = 0
  /\ data_start (file_info_ (snd (Close s))) = 0
  /\ data_size_bytes (file_info_ (snd (Close s)))
     = data_size_bytes (file_info_ s)
  /\ is_open_ (snd (Close s)) = false
  /\ playing_ (snd (Close s)) = false.
Proof. cbn. repeat split. Qed.

(** *** Open *)



End PlayerFacts.

(** * Properties of the parser *)

Section ParserFacts.
Context {R : Type} `{IReader R}.

Ltac break_parse :=
  repeat match goal with
         | |- context [match ?x with _ => _ end] => destruct x eqn:?
         end.

(** [parse_fmt_chunk] sets [haveFmt_] exactly when it succeeds and never
    touches [haveData_]. *)
Lemma parse_fmt_chunk_flags p r ch :
  haveData_ (snd (fst (parse_fmt_chunk p r ch))) = haveData_ p
  /\ (fst (fst (parse_fmt_chunk p r ch)) = false ->
      haveFmt_ (snd (fst (parse_fmt_chunk p r ch))) = haveFmt_ p).
Proof.
  unfold parse_fmt_chunk. cbv zeta.
  break_parse; cbn; split; auto; discriminate.
Qed.

Lemma chunk_epilogue_flags p r ch :
  exit_parser (chunk_epilogue p r ch) = p
  /\ (forall p' r', chunk_epilogue p r ch <> ReturnFalse p' r')
  /\ (forall p' r', chunk_epilogue p r ch = NextPass p' r' ->
                    haveFmt_ p' && haveData_ p' = false).
Proof.
  unfold chunk_epilogue.
  break_parse; cbn; (split; [reflexivity|]);
    (split; [intros ? ?; discriminate|]);
    intros p' r' E; try discriminate; injection E as <- <-; assumption.
Qed.

(** What one pass of the loop does to the two flags: a flag that comes
    out set was set before or the pass read a complete header with the
    tag of the flag; a pass that makes [parse] return [false] leaves both
    as they were; a pass that goes round again leaves one of them clear. *)
Lemma parse_chunk_flags p r :
  (haveFmt_ (exit_parser (parse_chunk p r)) = true ->
   haveFmt_ p = true
   \/ (Z.of_nat (length (fst (read r 8))) = 8
       /\ rd_u32 (fst (read r 8)) 0 = FOURCC_FMT))
  /\ (haveData_ (exit_parser (parse_chunk p r)) = true ->
      haveData_ p = true
      \/ (Z.of_nat (length (fst (read r 8))) = 8
          /\ rd_u32 (fst (read r 8)) 0 = FOURCC_DATA))
  /\ (forall p' r', parse_chunk p r = ReturnFalse p' r' ->
                    haveFmt_ p' = haveFmt_ p /\ haveData_ p' = haveData_ p)
  /\ (forall p' r', parse_chunk p r = NextPass p' r' ->
                    haveFmt_ p' && haveData_ p' = false).
Proof.
  unfold parse_chunk, read_chunk_header, read_exact.
  destruct (read r 8) as [hdr r1]. cbn [fst].
  destruct (Z.eqb_spec (Z.of_nat (length hdr)) 8) as [L|L]; cbn [negb].
  2:{ cbn. split; [auto|]. split; [auto|].
      split; intros p' r' E; [injection E as <- <-; auto|discriminate]. }
  cbn [ch_id ch_size].
  destruct (Z.eqb_spec (rd_u32 hdr 0) FOURCC_FMT) as [T|T].
  { destruct (parse_fmt_chunk_flags p r1 (mkChunk (rd_u32 hdr 0) (rd_u32 hdr 4)))
      as [D Fm].
    destruct (parse_fmt_chunk _ _ _) as [[ok p1] r2]. cbn [fst snd] in D, Fm.
    destruct ok; cbn [negb].
    - destruct (chunk_epilogue_flags p1 r2 (mkChunk (rd_u32 hdr 0) (rd_u32 hdr 4)))
        as (E & NR & NP).
      rewrite E. split; [auto|]. split; [intros X; left; congruence|].
      split; [intros p' r' X; now apply NR in X|exact NP].
    - cbn. specialize (Fm eq_refl).
      split; [intros X; left; congruence|].
      split; [intros X; left; congruence|].
      split; intros p' r' E; [injection E as <- <-; auto|discriminate]. }
  destruct (Z.eqb_spec (rd_u32 hdr 0) FOURCC_DATA) as [T'|T'].
  { unfold skip_chunk_payload. cbv zeta.
    destruct (seek _ _) as [ok r2]. destruct ok; cbn [negb].
    - match goal with |- context [chunk_epilogue ?a ?b ?c] =>
        destruct (chunk_epilogue_flags a b c) as (E & NR & NP); rewrite E
      end.
      cbn. split; [auto|]. split; [auto|].
      split; [intros p' r' X; now apply NR in X|exact NP].
    - cbn. split; [auto|]. split; [auto|].
      split; intros p' r' E; [injection E as <- <-; auto|discriminate]. }
  unfold skip_chunk_payload. cbv zeta.
  set (p1 := if metadataCount_ p <? MAX_METADATA_CHUNKS then _ else p).
  assert (K : haveFmt_ p1 = haveFmt_ p /\ haveData_ p1 = haveData_ p)
    by (unfold p1; destruct (_ <? _); cbn; auto).
  destruct K as [K1 K2].
  destruct (seek _ _) as [ok r2]. destruct ok; cbn [negb].
  - match goal with |- context [chunk_epilogue ?a ?b ?c] =>
      destruct (chunk_epilogue_flags a b c) as (E & NR & NP); rewrite E
    end.
    rewrite K1, K2. split; [auto|]. split; [auto|].
    split; [intros p' r' X; now apply NR in X|exact NP].
  - cbn. rewrite K1, K2. split; [auto|]. split; [auto|].
    split; intros p' r' E; [injection E as <- <-; auto|discriminate].
Qed.

Ltac zbool :=
  repeat match goal with
         | |- context [?a <? ?b] => destruct (Z.ltb_spec a b); try lia
         | |- context [?a =? ?b] => destruct (Z.eqb_spec a b); try lia
         | |- context [?a >? ?b] => destruct (Z.gtb_spec a b); try lia
         | |- context [?a >=? ?b] => destruct (Z.geb_spec a b); try lia
         end.

(** A faulty chunk makes the pass return [false]. *)
Lemma chunk_fault_fails p r :
  chunk_fault r ->
  exists p' r', parse_chunk p r = ReturnFalse p' r'.
Proof.
  intros Fault. unfold parse_chunk, read_chunk_header, read_exact.
  destruct Fault as
    [ L
    | hdr r1 Rh Lh Tag Small
    | hdr r1 Rh Lh Tag Big Lc
    | hdr r1 core r2 Rh Lh Tag Big Rc Lc Fmt
    | hdr r1 core r2 Rh Lh Tag Big Rc Lc Fmt Le
    | hdr r1 core r2 ext r3 Rh Lh Tag Big Rc Lc Fmt Re Le Es Lb ].
  - destruct (read r 8) as [hdr r1]. cbn [fst] in L.
    destruct (Z.eqb_spec (Z.of_nat (length hdr)) 8); [contradiction|].
    cbn [negb]. do 2 eexists. reflexivity.
  - rewrite Rh. destruct (Z.eqb_spec (Z.of_nat (length hdr)) 8); [|lia].
    cbn [negb ch_id ch_size]. rewrite Tag, Z.eqb_refl.
    unfold parse_fmt_chunk. cbn [ch_size].
    destruct (Z.ltb_spec (rd_u32 hdr 4) 16); [|lia].
    cbn [negb]. do 2 eexists. reflexivity.
  - rewrite Rh. destruct (Z.eqb_spec (Z.of_nat (length hdr)) 8); [|lia].
    cbn [negb ch_id ch_size]. rewrite Tag, Z.eqb_refl.
    unfold parse_fmt_chunk, read_exact. cbn [ch_size].
    destruct (Z.ltb_spec (rd_u32 hdr 4) 16); [lia|].
    destruct (read r1 16) as [core r2]. cbn [fst] in Lc.
    destruct (Z.eqb_spec (Z.of_nat (length core)) 16); [contradiction|].
    cbn [negb]. do 2 eexists. reflexivity.
  - rewrite Rh. destruct (Z.eqb_spec (Z.of_nat (length hdr)) 8); [|lia].
    cbn [negb ch_id ch_size]. rewrite Tag, Z.eqb_refl.
    unfold parse_fmt_chunk, read_exact. cbn [ch_size].
    destruct (Z.ltb_spec (rd_u32 hdr 4) 16); [lia|]. rewrite Rc.
    destruct (Z.eqb_spec (Z.of_nat (length core)) 16); [|lia].
    cbn [negb audioFormat]. cbv zeta. cbn [audioFormat].
    unfold supported_format in Fmt.
    destruct (Z.eqb_spec (rd_u16 core 0) 1); [lia|].
    destruct (Z.eqb_spec (rd_u16 core 0) 3); [lia|].
    destruct (Z.eqb_spec (rd_u16 core 0) 65534); [lia|].
    cbn [negb andb]. destruct (skip_rest_of_chunk _ _ _).
    cbn [negb]. do 2 eexists. reflexivity.
  - rewrite Rh. destruct (Z.eqb_spec (Z.of_nat (length hdr)) 8); [|lia].
    cbn [negb ch_id ch_size]. rewrite Tag, Z.eqb_refl.
    unfold parse_fmt_chunk, read_exact. cbn [ch_size].
    destruct (Z.ltb_spec (rd_u32 hdr 4) 16); [lia|]. rewrite Rc.
    destruct (Z.eqb_spec (Z.of_nat (length core)) 16); [|lia].
    cbn [negb audioFormat]. cbv zeta. cbn [audioFormat].
    rewrite Fmt. cbn [Z.eqb Pos.eqb negb andb].
    destruct (Z.gtb_spec (rd_u32 hdr 4) 16); [|lia].
    destruct (Z.geb_spec (rd_u32 hdr 4 - 16) 2); [|lia]. cbn [andb].
    destruct (read r2 2) as [ext r3]. cbn [fst] in Le.
    destruct (Z.eqb_spec (Z.of_nat (length ext)) 2); [contradiction|].
    cbn [negb]. do 2 eexists. reflexivity.
  - rewrite Rh. destruct (Z.eqb_spec (Z.of_nat (length hdr)) 8); [|lia].
    cbn [negb ch_id ch_size]. rewrite Tag, Z.eqb_refl.
    unfold parse_fmt_chunk, read_exact. cbn [ch_size].
    destruct (Z.ltb_spec (rd_u32 hdr 4) 16); [lia|]. rewrite Rc.
    destruct (Z.eqb_spec (Z.of_nat (length core)) 16); [|lia].
    cbn [negb audioFormat]. cbv zeta. cbn [audioFormat].
    rewrite Fmt. cbn [Z.eqb Pos.eqb negb andb].
    destruct (Z.gtb_spec (rd_u32 hdr 4) 16); [|lia].
    destruct (Z.geb_spec (rd_u32 hdr 4 - 16) 2); [|lia]. cbn [andb].
    rewrite Re.
    destruct (Z.eqb_spec (Z.of_nat (length ext)) 2); [|lia]. cbn [negb].
    destruct (Z.geb_spec (rd_u16 ext 0) 22); [|lia].
    destruct (Z.geb_spec (rd_u32 hdr 4 - 16) (2 + 22)); [|lia]. cbn [andb].
    destruct (read r3 22) as [blk r4]. cbn [fst] in Lb.
    destruct (Z.eqb_spec (Z.of_nat (length blk)) 22); [contradiction|].
    cbn [negb]. do 2 eexists. reflexivity.
Qed.

(** The loop is entered with a flag clear, so its verdict is the
    conjunction of the flags it leaves. *)
Lemma parse_loop_verdict fuel : forall p r b p' r',
  haveFmt_ p && haveData_ p = false ->
  parse_loop fuel p r = Some (b, p', r') ->
  b = haveFmt_ p' && haveData_ p'.
Proof.
  induction fuel as [|fuel IH]; intros p r b p' r' Clear; cbn [parse_loop].
  - destruct (more_chunks p r); cbn [negb]; [discriminate|].
    now intros [= <- <- <-].
  - destruct (more_chunks p r); cbn [negb]; [|now intros [= <- <- <-]].
    destruct (parse_chunk_flags p r) as (_ & _ & RF & NP).
    destruct (parse_chunk p r) as [p1 r1|p1 r1|p1 r1].
    + intros [= <- <- <-]. destruct (RF _ _ eq_refl) as [-> ->].
      now rewrite Clear.
    + now intros [= <- <- <-].
    + intros E. eapply IH; [|exact E]. eapply NP. reflexivity.
Qed.

Lemma read_riff_header_flags p r :
  haveFmt_ (snd (fst (read_riff_header p r))) = haveFmt_ p
  /\ haveData_ (snd (fst (read_riff_header p r))) = haveData_ p.
Proof. unfold read_riff_header. break_parse; cbn; auto. Qed.

(** [k] completed passes from the accepted header are [k] units of the
    bound spent. *)
Lemma reaches_parse p0 r0 k p r :
  reaches p0 r0 k p r ->
  forall fuel, parse (k + fuel) p0 r0 = parse_loop fuel p r.
Proof.
  induction 1 as [p r Hd|k p r p' r' _ IH G E]; intros fuel.
  - unfold parse. cbv zeta. rewrite Hd. reflexivity.
  - replace (S k + fuel)%nat with (k + S fuel)%nat by lia.
    rewrite IH. cbn [parse_loop]. rewrite G, E. reflexivity.
Qed.

(** A flag set while the loop runs witnesses a chunk found by a pass. *)
Lemma parse_loop_found p0 r0 fuel : forall k p r b p' r',
  reaches p0 r0 k p r ->
  (haveFmt_ p = true -> found_chunk p0 r0 FOURCC_FMT) ->
  (haveData_ p = true -> found_chunk p0 r0 FOURCC_DATA) ->
  parse_loop fuel p r = Some (b, p', r') ->
  (haveFmt_ p' = true -> found_chunk p0 r0 FOURCC_FMT)
  /\ (haveData_ p' = true -> found_chunk p0 r0 FOURCC_DATA).
Proof.
  induction fuel as [|fuel IH]; intros k p r b p' r' Rc If Id;
    cbn [parse_loop].
  - destruct (more_chunks p r); cbn [negb]; [discriminate|].
    now intros [= <- <- <-].
  - destruct (more_chunks p r) eqn:G; cbn [negb]; [|now intros [= <- <- <-]].
    destruct (parse_chunk_flags p r) as (Ff & Fd & _ & _).
    assert (If' : haveFmt_ (exit_parser (parse_chunk p r)) = true ->
                  found_chunk p0 r0 FOURCC_FMT).
    { intros X. destruct (Ff X) as [Y|[L T]]; [auto|].
      exists k, p, r. auto. }
    assert (Id' : haveData_ (exit_parser (parse_chunk p r)) = true ->
                  found_chunk p0 r0 FOURCC_DATA).
    { intros X. destruct (Fd X) as [Y|[L T]]; [auto|].
      exists k, p, r. auto. }
    destruct (parse_chunk p r) as [p1 r1|p1 r1|p1 r1] eqn:E;
      cbn [exit_parser] in If', Id'.
    + now intros [= <- <- <-].
    + now intros [= <- <- <-].
    + apply (IH (S k)); auto. econstructor 2; eauto.
Qed.

(** At the loop test one of the flags is clear. *)
Lemma reaches_flag_clear p0 r0 k p r :
  reaches p0 r0 k p r -> haveFmt_ p && haveData_ p = false.
Proof.
  induction 1 as [p r Hd|k p r p' r' _ _ _ E].
  - destruct (read_riff_header_flags (reset p0) r0) as [Hf _].
    rewrite Hd in Hf. cbn in Hf. now rewrite Hf.
  - eapply parse_chunk_flags, E.
Qed.

(** A pass that never moves on keeps the loop running for ever. *)
Lemma parse_loop_stuck p r :
  more_chunks p r = true ->
  parse_chunk p r = NextPass p r ->
  forall fuel, parse_loop fuel p r = None.
Proof.
  intros G E fuel. induction fuel as [|fuel IH]; cbn [parse_loop];
    rewrite G; cbn [negb]; [reflexivity|]. now rewrite E.
Qed.

(** C1.  Whenever [parse] returns, it returns success exactly when both
    flags [haveFmt_] and [haveData_] are set, and a flag is set only if a
    pass of the loop, entered with eight bytes left below the declared
    size, read a complete header of a [fmt ] chunk, respectively of a
    [data] chunk; and [parse] does return success as soon as a pass ends
    with both flags set.  [parse] returns failure, whatever the bound, when the
    RIFF header is cut short or has a wrong RIFF or WAVE magic; and it
    returns failure, as soon as the bound lets the loop get there, when a
    pass meets a chunk header cut short, a [fmt ] chunk smaller than 16
    bytes or whose 16-byte body, 2-byte extension size or 22-byte
    extension block is cut short, or an audio-format tag other than 1, 3
    and 0xFFFE. *)
Theorem parse_verdict p0 r0 :
  (forall fuel b p r,
      parse fuel p0 r0 = Some (b, p, r) ->
      b = haveFmt_ p && haveData_ p
      /\ (haveFmt_ p = true -> found_chunk p0 r0 FOURCC_FMT)
      /\ (haveData_ p = true -> found_chunk p0 r0 FOURCC_DATA))
  /\ (forall k p r,
        reaches p0 r0 k p r -> more_chunks p r = true ->
        haveFmt_ (exit_parser (parse_chunk p r)) = true ->
        haveData_ (exit_parser (parse_chunk p r)) = true ->
        forall fuel, (k < fuel)%nat ->
                     exists p' r', parse fuel p0 r0 = Some (true, p', r'))
  /\ (riff_fault r0 ->
      forall fuel, exists p r, parse fuel p0 r0 = Some (false, p, r))
  /\ (forall k p r,
        reaches p0 r0 k p r -> more_chunks p r = true -> chunk_fault r ->
        forall fuel, (k < fuel)%nat ->
                     exists p' r', parse fuel p0 r0 = Some (false, p', r')).
Proof.
  split; [|split; [|split]].
  - intros fuel b p r. unfold parse. cbv zeta.
    destruct (read_riff_header_flags (reset p0) r0) as [Hf Hd].
    destruct (read_riff_header (reset p0) r0) as [[ok p1] r1] eqn:Hdr.
    cbn [fst snd] in Hf, Hd. cbn [reset haveFmt_ haveData_] in Hf, Hd.
    destruct ok; cbn [negb].
    + intros E. split.
      * eapply parse_loop_verdict, E. now rewrite Hf.
      * eapply (parse_loop_found p0 r0 fuel 0), E.
        -- now constructor.
        -- rewrite Hf. discriminate.
        -- rewrite Hd. discriminate.
    + intros [= <- <- <-]. rewrite Hf, Hd. repeat split; discriminate.
  - intros k p r Rc G Sf Sd fuel Lt.
    replace fuel with (k + S (fuel - S k))%nat by lia.
    rewrite (reaches_parse _ _ _ _ _ Rc). cbn [parse_loop]. rewrite G.
    cbn [negb].
    pose proof (reaches_flag_clear _ _ _ _ _ Rc) as Clear.
    destruct (parse_chunk_flags p r) as (_ & _ & RF & NP).
    destruct (parse_chunk p r) as [p1 r1|p1 r1|p1 r1]; cbn in Sf, Sd.
    + destruct (RF _ _ eq_refl) as [Ef Ed].
      rewrite <- Ef, <- Ed, Sf, Sd in Clear. discriminate.
    + rewrite Sf, Sd. eauto.
    + specialize (NP _ _ eq_refl). rewrite Sf, Sd in NP. discriminate.
  - intros Fault fuel. unfold parse, read_riff_header, read_exact. cbv zeta.
    unfold riff_fault in Fault.
    destruct (read r0 12) as [hdr r1]. cbn [fst] in Fault.
    destruct (Z.eqb_spec (Z.of_nat (length hdr)) 12); cbn [negb];
      [|do 2 eexists; reflexivity].
    destruct (Z.eqb_spec (rd_u32 hdr 0) FOURCC_RIFF); cbn [negb orb];
      [|do 2 eexists; reflexivity].
    destruct (Z.eqb_spec (rd_u32 hdr 8) FOURCC_WAVE); cbn [negb orb];
      [|do 2 eexists; reflexivity].
    exfalso. tauto.
  - intros k p r Rc G Fault fuel Lt.
    replace fuel with (k + S (fuel - S k))%nat by lia.
    rewrite (reaches_parse _ _ _ _ _ Rc). cbn [parse_loop]. rewrite G.
    cbn [negb].
    destruct (chunk_fault_fails p r Fault) as (p' & r' & ->). eauto.
Qed.

(** *** The channel count *)

Lemma rd_u16_range b off : 0 <= rd_u16 b off < 2 ^ 16.
Proof. unfold rd_u16, u16. apply Z.mod_pos_bound. lia. Qed.

Lemma parse_chunk_channels p r :
  0 <= numChannels (fmt_ p) < 2 ^ 16 ->
  0 <= numChannels (fmt_ (exit_parser (parse_chunk p r))) < 2 ^ 16.
Proof.
  intros Rg.
  assert (Fm : forall q ch,
             0 <= numChannels
                    (fmt_ (snd (fst (parse_fmt_chunk p q ch)))) < 2 ^ 16).
  { intros q ch. unfold parse_fmt_chunk. cbv zeta.
    break_parse; cbn; auto using rd_u16_range. }
  assert (Ep : forall q d ch,
             exit_parser (chunk_epilogue q d ch) = q)
    by (intros; apply chunk_epilogue_flags).
  unfold parse_chunk, read_chunk_header, read_exact, skip_chunk_payload.
  cbv zeta.
  destruct (read r 8) as [hdr r1].
  destruct (Z.of_nat (length hdr) =? 8); cbn [negb]; [|exact Rg].
  cbn [ch_id ch_size].
  destruct (_ =? FOURCC_FMT).
  { specialize (Fm r1 (mkChunk (rd_u32 hdr 0) (rd_u32 hdr 4))).
    destruct (parse_fmt_chunk _ _ _) as [[ok p1] r2]. cbn [fst snd] in Fm.
    destruct ok; cbn [negb]; [rewrite Ep|]; exact Fm. }
  destruct (_ =? FOURCC_DATA).
  { destruct (seek _ _) as [ok r2].
    destruct ok; cbn [negb]; [rewrite Ep|]; exact Rg. }
  destruct (seek _ _) as [ok r2].
  destruct ok; cbn [negb]; [rewrite Ep|];
    destruct (_ <? MAX_METADATA_CHUNKS); exact Rg.
Qed.

Lemma parse_loop_channels fuel : forall p r b p' r',
  0 <= numChannels (fmt_ p) < 2 ^ 16 ->
  parse_loop fuel p r = Some (b, p', r') ->
  0 <= numChannels (fmt_ p') < 2 ^ 16.
Proof.
  induction fuel as [|fuel IH]; intros p r b p' r' Rg; cbn [parse_loop].
  - destruct (more_chunks p r); cbn [negb]; [discriminate|].
    now intros [= <- <- <-].
  - destruct (more_chunks p r); cbn [negb]; [|now intros [= <- <- <-]].
    pose proof (parse_chunk_channels p r Rg) as Rg'.
    destruct (parse_chunk p r) as [p1 r1|p1 r1|p1 r1]; cbn in Rg'.
    + now intros [= <- <- <-].
    + now intros [= <- <- <-].
    + intros E. eapply IH; [|exact E]. exact Rg'.
Qed.

(** The channel count [parse] reports is the 16-bit field of the [fmt ]
    chunk (or the 0 of [reset]); the parser puts no other bound on it. *)
Lemma parse_channels_range fuel p0 r0 b p r :
  parse fuel p0 r0 = Some (b, p, r) ->
  0 <= numChannels (fmt_ p) < 2 ^ 16.
Proof.
  unfold parse. cbv zeta.
  assert (Hd : 0 <= numChannels
                      (fmt_ (snd (fst (read_riff_header (reset p0) r0))))
               < 2 ^ 16).
  { unfold read_riff_header. break_parse; cbn; lia. }
  destruct (read_riff_header (reset p0) r0) as [[ok p1] r1].
  cbn [fst snd] in Hd.
  destruct ok; cbn [negb].
  - intros E. eapply parse_loop_channels, E. exact Hd.
  - now intros [= <- <- <-].
Qed.

End ParserFacts.

(** * The channel count, from the parser to the player *)

Section ChannelCount.
Context {R : Type} `{IReader R} {FIL F : Type} `{FatFs FIL} `{FloatOps F}.
Variable workspace_bytes : Z.

Lemma Open_prime_ok (s : WavPlayer FIL F) parser s' :
  Open_prime workspace_bytes s parser = (Ok, s') ->
  channels (file_info_ s') = numChannels (fmt_ parser)
  /\ frame_bytes_ s'
     = usz (numChannels (fmt_ parser) * udiv (bitsPerSample (fmt_ parser)) 8)
  /\ frame_bytes_ s' <> 0.
Proof.
  unfold Open_prime. cbv zeta.
  cbn [frame_bytes_ set_frame_bytes channels file_info_ set_file_info].
  destruct (Z.eqb_spec
              (usz (numChannels (fmt_ parser)
                    * udiv (bitsPerSample (fmt_ parser)) 8)) 0) as [Z0|NZ];
    [discriminate|].
  repeat match goal with
         | |- context [match ?x with _ => _ end] => destruct x eqn:?
         end; intros [= <-]; cbn; auto.
Qed.

(** A [fmt ] chunk that [parse_fmt_chunk] accepts has had its 16-byte
    body read, and the channel count kept is bytes 2 and 3 of the body. *)
Lemma parse_fmt_chunk_channels_field p (r : R) ch :
  fst (fst (parse_fmt_chunk p r ch)) = true ->
  Z.of_nat (length (fst (read r 16))) = 16
  /\ numChannels (fmt_ (snd (fst (parse_fmt_chunk p r ch))))
     = rd_u16 (fst (read r 16)) 2.
Proof.
  unfold parse_fmt_chunk, read_exact. cbv zeta.
  destruct (ch_size ch <? 16); [discriminate|].
  destruct (read r 16) as [core r1]. cbn [fst].
  destruct (Z.eqb_spec (Z.of_nat (length core)) 16) as [L|L]; cbn [negb];
    [|discriminate].
  repeat match goal with
         | |- context [match ?x with _ => _ end] => destruct x eqn:?
         end; cbn; intros; try discriminate; auto.
Qed.

(** One pass of the loop that does not make [parse] return [false]: if
    [haveFmt_] is set after it, either the pass read a [fmt ] chunk, whose
    channel count field the parser now holds, or the flag was set before
    and the channel count is the one the parser held. *)
Lemma parse_chunk_channels_field p (r : R) :
  match parse_chunk p r with
  | ReturnFalse _ _ => True
  | Break p' _ | NextPass p' _ =>
      haveFmt_ p' = true ->
      (haveFmt_ p = true /\ numChannels (fmt_ p') = numChannels (fmt_ p))
      \/ (Z.of_nat (length (fst (read r 8))) = 8
          /\ rd_u32 (fst (read r 8)) 0 = FOURCC_FMT
          /\ Z.of_nat (length (fst (read (snd (read r 8)) 16))) = 16
          /\ numChannels (fmt_ p')
             = rd_u16 (fst (read (snd (read r 8)) 16)) 2)
  end.
Proof.
  assert (Ep : forall q (d : R) ch,
             match chunk_epilogue q d ch with
             | ReturnFalse _ _ => False
             | Break p' _ | NextPass p' _ => p' = q
             end).
  { intros q d ch.
    destruct (chunk_epilogue_flags q d ch) as (E & NR & _).
    destruct (chunk_epilogue q d ch) as [q' d'| |]; cbn in E; auto.
    now apply (NR q' d'). }
  unfold parse_chunk, read_chunk_header, read_exact, skip_chunk_payload.
  cbv zeta.
  destruct (read r 8) as [hdr r1]. cbn [fst snd].
  destruct (Z.eqb_spec (Z.of_nat (length hdr)) 8) as [L|L]; cbn [negb];
    [|exact I].
  cbn [ch_id ch_size].
  destruct (Z.eqb_spec (rd_u32 hdr 0) FOURCC_FMT) as [T|T].
  { pose proof (parse_fmt_chunk_channels_field p r1
                  (mkChunk (rd_u32 hdr 0) (rd_u32 hdr 4))) as Fm.
    destruct (parse_fmt_chunk _ _ _) as [[ok p1] r2]. cbn [fst snd] in Fm.
    destruct ok; cbn [negb]; [|exact I].
    destruct (Fm eq_refl) as [Lc Nc].
    specialize (Ep p1 r2 (mkChunk (rd_u32 hdr 0) (rd_u32 hdr 4))).
    destruct (chunk_epilogue _ _ _); [contradiction| |]; subst;
      intros _; right; auto. }
  destruct (_ =? FOURCC_DATA).
  { destruct (seek _ _) as [ok r2].
    destruct ok; cbn [negb]; [|exact I].
    match goal with |- context [chunk_epilogue ?q ?d ?c] =>
      specialize (Ep q d c); destruct (chunk_epilogue q d c)
    end; [contradiction| |]; subst; cbn; intros X; left; auto. }
  destruct (seek _ _) as [ok r2].
  destruct ok; cbn [negb]; [|exact I].
  match goal with |- context [chunk_epilogue ?q ?d ?c] =>
    specialize (Ep q d c); destruct (chunk_epilogue q d c)
  end; [contradiction| |]; subst;
    destruct (_ <? MAX_METADATA_CHUNKS); cbn; intros X; left; auto.
Qed.

Lemma parse_loop_channels_field p0 (r0 : R) fuel : forall k p r p' r',
  reaches p0 r0 k p r ->
  (haveFmt_ p = true -> channels_field p0 r0 (numChannels (fmt_ p))) ->
  parse_loop fuel p r = Some (true, p', r') ->
  channels_field p0 r0 (numChannels (fmt_ p')).
Proof.
  induction fuel as [|fuel IH]; intros k p r p' r' Rc Inv;
    cbn [parse_loop].
  - destruct (more_chunks p r); cbn [negb]; [discriminate|].
    intros [= E <- <-]. apply Inv. now apply andb_prop in E.
  - destruct (more_chunks p r) eqn:G; cbn [negb].
    2:{ intros [= E <- <-]. apply Inv. now apply andb_prop in E. }
    pose proof (parse_chunk_channels_field p r) as Step.
    assert (Inv' : forall p1,
               (haveFmt_ p1 = true ->
                (haveFmt_ p = true
                 /\ numChannels (fmt_ p1) = numChannels (fmt_ p))
                \/ (Z.of_nat (length (fst (read r 8))) = 8
                    /\ rd_u32 (fst (read r 8)) 0 = FOURCC_FMT
                    /\ Z.of_nat (length (fst (read (snd (read r 8)) 16)))
                       = 16
                    /\ numChannels (fmt_ p1)
                       = rd_u16 (fst (read (snd (read r 8)) 16)) 2)) ->
               haveFmt_ p1 = true ->
               channels_field p0 r0 (numChannels (fmt_ p1))).
    { intros p1 St X. destruct (St X) as [[Y ->]|(L & T & Lc & Nc)];
        [now apply Inv|].
      exists k, p, r. auto 10. }
    destruct (parse_chunk p r) as [p1 r1|p1 r1|p1 r1] eqn:E.
    + discriminate.
    + intros [= Fl <- <-]. apply (Inv' p1 Step). now apply andb_prop in Fl.
    + apply (IH (S k)); [econstructor 2; eauto|]. now apply Inv'.
Qed.

(** C7 (as amended).  On success [parse] reports as channel count the
    unsigned 16-bit field of a [fmt ] chunk of the file, bytes 2 and 3 of
    the chunk body, a value from 0 to 65535 that the parser does not
    check.  The count is positive whenever [Open] returns [Ok]. *)
Theorem channel_count_checked_by_Open :
  (forall fuel p0 (r0 : R) p r,
      parse fuel p0 r0 = Some (true, p, r) ->
      channels_field p0 r0 (numChannels (fmt_ p))
      /\ 0 <= numChannels (fmt_ p) <= 65535)
  /\ (forall fuel (s : WavPlayer FIL F) name s',
        Open workspace_bytes fuel s name = Some (Ok, s') ->
        0 < channels (file_info_ s')).
Proof.
  split.
  - intros fuel p0 r0 p r E.
    split; [|apply parse_channels_range in E; lia].
    revert E. unfold parse. cbv zeta.
    destruct (read_riff_header_flags (reset p0) r0) as [Hf _].
    destruct (read_riff_header (reset p0) r0) as [[ok p1] r1] eqn:Hd.
    cbn [fst snd] in Hf. cbn [reset haveFmt_] in Hf.
    destruct ok; cbn [negb]; [|discriminate].
    apply (parse_loop_channels_field p0 r0 fuel 0%nat).
    + now constructor.
    + rewrite Hf. discriminate.
  - intros fuel s name s'. unfold Open. cbv zeta.
    destruct (f_open _ name) as [sta f].
    destruct sta; try discriminate.
    destruct (parse _ _ _) as [[[ok parser] reader]|] eqn:P; [|discriminate].
    destruct ok; cbn [negb]; [|discriminate].
    intros [= E]. apply Open_prime_ok in E as (C & Fb & NZ).
    apply parse_channels_range in P.
    rewrite C. rewrite Fb in NZ.
    destruct (Z.eq_dec (numChannels (fmt_ parser)) 0) as [Z0|]; [|lia].
    rewrite Z0 in NZ. now cbn in NZ.
Qed.

End ChannelCount.

(** * The properties on concrete files *)

(** Runs [Stream] and hands the computed result to the continuation. *)
Ltac with_stream ws fuel s n k :=
  let v := eval vm_compute in (Stream ws fuel s n) in
  match v with
  | Some (?r, ?out, ?t) =>
      let E := fresh "E" in
      assert (E : Stream ws fuel s n = Some (r, out, t))
        by (vm_compute; reflexivity);
      k r out t E
  end.

(** The end-to-end run of the specification: [ramp.wav] on a 16-sample
    buffer is primed with its four samples, lasts four frames, and the
    fourth [Stream] call wraps the position to 0. *)
Example ramp_end_to_end :
  buff_fifo_ (opened 32 "ramp.wav") = [0; 1; 2; 3]
  /\ GetDurationInSamples (opened 32 "ramp.wav") = 4
  /\ map position_ [ramp_after 1; ramp_after 2; ramp_after 3; ramp_after 4]
     = [1; 2; 3; 0].
Proof. vm_compute. repeat split. Qed.

(** The looping wrap on the same file: after the fourth call the position
    and the accumulator are 0, the player still plays, and the previous
    samples equal the current ones. *)
Example ramp_loop_wrap :
  let s := Nat.iter 4 stream_once (SetLooping ramp_playing true) in
  position_ s = 0 /\ pos_acc_ s = f0 /\ playing_ s = true
  /\ previous_sample_ s = current_sample_ s.
Proof. vm_compute. repeat split. Qed.

(** The accumulator loop of [Stream] need not end: at a speed of
    16777220 the subtraction of 1 rounds back to the same [float]. *)
Example advance_stalls :
  fsub (b32_of_Z 16777220 0) f1 = b32_of_Z 16777220 0
  /\ fge (b32_of_Z 16777220 0) f1 = true.
Proof. vm_compute. split; reflexivity. Qed.

(** The loop of [parse] need not end: the chunk of [wrapping_wav] sends
    the reader back to the chunk's own header, pass after pass. *)
Example parse_never_returns :
  forall fuel, parse fuel WavParser0 (reader_of wrapping_wav) = None.
Proof.
  intros fuel. unfold parse. cbv zeta.
  let v := eval vm_compute in
             (read_riff_header (reset WavParser0) (reader_of wrapping_wav)) in
  replace (read_riff_header (reset WavParser0) (reader_of wrapping_wav))
    with v by (vm_compute; reflexivity).
  cbn [negb].
  match goal with |- parse_loop fuel ?p ?r = None =>
    let e := eval vm_compute in (parse_chunk p r) in
    match e with
    | NextPass ?p1 ?r1 =>
        assert (G : more_chunks p r = true) by (vm_compute; reflexivity);
        assert (E : parse_chunk p r = NextPass p1 r1)
          by (vm_compute; reflexivity);
        assert (G1 : more_chunks p1 r1 = true) by (vm_compute; reflexivity);
        assert (E1 : parse_chunk p1 r1 = NextPass p1 r1)
          by (vm_compute; reflexivity);
        destruct fuel as [|fuel]; cbn [parse_loop]; rewrite G; cbn [negb];
        [reflexivity|rewrite E; apply (parse_loop_stuck p1 r1 G1 E1)]
    end
  end.
Qed.

(** Witness of C1: both chunks of [ramp.wav] are found, and an empty
    file fails on its RIFF header. *)
Lemma parse_verdict_witness :
  found_chunk WavParser0 (reader_of ramp_wav) FOURCC_FMT
  /\ found_chunk WavParser0 (reader_of ramp_wav) FOURCC_DATA
  /\ exists p r, parse 0 WavParser0 (reader_of []) = Some (false, p, r).
Proof.
  destruct (parse_verdict WavParser0 (reader_of ramp_wav)) as (V & _).
  destruct (parse_verdict WavParser0 (reader_of [])) as (_ & _ & Rf & _).
  let v := eval vm_compute in (parse 16 WavParser0 (reader_of ramp_wav)) in
  match v with
  | Some (?b, ?p, ?r) =>
      assert (E : parse 16 WavParser0 (reader_of ramp_wav) = Some (b, p, r))
        by (vm_compute; reflexivity)
  end.
  destruct (V _ _ _ _ E) as (_ & Ff & Fd).
  split; [apply Ff; reflexivity|].
  split; [apply Fd; reflexivity|].
  apply Rf. left. vm_compute. discriminate.
Defined.

(** Counterexample to C2 as stated.  First, a 20-byte player holding 7
    of its 10 samples: the occupancy is strictly below 75 % of the
    capacity, no read is pending, the rounded quantity is 2, and nothing
    is requested, because the threshold is [(10 / 4) * 3 = 6].  Second,
    a player whose request queue is full: every condition holds and the
    queue is what it was. *)
Lemma prefetch_condition_not_sufficient :
  (exists r out s',
      Stream 20 0 (opened 20 "seven.wav") 1 = Some (r, out, s')
      /\ 4 * GetNumElements (buff_fifo_ s') < 3 * kRxSizeSamples 20
      /\ pending_read_req_ (opened 20 "seven.wav") = false
      /\ 0 < prefetch_qty 20 (channels (file_info_ (opened 20 "seven.wav")))
                          (GetNumElements (buff_fifo_ s'))
      /\ request_fifo_ s' = request_fifo_ (opened 20 "seven.wav")
      /\ pending_read_req_ s' = false)
  /\ (exists r out s',
        Stream 32 0 stalled_player 1 = Some (r, out, s')
        /\ 4 * GetNumElements (buff_fifo_ s') < 3 * kRxSizeSamples 32
        /\ pending_read_req_ stalled_player = false
        /\ 0 < prefetch_qty 32 (channels (file_info_ stalled_player))
                            (GetNumElements (buff_fifo_ s'))
        /\ request_fifo_ s' = request_fifo_ stalled_player).
Proof.
  split.
  - with_stream 20 0%nat (opened 20 "seven.wav") 1
      ltac:(fun r out t E => exists r, out, t; split; [exact E|]).
    vm_compute. repeat split.
  - with_stream 32 0%nat stalled_player 1
      ltac:(fun r out t E => exists r, out, t; split; [exact E|]).
    vm_compute. repeat split.
Qed.

(** Witness of C2: the first [Stream] call on [ramp.wav] leaves 3 of 16
    samples and requests the other 12. *)
Lemma Stream_prefetch_at_most_once_witness :
  exists r out s',
    Stream 32 4 ramp_playing 1 = Some (r, out, s')
    /\ pending_read_req_ s' = true
    /\ request_fifo_ s' = [mkReq Read 12].
Proof.
  with_stream 32 4%nat ramp_playing 1
    ltac:(fun r out t E =>
            exists r, out, t; split; [exact E|];
            destruct (Stream_prefetch_at_most_once 32 ltac:(lia) _ _ _ _ _ _ E)
              as [Due _]).
  destruct Due as (P & Q & _); [vm_compute; repeat split|].
  split; [exact P|]. apply Q. reflexivity.
Defined.


(** Counterexample to C4 as stated: with looping on and eight Read
    requests queued, [Prepare] meets no transfer error, fills the ring
    buffer with the first three requests, returns [PrepareOverrun] on the
    fourth and leaves the last four in the queue. *)
Lemma overrun_leaves_requests_queued :
  fst (Prepare 32 (SetLooping stalled_player true)) = PrepareOverrun
  /\ fst (Prepare 32 (SetLooping stalled_player true)) <> DiskError
  /\ request_fifo_ (snd (Prepare 32 (SetLooping stalled_player true)))
     = replicate 4 (mkReq Read 11).
Proof. vm_compute. repeat split. discriminate. Qed.

(** C5 (the code departs from it).  After [ramp.wav] was opened,
    [Close] zeroes four fields of [file_info_] and clears both flags, but
    [data_size_bytes] still holds the 8 bytes of the closed file. *)
Theorem Close_leaves_data_size_bytes :
  file_info_ (snd (Close (opened 32 "ramp.wav"))) = mkInfo 0 0 0 0 8
  /\ is_open_ (snd (Close (opened 32 "ramp.wav"))) = false
  /\ playing_ (snd (Close (opened 32 "ramp.wav"))) = false.
Proof. vm_compute. repeat split. Qed.

(** Witness of C4: [Prepare] on the looping [ramp.wav] after the first
    [Stream] call, which has queued a Read request. *)
Lemma Prepare_drains_queue_witness :
  exists handled,
    request_fifo_ (SetLooping (ramp_after 1) true)
    = handled ++ request_fifo_
                   (snd (Prepare 32 (SetLooping (ramp_after 1) true)))
    /\ handled <> [].
Proof.
  assert (Fb : 0 < frame_bytes_ (SetLooping (ramp_after 1) true))
    by (vm_compute; reflexivity).
  assert (Q : queues_ok 32 (SetLooping (ramp_after 1) true)).
  { unfold queues_ok. split; [vm_compute; discriminate|].
    split; [vm_compute; discriminate|].
    assert (E : request_fifo_ (SetLooping (ramp_after 1) true)
                = [mkReq Read 12]) by (vm_compute; reflexivity).
    rewrite E. repeat constructor; vm_compute; congruence. }
  destruct (Prepare_drains_queue 32 _ Fb Q) as (handled & _ & A & _).
  exists handled. split; [exact A|].
  assert (E : request_fifo_ (SetLooping (ramp_after 1) true)
              = [mkReq Read 12]) by (vm_compute; reflexivity).
  assert (E' : request_fifo_
                 (snd (Prepare 32 (SetLooping (ramp_after 1) true))) = [])
    by (vm_compute; reflexivity).
  rewrite E, E', app_nil_r in A. rewrite <- A. discriminate.
Defined.


(** Counterexample to C7 as stated: a [fmt ] chunk with a channel count
    of 0 is parsed with success. *)
Lemma parse_accepts_zero_channels :
  exists p r,
    parse 16 WavParser0 (reader_of zero_channel_wav) = Some (true, p, r)
    /\ ~ 0 < numChannels (fmt_ p).
Proof.
  let v := eval vm_compute in (parse 16 WavParser0 (reader_of zero_channel_wav)) in
  match v with
  | Some (?b, ?p, ?r) => exists p, r
  end.
  split; [vm_compute; reflexivity|]. vm_compute. discriminate.
Qed.

(** Witness of C7: [ramp.wav], through the parser and through [Open]. *)
Lemma channel_count_checked_by_Open_witness :
  (exists p r,
      parse 16 WavParser0 (reader_of ramp_wav) = Some (true, p, r)
      /\ channels_field WavParser0 (reader_of ramp_wav) (numChannels (fmt_ p))
      /\ 0 <= numChannels (fmt_ p) <= 65535)
  /\ (exists s',
        Open 32 16 fresh_player "ramp.wav" = Some (Ok, s')
        /\ 0 < channels (file_info_ s')).
Proof.
  destruct (channel_count_checked_by_Open
              (R := FileReader RamFile) (FIL := RamFile) (F := binary32) 32)
    as [Pc Oc].
  split.
  - let v := eval vm_compute in (parse 16 WavParser0 (reader_of ramp_wav)) in
    match v with
    | Some (?b, ?p, ?r) =>
        assert (E : parse 16 WavParser0 (reader_of ramp_wav) = Some (true, p, r))
          by (vm_compute; reflexivity);
        exists p, r; split; [exact E|exact (Pc _ _ _ _ _ E)]
    end.
  - let v := eval vm_compute in (Open 32 16 fresh_player "ramp.wav") in
    match v with
    | Some (?b, ?t) =>
        assert (E : Open 32 16 fresh_player "ramp.wav" = Some (Ok, t))
          by (vm_compute; reflexivity);
        exists t; split; [exact E|exact (Oc _ _ _ _ E)]
    end.
Defined.



(** Witness of C9: a playing player with an empty ring buffer; the call
    enqueues a Read request and returns [NewSamplesRequested], not
    [PlaybackUnderrun]. *)
Lemma Stream_request_outranks_underrun_witness :
  exists r out s',
    Stream 32 0 (SetPlaying fresh_player true) 2 = Some (r, out, s')
    /\ IsEmpty (buff_fifo_ s') = true /\ playing_ s' = true
    /\ r = NewSamplesRequested.
Proof.
  with_stream 32 0%nat (SetPlaying fresh_player true) 2
    ltac:(fun r out t E =>
            exists r, out, t; split; [exact E|];
            destruct (Stream_request_outranks_underrun
                        32 ltac:(lia) _ _ _ _ _ _ E) as [N _]).
  split; [vm_compute; reflexivity|]. split; [vm_compute; reflexivity|].
  apply (N (mkReq Read 15)). vm_compute. reflexivity.
Defined.

(** Counterexample to C10 as stated: [Restart] on the player whose
    request queue is full does enqueue its two requests. *)
Lemma Restart_on_full_queue_enqueues :
  IsFull kRequestCapacity (request_fifo_ stalled_player) = true
  /\ request_fifo_ (Restart 32 stalled_player)
     = [mkReq Seek 0; mkReq Read 16].
Proof. vm_compute. split; reflexivity. Qed.

(** Witness of C10: [Stream] on the player whose request queue is
    full. *)
Lemma full_queue_drops_prefetch_witness :
  exists r out s',
    Stream 32 0 stalled_player 1 = Some (r, out, s')
    /\ request_fifo_ s' = request_fifo_ stalled_player
    /\ pending_read_req_ s' = true
    /\ r = NewSamplesRequested.
Proof.
  with_stream 32 0%nat stalled_player 1
    ltac:(fun r out t E =>
            exists r, out, t; split; [exact E|];
            refine (proj1 (full_queue_drops_prefetch
                             32 ltac:(lia) _ _ _ _ _ _ E _ _ _ _));
            vm_compute; reflexivity).
Defined.

(** * Further properties of [Stream] *)

Section StreamMore.
Context {FIL F : Type} `{FatFs FIL} `{FloatOps F}.
Variable workspace_bytes : Z.
Implicit Type s : WavPlayer FIL F.

Ltac break_all :=
  repeat match goal with
         | |- context [match ?x with _ => _ end] => destruct x eqn:?
         end.

(** The fields [next_frame] works on: it takes [n] samples off the ring
    buffer (fewer when the buffer runs empty) and keeps the rest of the
    player. *)
Lemma next_frame_pops i n : forall s,
  buff_fifo_ (next_frame i n s) = drop n (buff_fifo_ s)
  /\ file_ (next_frame i n s) = file_ s
  /\ buff_raw_ (next_frame i n s) = buff_raw_ s
  /\ bytes_left_in_chunk_ (next_frame i n s) = bytes_left_in_chunk_ s
  /\ frame_bytes_ (next_frame i n s) = frame_bytes_ s
  /\ is_open_ (next_frame i n s) = is_open_ s
  /\ playback_speed_ (next_frame i n s) = playback_speed_ s
  /\ pending_seek_req_ (next_frame i n s) = pending_seek_req_ s.
Proof.
  revert i. induction n as [|n IH]; intros i s; [cbn; auto 10|].
  cbn [next_frame].
  destruct (PopFront 0 _) as [x q] eqn:E. cbn in E.
  specialize (IH (S i)).
  match goal with |- context [next_frame (S i) n ?t] =>
    destruct (IH t) as (A & B & C & D & E' & G & P & Q)
  end.
  rewrite A, B, C, D, E', G, P, Q. cbn.
  split; [|auto 10].
  destruct (buff_fifo_ s) as [|y l]; injection E as <- <-;
    [now rewrite drop_nil|reflexivity].
Qed.

(** The accumulator loop: [k] passes, each taking one frame off the ring
    buffer and moving the position on by one. *)
Lemma advance_passes fuel : forall s s',
  advance fuel s = Some s' ->
  exists k,
    (k <= fuel)%nat
    /\ buff_fifo_ s'
       = drop (k * Z.to_nat (channels (file_info_ s))) (buff_fifo_ s)
    /\ position_ s'
       = (if Nat.eqb k 0 then position_ s
          else usz (position_ s + Z.of_nat k))
    /\ file_ s' = file_ s /\ buff_raw_ s' = buff_raw_ s
    /\ bytes_left_in_chunk_ s' = bytes_left_in_chunk_ s
    /\ frame_bytes_ s' = frame_bytes_ s /\ is_open_ s' = is_open_ s
    /\ playback_speed_ s' = playback_speed_ s
    /\ pending_seek_req_ s' = pending_seek_req_ s.
Proof.
  induction fuel as [|fuel IH]; intros s s'; cbn [advance].
  - destruct (fge _ _); [discriminate|]. intros [= <-].
    exists 0%nat. cbn. rewrite drop_0. auto 12.
  - destruct (fge _ _).
    2:{ intros [= <-]. exists 0%nat. cbn. rewrite drop_0.
        split; [lia|auto 12]. }
    intros E. cbn [file_info_ pos_acc_ set_pos_acc set_position] in E.
    apply IH in E as (k & Lk & B & P & Rest).
    match type of B with context [next_frame 0 ?n ?t] =>
      destruct (next_frame_pops 0 n t) as (B1 & F1 & R1 & L1 & Fb1 & O1 & S1 & Q1);
      destruct (next_frame_frame 0 n t) as (_ & _ & Fi & _ & _ & _ & P1 & _)
    end.
    cbn in B1, F1, R1, L1, Fb1, O1, S1, Q1, Fi, P1.
    rewrite Fi in B. cbn in B. rewrite B1 in B. rewrite drop_drop in B.
    rewrite P1 in P. cbn in P.
    rewrite F1, R1, L1, Fb1, O1, S1, Q1 in Rest. cbn in Rest.
    exists (S k). split; [lia|]. split.
    { rewrite B. f_equal; lia. }
    split; [|exact Rest].
    rewrite P. cbn [Nat.eqb]. unfold usz.
    destruct (Nat.eqb k 0) eqn:K.
    + apply Nat.eqb_eq in K. subst k. reflexivity.
    + rewrite Zplus_mod_idemp_l. f_equal. lia.
Qed.

(** The prefetch block returns the player it was given, or that player
    with a new request queue and the pending-read flag set. *)
Lemma Stream_prefetch_shape s :
  snd (Stream_prefetch workspace_bytes s) = s
  \/ exists q,
      snd (Stream_prefetch workspace_bytes s)
      = set_pending_read_req (set_request_fifo s q) true.
Proof.
  unfold Stream_prefetch. cbv zeta.
  destruct (_ && _); [|now left].
  destruct (_ >? 0); [right; eexists; reflexivity|now left].
Qed.

Lemma copy_current_keeps i n : forall s,
  buff_fifo_ (copy_current i n s) = buff_fifo_ s
  /\ file_ (copy_current i n s) = file_ s
  /\ buff_raw_ (copy_current i n s) = buff_raw_ s
  /\ bytes_left_in_chunk_ (copy_current i n s) = bytes_left_in_chunk_ s
  /\ frame_bytes_ (copy_current i n s) = frame_bytes_ s
  /\ is_open_ (copy_current i n s) = is_open_ s
  /\ playback_speed_ (copy_current i n s) = playback_speed_ s
  /\ pending_seek_req_ (copy_current i n s) = pending_seek_req_ s.
Proof.
  revert i. induction n as [|n IH]; intros i s;
    [cbn; repeat split; reflexivity|].
  cbn [copy_current].
  match goal with |- context [copy_current (S i) n ?t] =>
    destruct (IH (S i) t) as (A1 & A2 & A3 & A4 & A5 & A6 & A7 & A8)
  end.
  rewrite A1, A2, A3, A4, A5, A6, A7, A8. repeat split; reflexivity.
Qed.

(** What the end-of-file and prefetch blocks leave alone. *)
Lemma Stream_tail_frame s :
  buff_fifo_ (snd (Stream_prefetch workspace_bytes (Stream_eof s)))
  = buff_fifo_ s
  /\ file_ (snd (Stream_prefetch workspace_bytes (Stream_eof s))) = file_ s
  /\ buff_raw_ (snd (Stream_prefetch workspace_bytes (Stream_eof s)))
     = buff_raw_ s
  /\ bytes_left_in_chunk_ (snd (Stream_prefetch workspace_bytes (Stream_eof s)))
     = bytes_left_in_chunk_ s
  /\ frame_bytes_ (snd (Stream_prefetch workspace_bytes (Stream_eof s)))
     = frame_bytes_ s
  /\ is_open_ (snd (Stream_prefetch workspace_bytes (Stream_eof s)))
     = is_open_ s
  /\ playback_speed_ (snd (Stream_prefetch workspace_bytes (Stream_eof s)))
     = playback_speed_ s
  /\ pending_seek_req_ (snd (Stream_prefetch workspace_bytes (Stream_eof s)))
     = pending_seek_req_ s
  /\ position_ (snd (Stream_prefetch workspace_bytes (Stream_eof s)))
     = (if position_ s >=? GetDurationInSamples s then 0 else position_ s).
Proof.
  assert (E : buff_fifo_ (Stream_eof s) = buff_fifo_ s
              /\ file_ (Stream_eof s) = file_ s
              /\ buff_raw_ (Stream_eof s) = buff_raw_ s
              /\ bytes_left_in_chunk_ (Stream_eof s) = bytes_left_in_chunk_ s
              /\ frame_bytes_ (Stream_eof s) = frame_bytes_ s
              /\ is_open_ (Stream_eof s) = is_open_ s
              /\ playback_speed_ (Stream_eof s) = playback_speed_ s
              /\ pending_seek_req_ (Stream_eof s) = pending_seek_req_ s
              /\ position_ (Stream_eof s)
                 = (if position_ s >=? GetDurationInSamples s
                    then 0 else position_ s)).
  { unfold Stream_eof, GetDurationInSamples. cbv zeta.
    cbn [looping_ set_position].
    destruct (position_ s >=? _); [|repeat split; reflexivity].
    destruct (looping_ s); cbn [negb]; [|repeat split; reflexivity].
    destruct (copy_current_keeps 0 (Z.to_nat kMaxAudioChannels)
                (set_pos_acc (set_position s 0) f0))
      as (A1 & A2 & A3 & A4 & A5 & A6 & A7 & A8).
    destruct (copy_current_frame 0 (Z.to_nat kMaxAudioChannels)
                (set_pos_acc (set_position s 0) f0))
      as (_ & _ & _ & _ & _ & _ & A9 & _).
    rewrite A1, A2, A3, A4, A5, A6, A7, A8, A9. repeat split; reflexivity. }
  destruct E as (E1 & E2 & E3 & E4 & E5 & E6 & E7 & E8 & E9).
  destruct (Stream_prefetch_shape (Stream_eof s)) as [->|[q ->]];
    cbn [buff_fifo_ file_ buff_raw_ bytes_left_in_chunk_ frame_bytes_ is_open_
         playback_speed_ pending_seek_req_ position_
         set_pending_read_req set_request_fifo];
    rewrite E1, E2, E3, E4, E5, E6, E7, E8, E9; repeat split; reflexivity.
Qed.

Lemma Stream_play_passes fuel s n out s0 :
  Stream_play fuel s n = Some (out, s0) ->
  exists k,
    (k <= fuel)%nat
    /\ (negb (IsEmpty (buff_fifo_ s)) && playing_ s = false -> k = 0%nat)
    /\ buff_fifo_ s0
       = drop (k * Z.to_nat (channels (file_info_ s))) (buff_fifo_ s)
    /\ position_ s0
       = (if Nat.eqb k 0 then position_ s
          else usz (position_ s + Z.of_nat k))
    /\ file_ s0 = file_ s /\ buff_raw_ s0 = buff_raw_ s
    /\ bytes_left_in_chunk_ s0 = bytes_left_in_chunk_ s
    /\ frame_bytes_ s0 = frame_bytes_ s /\ is_open_ s0 = is_open_ s
    /\ playback_speed_ s0 = playback_speed_ s
    /\ pending_seek_req_ s0 = pending_seek_req_ s.
Proof.
  unfold Stream_play.
  destruct (negb (IsEmpty (buff_fifo_ s)) && playing_ s).
  - destruct (advance _ _) as [s1|] eqn:E; [|discriminate].
    intros [= <- <-]. apply advance_passes in E as (k & Lk & Rest).
    cbn in Rest. exists k. split; [exact Lk|]. split; [discriminate|exact Rest].
  - intros [= <- <-]. exists 0%nat. cbn. rewrite drop_0.
    split; [lia|]. repeat split; reflexivity.
Qed.

(** The effect of a whole [Stream] call on the ring buffer, the position
    and the fields of the disk side. *)
Lemma Stream_effect fuel s n r out s' :
  Stream workspace_bytes fuel s n = Some (r, out, s') ->
  (exists k,
      (k <= fuel)%nat
      /\ (negb (IsEmpty (buff_fifo_ s)) && playing_ s = false -> k = 0%nat)
      /\ buff_fifo_ s'
         = drop (k * Z.to_nat (channels (file_info_ s))) (buff_fifo_ s)
      /\ position_ s'
         = (let p := if Nat.eqb k 0 then position_ s
                     else usz (position_ s + Z.of_nat k) in
            if p >=? GetDurationInSamples s then 0 else p))
  /\ file_ s' = file_ s /\ buff_raw_ s' = buff_raw_ s
  /\ bytes_left_in_chunk_ s' = bytes_left_in_chunk_ s
  /\ frame_bytes_ s' = frame_bytes_ s /\ is_open_ s' = is_open_ s
  /\ file_info_ s' = file_info_ s
  /\ playback_speed_ s' = playback_speed_ s
  /\ pending_seek_req_ s' = pending_seek_req_ s.
Proof.
  intros E. apply Stream_inv in E as (s0 & P & -> & _).
  pose proof (Stream_play_frame _ _ _ _ _ P) as (_ & _ & Fi & _).
  apply Stream_play_passes in P
    as (k & Lk & Idle & B & Pos & A1 & A2 & A3 & A4 & A5 & A6 & A7).
  destruct (Stream_tail_frame s0)
    as (B' & B1 & B2 & B3 & B4 & B5 & B6 & B7 & P').
  destruct (Stream_eof_frame s0) as (_ & _ & _ & Fe & _).
  assert (Fp : file_info_ (snd (Stream_prefetch workspace_bytes (Stream_eof s0)))
               = file_info_ (Stream_eof s0))
    by (destruct (Stream_prefetch_shape (Stream_eof s0)) as [->|[q ->]];
        reflexivity).
  split.
  - exists k. split; [exact Lk|]. split; [exact Idle|].
    rewrite B', P', B, Pos. unfold GetDurationInSamples. rewrite Fi.
    split; reflexivity.
  - rewrite B1, B2, B3, B4, B5, B6, B7, Fp, Fe, A1, A2, A3, A4, A5, A6, A7, Fi.
    repeat split; reflexivity.
Qed.

(** X1.  [Stream] takes samples off the ring buffer in whole frames: a
    call that made [k] passes of the accumulator loop has removed the
    first [k * channels] samples (all of them when fewer were left), and
    has moved the position on by [k] frames before the end-of-file reset.
    A call on an empty buffer or on a stopped player makes no pass. *)
Theorem Stream_consumes_whole_frames fuel s n r out s' :
  Stream workspace_bytes fuel s n = Some (r, out, s') ->
  exists k,
    (k <= fuel)%nat
    /\ (negb (IsEmpty (buff_fifo_ s)) && playing_ s = false -> k = 0%nat)
    /\ buff_fifo_ s'
       = drop (k * Z.to_nat (channels (file_info_ s))) (buff_fifo_ s)
    /\ position_ s'
       = (let p := if Nat.eqb k 0 then position_ s
                   else usz (position_ s + Z.of_nat k) in
          if p >=? GetDurationInSamples s then 0 else p).
Proof. intros E. exact (proj1 (Stream_effect _ _ _ _ _ _ E)). Qed.

(** X2.  For a file of at most [kMaxAudioChannels] channels, [Stream] is
    free of I/O: it leaves the file object, the transfer buffer,
    remaining-bytes-in-chunk, the frame size, the open flag, [file_info_],
    the playback speed and the pending-seek flag exactly as they were.
    (With more channels the frame-advance loop writes past the two sample
    arrays, into the members behind them.) *)
Theorem Stream_performs_no_io fuel s n r out s' :
  channels (file_info_ s) <= kMaxAudioChannels ->
  Stream workspace_bytes fuel s n = Some (r, out, s') ->
  file_ s' = file_ s /\ buff_raw_ s' = buff_raw_ s
  /\ bytes_left_in_chunk_ s' = bytes_left_in_chunk_ s
  /\ frame_bytes_ s' = frame_bytes_ s /\ is_open_ s' = is_open_ s
  /\ file_info_ s' = file_info_ s
  /\ playback_speed_ s' = playback_speed_ s
  /\ pending_seek_req_ s' = pending_seek_req_ s.
Proof. intros _ E. exact (proj2 (Stream_effect _ _ _ _ _ _ E)). Qed.

(** X3.  After every [Stream] call the position is a frame index of the
    file: not negative and below [GetDurationInSamples], so that the
    normalized position stays in [0, 1). *)
Theorem Stream_position_in_range fuel s n r out s' :
  0 <= position_ s ->
  Stream workspace_bytes fuel s n = Some (r, out, s') ->
  0 <= position_ s' < GetDurationInSamples s'.
Proof.
  intros Nn E.
  destruct (Stream_effect _ _ _ _ _ _ E)
    as ((k & _ & _ & _ & P) & _ & _ & _ & _ & _ & Fi & _).
  cbv zeta in P.
  unfold GetDurationInSamples in *. rewrite Fi.
  set (d := if length_ (file_info_ s) >? 0 then _ else 1) in *.
  assert (D : 1 <= d)
    by (unfold d; destruct (Z.gtb_spec (length_ (file_info_ s)) 0); lia).
  set (p := if Nat.eqb k 0 then _ else _) in P.
  assert (0 <= p).
  { unfold p. destruct (Nat.eqb k 0); [exact Nn|].
    unfold usz. apply Z.mod_pos_bound. lia. }
  rewrite P. destruct (Z.geb_spec p d); lia.
Qed.

Lemma interpolate_length prev cur acc k : forall i samples,
  length (interpolate prev cur acc i k samples) = length samples.
Proof.
  induction k as [|k IH]; intros i samples; cbn [interpolate]; [reflexivity|].
  now rewrite IH, length_insert.
Qed.

Lemma interpolate_lookup prev cur acc k : forall i samples j,
  (j < length samples)%nat ->
  interpolate prev cur acc i k samples !! j
  = if Nat.leb i j && Nat.ltb j (i + k)
    then Some (fadd (sample_at prev j)
                    (fmul acc (fsub (sample_at cur j) (sample_at prev j))))
    else samples !! j.
Proof.
  induction k as [|k IH]; intros i samples j L; cbn [interpolate].
  - replace (Nat.leb i j && Nat.ltb j (i + 0)) with false; [reflexivity|].
    destruct (Nat.leb_spec i j), (Nat.ltb_spec j (i + 0)); cbn; auto; lia.
  - rewrite IH by now rewrite length_insert.
    destruct (Nat.leb_spec (S i) j), (Nat.ltb_spec j (S i + k)),
      (Nat.leb_spec i j), (Nat.ltb_spec j (i + S k)); cbn [andb];
      try lia; try reflexivity.
    all: try (apply list_lookup_insert_ne; lia).
    assert (j = i) by lia. subst j. now apply list_lookup_insert_eq.
Qed.

(** X4.  For a file of at most [kMaxAudioChannels] channels, the two
    sample arrays holding [kMaxAudioChannels] floats each, [Stream] writes
    [num_channels] output samples.  While the player is playing with a
    non-empty ring buffer, each of the first [min(channels, num_channels)]
    is the linear interpolation [previous + pos_acc * (current - previous)]
    of its channel, taken before the accumulator moves; every other output
    sample, and every output sample of a stopped or starved player, is
    zero.  (With more channels the interpolation reads past the arrays.) *)
Theorem Stream_output fuel s n r out s' :
  channels (file_info_ s) <= kMaxAudioChannels ->
  sample_arrays_ok s ->
  Stream workspace_bytes fuel s n = Some (r, out, s') ->
  length out = Z.to_nat n
  /\ forall j,
      (j < Z.to_nat n)%nat ->
      out !! j
      = Some (if negb (IsEmpty (buff_fifo_ s)) && playing_ s
                 && Nat.ltb j (Z.to_nat (Z.min (channels (file_info_ s)) n))
              then fadd (sample_at (previous_sample_ s) j)
                        (fmul (pos_acc_ s)
                              (fsub (sample_at (current_sample_ s) j)
                                    (sample_at (previous_sample_ s) j)))
              else f0).
Proof.
  intros _ _ E. apply Stream_inv in E as (s0 & P & _ & _).
  unfold Stream_play in P.
  destruct (negb (IsEmpty (buff_fifo_ s)) && playing_ s); cbn [andb].
  - destruct (advance _ _) as [s1|]; [|discriminate].
    injection P as <- _. split.
    + now rewrite interpolate_length, length_replicate.
    + intros j L. rewrite interpolate_lookup by now rewrite length_replicate.
      cbn [Nat.leb andb Nat.add].
      destruct (Nat.ltb j _); [reflexivity|].
      now apply lookup_replicate_2.
  - injection P as <- _. split; [apply length_replicate|].
    intros j L. now apply lookup_replicate_2.
Qed.

End StreamMore.

(** * Further properties of [Prepare], [Open] and [Restart] *)

Section DiskSideMore.
Context {FIL F : Type} `{FatFs FIL} `{FloatOps F}.
Variable workspace_bytes : Z.
Implicit Type s : WavPlayer FIL F.

Ltac break_all :=
  repeat match goal with
         | |- context [match ?x with _ => _ end] => destruct x eqn:?
         end.

(** The push loop appends the samples in order for as long as there is
    room; its verdict tells whether all of them went in. *)
Lemma push_raw_spec cap buf n : forall i q,
  push_raw cap buf i n q
  = (Nat.leb n (Z.to_nat (cap - GetNumElements q)),
     q ++ raw_samples buf i (Nat.min n (Z.to_nat (cap - GetNumElements q)))).
Proof.
  unfold raw_samples, GetNumElements.
  induction n as [|n IH]; intros i q; cbn [push_raw].
  - cbn. now rewrite app_nil_r.
  - unfold PushBack, IsFull, GetNumElements.
    destruct (Z.leb_spec cap (Z.of_nat (length q))) as [Full|Room];
      cbn [negb].
    + replace (Z.to_nat (cap - Z.of_nat (length q))) with 0%nat by lia.
      cbn. now rewrite app_nil_r.
    + rewrite IH, length_app. cbn [length].
      replace (Z.to_nat (cap - Z.of_nat (length q)))
        with (S (Z.to_nat (cap - Z.of_nat (length q + 1)))) by lia.
      cbn [Nat.leb Nat.min seq map]. now rewrite <- app_assoc.
Qed.

Lemma Prepare_push_side s total :
  playback_side (exit_state (Prepare_push workspace_bytes s total))
  = playback_side s.
Proof. unfold Prepare_push. break_all; reflexivity. Qed.

Lemma Prepare_wrap_side s a b :
  playback_side (exit_state (Prepare_wrap workspace_bytes s a b))
  = playback_side s.
Proof.
  unfold Prepare_wrap. cbv zeta.
  break_all; try reflexivity; rewrite Prepare_push_side; reflexivity.
Qed.

Lemma Prepare_step_side s :
  playback_side (exit_state (Prepare_step workspace_bytes s))
  = playback_side s.
Proof.
  unfold Prepare_step, Prepare_read, Prepare_seek. cbv zeta.
  break_all; try reflexivity; rewrite Prepare_wrap_side; reflexivity.
Qed.

(** X5.  [Prepare] stays on the disk side: whatever it returns, the
    position, the playing and looping flags, the playback speed, the
    accumulator, the current and previous samples, [file_info_], the
    frame size and the open flag are what they were. *)
Theorem Prepare_keeps_playback_side s :
  playback_side (snd (Prepare workspace_bytes s)) = playback_side s.
Proof.
  unfold Prepare. generalize (length (request_fifo_ s)) as n. intros n.
  revert s. induction n as [|n IH]; intros s; cbn [Prepare_loop].
  - destruct (IsEmpty _); reflexivity.
  - destruct (IsEmpty _); [reflexivity|].
    pose proof (Prepare_step_side s) as P.
    destruct (Prepare_step workspace_bytes s) as [r t|t]; cbn in P |- *.
    + exact P.
    + rewrite IH. exact P.
Qed.

(** *** The pending flags *)

Lemma Prepare_push_pending s total :
  pending_read_req_ (exit_state (Prepare_push workspace_bytes s total)) = false
  /\ pending_seek_req_ (exit_state (Prepare_push workspace_bytes s total))
     = pending_seek_req_ s.
Proof. unfold Prepare_push. break_all; split; reflexivity. Qed.

Lemma Prepare_wrap_pending s a b :
  match Prepare_wrap workspace_bytes s a b with
  | Return DiskError t => pending_read_req_ t = pending_read_req_ s
  | Return _ t | Continue t => pending_read_req_ t = false
  end
  /\ pending_seek_req_ (exit_state (Prepare_wrap workspace_bytes s a b))
     = pending_seek_req_ s.
Proof.
  assert (P : forall (u : WavPlayer FIL F) v,
             pending_read_req_ u = pending_read_req_ s ->
             pending_seek_req_ u = pending_seek_req_ s ->
             match Prepare_push workspace_bytes u v with
             | Return DiskError t => pending_read_req_ t = pending_read_req_ s
             | Return _ t | Continue t => pending_read_req_ t = false
             end
             /\ pending_seek_req_ (exit_state (Prepare_push workspace_bytes u v))
                = pending_seek_req_ s).
  { intros u v _ Es. unfold Prepare_push. cbv zeta.
    destruct (push_raw _ _ _ _ _) as [[] q]; cbn; auto. }
  unfold Prepare_wrap. cbv zeta.
  destruct (_ && looping_ s); [|now apply P].
  destruct (f_lseek _ _) as [sta f].
  destruct (is_FR_OK sta); cbn [negb]; [|split; reflexivity].
  destruct (_ >? 0); [|now apply P].
  destruct (_ >? 0); [|now apply P].
  destruct (f_read _ _) as [[sta2 bytes] f2].
  destruct (is_FR_OK sta2); cbn [negb]; [|split; reflexivity].
  destruct (_ =? _); cbn [negb]; [|split; reflexivity].
  now apply P.
Qed.

(** One pass and the pending flags: a Read request that is handled
    clears the pending-read flag, also when the ring buffer overruns; a
    Seek request that is handled clears the pending-seek flag; a pass
    that ends in [DiskError] leaves both flags alone. *)
Lemma Prepare_step_pending s req rest :
  request_fifo_ s = req :: rest ->
  match Prepare_step workspace_bytes s with
  | Continue t =>
      pending_read_req_ t
      = (if is_read req then false else pending_read_req_ s)
      /\ pending_seek_req_ t
         = (if is_seek req then false else pending_seek_req_ s)
  | Return DiskError t =>
      pending_read_req_ t = pending_read_req_ s
      /\ pending_seek_req_ t = pending_seek_req_ s
  | Return _ t =>
      pending_read_req_ t = false
      /\ pending_seek_req_ t = pending_seek_req_ s
  end.
Proof.
  intros Q. unfold Prepare_step. rewrite Q. cbn [PopFront].
  unfold is_read, is_seek.
  destruct (type req).
  - unfold Prepare_read. cbv zeta.
    destruct (_ =? 0); [split; reflexivity|].
    assert (W : forall (u : WavPlayer FIL F) a b,
               match Prepare_wrap workspace_bytes u a b with
               | Continue t =>
                   pending_read_req_ t = false
                   /\ pending_seek_req_ t = pending_seek_req_ u
               | Return DiskError t =>
                   pending_read_req_ t = pending_read_req_ u
                   /\ pending_seek_req_ t = pending_seek_req_ u
               | Return _ t =>
                   pending_read_req_ t = false
                   /\ pending_seek_req_ t = pending_seek_req_ u
               end).
    { intros u a b. destruct (Prepare_wrap_pending u a b) as [A B].
      destruct (Prepare_wrap workspace_bytes u a b) as [[] t|t];
        cbn in B; auto. }
    assert (W' : forall (u : WavPlayer FIL F) a b,
               pending_read_req_ u = pending_read_req_ s ->
               pending_seek_req_ u = pending_seek_req_ s ->
               match Prepare_wrap workspace_bytes u a b with
               | Continue t =>
                   pending_read_req_ t = false
                   /\ pending_seek_req_ t = pending_seek_req_ s
               | Return DiskError t =>
                   pending_read_req_ t = pending_read_req_ s
                   /\ pending_seek_req_ t = pending_seek_req_ s
               | Return _ t =>
                   pending_read_req_ t = false
                   /\ pending_seek_req_ t = pending_seek_req_ s
               end).
    { intros u a b Er Es. rewrite <- Er, <- Es. apply W. }
    destruct (_ >? 0); [|now apply W'].
    destruct (f_read _ _) as [[sta bytes] f].
    destruct (is_FR_OK sta); cbn [negb]; [|split; reflexivity].
    destruct (_ =? _); cbn [negb]; [|split; reflexivity].
    now apply W'.
  - unfold Prepare_seek. cbv zeta.
    destruct (f_lseek _ _) as [sta f].
    destruct (is_FR_OK sta); cbn [negb]; split; reflexivity.
  - split; reflexivity.
Qed.

Lemma Prepare_loop_pending n : forall s,
  (length (request_fifo_ s) <= n)%nat ->
  (fst (Prepare_loop workspace_bytes n s) = Ok ->
   pending_read_req_ (snd (Prepare_loop workspace_bytes n s))
   = (if existsb is_read (request_fifo_ s) then false
      else pending_read_req_ s)
   /\ pending_seek_req_ (snd (Prepare_loop workspace_bytes n s))
      = (if existsb is_seek (request_fifo_ s) then false
         else pending_seek_req_ s))
  /\ (fst (Prepare_loop workspace_bytes n s) = PrepareOverrun ->
      pending_read_req_ (snd (Prepare_loop workspace_bytes n s)) = false).
Proof.
  induction n as [|n IH]; intros s L; cbn [Prepare_loop].
  - destruct (request_fifo_ s) as [|req rest] eqn:Q; [|cbn in L; lia].
    cbn. split; [split; reflexivity|discriminate].
  - destruct (request_fifo_ s) as [|req rest] eqn:Q; cbn [IsEmpty].
    + cbn. split; [split; reflexivity|discriminate].
    + pose proof (Prepare_step_pending s req rest Q) as P.
      destruct (Prepare_step_exit workspace_bytes s) as [T R].
      rewrite Q in T. cbn [tail] in T.
      destruct (Prepare_step workspace_bytes s) as [r t|t]; cbn in T.
      * cbn [fst snd].
        destruct (R r t eq_refl) as [-> | ->]; (split; [discriminate|]);
          [discriminate|intros _; apply P].
      * destruct (IH t) as [IOk IOv]; [rewrite T; cbn in L; lia|].
        destruct P as [Pr Ps]. rewrite T in IOk.
        split; [|exact IOv].
        intros ROk. destruct (IOk ROk) as [A B]. rewrite A, B, Pr, Ps.
        cbn [existsb].
        destruct (is_read req), (is_seek req),
          (existsb is_read rest), (existsb is_seek rest);
          split; reflexivity.
Qed.

(** X6.  When [Prepare] returns [Ok], the pending-read flag is clear if
    the queue held a Read request and unchanged otherwise, and likewise
    the pending-seek flag for Seek requests; when it returns
    [PrepareOverrun] the pending-read flag is clear.  (A [DiskError]
    leaves the flag of the failing request set.) *)
Theorem Prepare_clears_pending_flags s :
  (fst (Prepare workspace_bytes s) = Ok ->
   pending_read_req_ (snd (Prepare workspace_bytes s))
   = (if existsb is_read (request_fifo_ s) then false
      else pending_read_req_ s)
   /\ pending_seek_req_ (snd (Prepare workspace_bytes s))
      = (if existsb is_seek (request_fifo_ s) then false
         else pending_seek_req_ s))
  /\ (fst (Prepare workspace_bytes s) = PrepareOverrun ->
      pending_read_req_ (snd (Prepare workspace_bytes s)) = false).
Proof. unfold Prepare. now apply Prepare_loop_pending. Qed.

(** *** Remaining bytes in the data chunk *)

(** A span: the smaller of two byte counts, rounded down to whole
    frames. *)
Lemma span_range a b fb :
  0 < fb -> 0 <= a -> 0 <= b ->
  0 <= Z.min a b - umod (Z.min a b) fb <= b.
Proof.
  intros Fb A B. unfold umod.
  pose proof (Z.mod_pos_bound (Z.min a b) fb Fb).
  pose proof (Z.mod_le (Z.min a b) fb ltac:(lia) Fb). lia.
Qed.

Lemma Prepare_push_bytes_left s total :
  bytes_left_in_chunk_ (exit_state (Prepare_push workspace_bytes s total))
  = bytes_left_in_chunk_ s.
Proof.
  unfold Prepare_push. cbv zeta.
  destruct (push_raw _ _ _ _ _) as [[] q]; reflexivity.
Qed.

Lemma Prepare_wrap_bytes_left s a b :
  0 <= bytes_left_in_chunk_ s <= data_size_bytes (file_info_ s) ->
  0 <= bytes_left_in_chunk_ (exit_state (Prepare_wrap workspace_bytes s a b))
    <= data_size_bytes (file_info_ s).
Proof.
  intros Rg. unfold Prepare_wrap. cbv zeta.
  destruct (_ && looping_ s); [|now rewrite Prepare_push_bytes_left].
  destruct (f_lseek _ _) as [sta f].
  destruct (is_FR_OK sta); cbn [negb]; [|exact Rg].
  destruct (_ >? 0); [|now rewrite Prepare_push_bytes_left].
  destruct (_ >? 0); [|now rewrite Prepare_push_bytes_left].
  destruct (f_read _ _) as [[sta2 bytes] f2].
  destruct (is_FR_OK sta2); cbn [negb]; [|exact Rg].
  destruct (_ =? _); cbn [negb]; [|exact Rg].
  rewrite Prepare_push_bytes_left. cbn.
  destruct (Z.leb_spec (Z.of_nat (length bytes))
              (data_size_bytes (file_info_ s))); lia.
Qed.

Lemma Prepare_step_bytes_left s :
  0 < frame_bytes_ s ->
  data_size_bytes (file_info_ s) < 2 ^ 32 ->
  0 <= bytes_left_in_chunk_ s <= data_size_bytes (file_info_ s) ->
  0 <= bytes_left_in_chunk_ (exit_state (Prepare_step workspace_bytes s))
    <= data_size_bytes (file_info_ s).
Proof.
  intros Fb Ds Rg. unfold Prepare_step.
  destruct (PopFront _ _) as [req q]. cbv zeta.
  destruct (type req); [| |exact Rg].
  - unfold Prepare_read. cbv zeta.
    cbn [frame_bytes_ bytes_left_in_chunk_ file_ set_request_fifo
         set_buff_raw].
    set (want := usz (data req * 2) - umod (usz (data req * 2)) (frame_bytes_ s)).
    assert (W : 0 <= want).
    { unfold want, umod, usz.
      pose proof (Z.mod_pos_bound (data req * 2) (2 ^ 32) ltac:(lia)).
      pose proof (Z.mod_le ((data req * 2) mod 2 ^ 32) (frame_bytes_ s)
                    ltac:(lia) Fb). lia. }
    destruct (want =? 0); [exact Rg|].
    pose proof (span_range want (bytes_left_in_chunk_ s) (frame_bytes_ s)
                  Fb W ltac:(lia)) as Sp.
    set (span := Z.min want (bytes_left_in_chunk_ s)
                 - umod (Z.min want (bytes_left_in_chunk_ s)) (frame_bytes_ s))
      in *.
    destruct (span >? 0).
    2:{ match goal with |- context [Prepare_wrap _ ?u ?a ?b] =>
          apply (Prepare_wrap_bytes_left u a b) end. exact Rg. }
    destruct (f_read _ _) as [[sta bytes] f].
    destruct (is_FR_OK sta); cbn [negb]; [|exact Rg].
    destruct (Z.eqb_spec (Z.of_nat (length bytes)) span) as [Eq|];
      cbn [negb]; [|exact Rg].
    match goal with |- context [Prepare_wrap _ ?u ?a ?b] =>
      apply (Prepare_wrap_bytes_left u a b) end.
    cbn. rewrite Eq. unfold usz. rewrite Z.mod_small; lia.
  - unfold Prepare_seek. cbv zeta.
    cbn [frame_bytes_ file_info_ file_ set_request_fifo].
    set (dest := (if usz (data req * 2) >? data_size_bytes (file_info_ s)
                  then data_size_bytes (file_info_ s) else usz (data req * 2))).
    assert (D : 0 <= dest <= data_size_bytes (file_info_ s)).
    { unfold dest, usz.
      pose proof (Z.mod_pos_bound (data req * 2) (2 ^ 32) ltac:(lia)).
      destruct (Z.gtb_spec ((data req * 2) mod 2 ^ 32)
                  (data_size_bytes (file_info_ s))); lia. }
    assert (M : 0 <= umod dest (frame_bytes_ s) <= dest).
    { unfold umod. pose proof (Z.mod_pos_bound dest (frame_bytes_ s) Fb).
      pose proof (Z.mod_le dest (frame_bytes_ s) ltac:(lia) Fb). lia. }
    destruct (f_lseek _ _) as [sta f].
    destruct (is_FR_OK sta); cbn [negb]; [|exact Rg].
    cbn. unfold usz. rewrite Z.mod_small; lia.
Qed.

(** X7.  [Prepare] keeps remaining-bytes-in-chunk between 0 and the size
    of the data chunk: no request makes the count wrap below zero or
    run past the chunk, whatever the storage returns. *)
Theorem Prepare_keeps_bytes_left_in_range s :
  0 < frame_bytes_ s ->
  data_size_bytes (file_info_ s) < 2 ^ 32 ->
  0 <= bytes_left_in_chunk_ s <= data_size_bytes (file_info_ s) ->
  0 <= bytes_left_in_chunk_ (snd (Prepare workspace_bytes s))
    <= data_size_bytes (file_info_ s).
Proof.
  unfold Prepare. generalize (length (request_fifo_ s)) as n. intros n.
  revert s. induction n as [|n IH]; intros s Fb Ds Rg; cbn [Prepare_loop].
  - destruct (IsEmpty _); exact Rg.
  - destruct (IsEmpty _); [exact Rg|].
    pose proof (Prepare_step_bytes_left s Fb Ds Rg) as B.
    pose proof (Prepare_step_side s) as Sd.
    destruct (Prepare_step workspace_bytes s) as [r t|t]; cbn in B, Sd |- *.
    + exact B.
    + unfold playback_side in Sd.
      injection Sd as _ _ _ _ _ _ _ Efi Efb _.
      rewrite <- Efi. apply IH; rewrite ?Efi, ?Efb; assumption.
Qed.

(** *** Refilling the ring buffer *)

(** X8.  The refill at the end of a Read request: of the samples read,
    rounded down to whole frames, as many as fit are appended to the ring
    buffer in the order of the transfer buffer; the pending-read flag is
    cleared; the pass continues when all of them fitted and leaves
    [Prepare] with [PrepareOverrun] when one was rejected, the samples
    pushed before it staying in the buffer. *)
Theorem Prepare_push_refill s total :
  let count :=
    Z.to_nat (round_down (udiv total 2) (channels (file_info_ s))) in
  let room :=
    Z.to_nat (kRxSizeSamples workspace_bytes
              - GetNumElements (buff_fifo_ s)) in
  let t :=
    set_pending_read_req
      (set_buff_fifo s
         (buff_fifo_ s ++ raw_samples (buff_raw_ s) 0 (Nat.min count room)))
      false in
  Prepare_push workspace_bytes s total
  = if Nat.leb count room then Continue t else Return PrepareOverrun t.
Proof.
  cbv zeta. unfold Prepare_push, round_down, umod. cbv zeta.
  rewrite push_raw_spec. destruct (Nat.leb _ _); reflexivity.
Qed.

(** *** Both queues stay within their capacity *)

Lemma PushBack_bound {T} cap (q : FIFO T) x :
  GetNumElements q <= cap ->
  GetNumElements (snd (PushBack cap q x)) <= cap.
Proof.
  unfold PushBack, IsFull, GetNumElements.
  destruct (Z.leb_spec cap (Z.of_nat (length q))); cbn; [auto|].
  rewrite length_app. cbn. lia.
Qed.

Lemma push_raw_bound cap buf i n q :
  GetNumElements q <= cap ->
  GetNumElements (snd (push_raw cap buf i n q)) <= cap.
Proof.
  rewrite push_raw_spec. unfold GetNumElements, raw_samples. cbn [snd].
  rewrite length_app, length_map, length_seq. lia.
Qed.

Lemma Prepare_push_occupancy s total :
  GetNumElements (buff_fifo_ s) <= kRxSizeSamples workspace_bytes ->
  GetNumElements
    (buff_fifo_ (exit_state (Prepare_push workspace_bytes s total)))
  <= kRxSizeSamples workspace_bytes.
Proof.
  intros B. unfold Prepare_push. cbv zeta.
  pose proof (push_raw_bound (kRxSizeSamples workspace_bytes) (buff_raw_ s) 0
                (Z.to_nat
                   (if channels (file_info_ s) >? 0
                    then udiv total 2
                         - umod (udiv total 2) (channels (file_info_ s))
                    else udiv total 2))
                (buff_fifo_ s) B) as P.
  destruct (push_raw _ _ _ _ _) as [[] q]; exact P.
Qed.

Lemma Prepare_wrap_occupancy s a b :
  GetNumElements (buff_fifo_ s) <= kRxSizeSamples workspace_bytes ->
  GetNumElements
    (buff_fifo_ (exit_state (Prepare_wrap workspace_bytes s a b)))
  <= kRxSizeSamples workspace_bytes.
Proof.
  intros B. unfold Prepare_wrap. cbv zeta.
  destruct (_ && looping_ s); [|now apply Prepare_push_occupancy].
  destruct (f_lseek _ _) as [sta f].
  destruct (is_FR_OK sta); cbn [negb]; [|exact B].
  destruct (_ >? 0); [|now apply Prepare_push_occupancy].
  destruct (_ >? 0); [|now apply Prepare_push_occupancy].
  destruct (f_read _ _) as [[sta2 bytes] f2].
  destruct (is_FR_OK sta2); cbn [negb]; [|exact B].
  destruct (_ =? _); cbn [negb]; [|exact B].
  now apply Prepare_push_occupancy.
Qed.

Lemma Prepare_step_occupancy s :
  GetNumElements (buff_fifo_ s) <= kRxSizeSamples workspace_bytes ->
  GetNumElements (buff_fifo_ (exit_state (Prepare_step workspace_bytes s)))
  <= kRxSizeSamples workspace_bytes.
Proof.
  intros B. unfold Prepare_step.
  destruct (PopFront _ _) as [req q]. cbv zeta.
  destruct (type req); [| |exact B].
  - unfold Prepare_read. cbv zeta.
    destruct (_ =? 0); [exact B|].
    destruct (_ >? 0); [|now apply Prepare_wrap_occupancy].
    destruct (f_read _ _) as [[sta bytes] f].
    destruct (is_FR_OK sta); cbn [negb]; [|exact B].
    destruct (_ =? _); cbn [negb]; [|exact B].
    now apply Prepare_wrap_occupancy.
  - unfold Prepare_seek. cbv zeta.
    destruct (f_lseek _ _) as [sta f].
    destruct (is_FR_OK sta); cbn [negb]; exact B.
Qed.

Lemma Prepare_occupancy s :
  GetNumElements (buff_fifo_ s) <= kRxSizeSamples workspace_bytes ->
  GetNumElements (buff_fifo_ (snd (Prepare workspace_bytes s)))
  <= kRxSizeSamples workspace_bytes.
Proof.
  unfold Prepare. generalize (length (request_fifo_ s)) as n. intros n.
  revert s. induction n as [|n IH]; intros s B; cbn [Prepare_loop].
  - destruct (IsEmpty _); exact B.
  - destruct (IsEmpty _); [exact B|].
    pose proof (Prepare_step_occupancy s B) as P.
    destruct (Prepare_step workspace_bytes s) as [r t|t]; cbn in P |- *;
      [exact P|now apply IH].
Qed.

Lemma Open_prime_queues s parser :
  0 <= kRxSizeSamples workspace_bytes ->
  GetNumElements (buff_fifo_ s) <= kRxSizeSamples workspace_bytes ->
  request_fifo_ (snd (Open_prime workspace_bytes s parser)) = request_fifo_ s
  /\ GetNumElements (buff_fifo_ (snd (Open_prime workspace_bytes s parser)))
     <= kRxSizeSamples workspace_bytes.
Proof.
  intros K B. unfold Open_prime. cbv zeta.
  destruct (_ =? 0); [split; [reflexivity|exact B]|].
  destruct (f_lseek _ _) as [sta f].
  destruct (is_FR_OK sta); cbn [negb]; [|split; [reflexivity|exact B]].
  destruct (_ >? 0).
  - destruct (f_read _ _) as [[sta2 bytes] f2].
    destruct (is_FR_OK sta2); cbn [negb]; [|split; [reflexivity|exact B]].
    destruct (_ =? _); cbn [negb]; [|split; [reflexivity|exact B]].
    match goal with |- context [push_raw ?c ?bf ?i ?n ?q0] =>
      pose proof (push_raw_bound c bf i n q0) as P;
        destruct (push_raw c bf i n q0) as [ok q]
    end.
    split; [reflexivity|apply P; exact K].
  - match goal with |- context [push_raw ?c ?bf ?i ?n ?q0] =>
      pose proof (push_raw_bound c bf i n q0) as P;
        destruct (push_raw c bf i n q0) as [ok q]
    end.
    split; [reflexivity|apply P; exact K].
Qed.

Lemma Open_queues fuel s name r s' :
  0 <= kRxSizeSamples workspace_bytes ->
  GetNumElements (buff_fifo_ s) <= kRxSizeSamples workspace_bytes ->
  Open workspace_bytes fuel s name = Some (r, s') ->
  request_fifo_ s' = request_fifo_ s
  /\ GetNumElements (buff_fifo_ s') <= kRxSizeSamples workspace_bytes.
Proof.
  intros K B. unfold Open. cbv zeta.
  set (s1 := if is_open_ s then _ else s).
  assert (E : request_fifo_ s1 = request_fifo_ s
              /\ buff_fifo_ s1 = buff_fifo_ s)
    by (unfold s1; destruct (is_open_ s); split; reflexivity).
  destruct E as [E1 E2].
  destruct (f_open _ name) as [sta f].
  destruct sta;
    try (intros [= <- <-]; cbn; rewrite E1, E2; split; [reflexivity|exact B]).
  destruct (parse _ _ _) as [[[ok parser] reader]|]; [|discriminate].
  destruct ok; cbn [negb].
  - intros [= E].
    match type of E with Open_prime _ ?u ?p = _ =>
      destruct (Open_prime_queues u p K) as [Q O];
        [cbn; rewrite E2; exact B|]
    end.
    rewrite E in Q, O. cbn in Q, O. rewrite Q. cbn. now rewrite E1.
  - intros [= <- <-]. cbn. rewrite E1, E2. split; [reflexivity|exact B].
Qed.

Lemma round_down_le x m : round_down x m <= x.
Proof.
  unfold round_down. destruct (Z.gtb_spec m 0); [|lia].
  pose proof (Z.mod_pos_bound x m). lia.
Qed.

Lemma PushBack_Forall {T} (P : T -> Prop) cap (q : FIFO T) x :
  Forall P q -> P x -> Forall P (snd (PushBack cap q x)).
Proof.
  intros Q X. unfold PushBack. destruct (IsFull cap q); cbn; [exact Q|].
  apply Forall_app. split; [exact Q|]. constructor; [exact X|constructor].
Qed.

(** [workspace_bytes] is a [size_t]. *)
Hypothesis workspace_range : 0 <= workspace_bytes < 2 ^ 32.

Lemma Stream_queues fuel s n r out s' :
  queues_ok workspace_bytes s ->
  Stream workspace_bytes fuel s n = Some (r, out, s') ->
  queues_ok workspace_bytes s'.
Proof.
  intros (B & Q & A) E.
  destruct (Stream_effect workspace_bytes fuel s n r out s' E)
    as ((k & _ & _ & D & _) & _).
  pose proof (Stream_prefetch_outcome workspace_bytes workspace_range fuel s n r out s' E)
    as O. cbv zeta in O.
  assert (B' : GetNumElements (buff_fifo_ s')
               <= kRxSizeSamples workspace_bytes).
  { rewrite D. unfold GetNumElements in *. rewrite length_drop. lia. }
  split; [exact B'|].
  destruct (_ && _ && _) eqn:Due in O.
  - destruct O as (-> & _ & _).
    apply andb_prop in Due. destruct Due as [_ Pos].
    apply Z.ltb_lt in Pos.
    split; [now apply PushBack_bound|].
    apply PushBack_Forall; [exact A|].
    unfold request_ok. cbn [type data]. split; [exact Pos|].
    unfold prefetch_qty.
    pose proof (round_down_le
                  (kRxSizeSamples workspace_bytes
                   - GetNumElements (buff_fifo_ s') - 1)
                  (channels (file_info_ s))).
    unfold GetNumElements in *. lia.
  - destruct O as (-> & _ & _). split; assumption.
Qed.

Lemma Prepare_queues s :
  queues_ok workspace_bytes s ->
  queues_ok workspace_bytes (snd (Prepare workspace_bytes s)).
Proof.
  intros (B & Q & A).
  split; [now apply Prepare_occupancy|].
  destruct (Prepare_loop_drains workspace_bytes (length (request_fifo_ s)) s
              (Nat.le_refl _)) as (handled & _ & E & _).
  fold (Prepare workspace_bytes s) in E.
  rewrite E in Q, A. apply Forall_app in A. destruct A as [_ A].
  split; [|exact A].
  unfold GetNumElements in *. rewrite length_app in Q. lia.
Qed.

Lemma Restart_queues s :
  queues_ok workspace_bytes (Restart workspace_bytes s).
Proof.
  assert (K : 0 <= kRxSizeSamples workspace_bytes)
    by (unfold kRxSizeSamples, udiv; apply Z.div_pos; lia).
  destruct (Restart_queue workspace_bytes s) as (Q & _).
  assert (B : buff_fifo_ (Restart workspace_bytes s) = []).
  { unfold Restart. cbv zeta. destruct (_ >? 0) at 1; reflexivity. }
  unfold queues_ok. rewrite B, Q.
  split; [exact K|].
  destruct (Z.gtb_spec (round_down (kRxSizeSamples workspace_bytes)
                          (channels (file_info_ s))) 0) as [P|P].
  - split; [unfold GetNumElements, kRequestCapacity; cbn [length]; lia|].
    repeat constructor; unfold request_ok; cbn [type data]; try lia.
    apply round_down_le.
  - split; [unfold GetNumElements, kRequestCapacity; cbn [length]; lia|].
    repeat constructor.
Qed.

(** X9.  Every call of the player's interface keeps both queues within
    their capacity, and every queued request is a Read of at least one and
    at most [kRxSizeSamples] samples or a Seek to offset 0. *)
Theorem calls_keep_queues_within_capacity cs : forall s s',
  queues_ok workspace_bytes s ->
  run_calls workspace_bytes cs s = Some s' ->
  queues_ok workspace_bytes s'.
Proof.
  induction cs as [|c cs IH]; intros s s' Q; cbn [run_calls].
  - now intros [= <-].
  - destruct (run_call workspace_bytes c s) as [t|] eqn:E; [|discriminate].
    intros R. apply (IH t s'); [|exact R]. clear R IH.
    assert (K : 0 <= kRxSizeSamples workspace_bytes)
      by (unfold kRxSizeSamples, udiv; apply Z.div_pos; lia).
    destruct c; cbn [run_call] in E.
    + destruct (Stream _ _ _ _) as [[[r out] u]|] eqn:S; [|discriminate].
      injection E as <-. eapply Stream_queues; eauto.
    + injection E as <-. now apply Prepare_queues.
    + destruct (Open _ _ _ _) as [[r u]|] eqn:O; [|discriminate].
      injection E as <-. destruct Q as (B & Q & A).
      destruct (Open_queues fuel s name r u K B O) as [E1 E2].
      unfold queues_ok. rewrite E1. auto.
    + unfold Init in E.
      destruct (Open _ _ _ _) as [[r u]|] eqn:O; [|discriminate].
      destruct Q as (B & Q & A).
      destruct (Open_queues fuel s name r u K B O) as [E1 E2].
      assert (queues_ok workspace_bytes u)
        by (unfold queues_ok; rewrite E1; auto).
      destruct r; injection E as <-; assumption.
    + injection E as <-. exact Q.
    + injection E as <-. now apply Restart_queues.
    + injection E as <-. exact Q.
    + injection E as <-. exact Q.
    + injection E as <-. unfold SetPlaybackSpeedRatio.
      destruct (fge _ _); exact Q.
Qed.

End DiskSideMore.

(** * More on the parser *)

Section ParserMore.
Context {R : Type} `{IReader R}.

Section Invariant.
(** A property of the parser that no assignment of [parse] breaks. *)
Variable P : WavParser -> Prop.
Hypothesis P_fmt : forall p f, P p -> P (set_fmt p f).
Hypothesis P_haveFmt : forall p b, P p -> P (set_haveFmt p b).
Hypothesis P_haveData : forall p b, P p -> P (set_haveData p b).
Hypothesis P_fileSize : forall p sz, P p -> P (set_fileSize p sz).
Hypothesis P_data :
  forall p off sz, 0 <= sz < 2 ^ 32 -> P p -> P (set_data p off sz).
Hypothesis P_metadata :
  forall p e, metadataCount_ p < MAX_METADATA_CHUNKS -> P p ->
              P (push_metadata p e).

Lemma rd_u32_range b off : 0 <= rd_u32 b off < 2 ^ 32.
Proof. unfold rd_u32, u32. apply Z.mod_pos_bound. lia. Qed.

Lemma parse_fmt_chunk_keeps p (r : R) ch :
  P p -> P (snd (fst (parse_fmt_chunk p r ch))).
Proof.
  intros Pp. unfold parse_fmt_chunk. cbv zeta.
  repeat match goal with
         | |- context [match ?x with _ => _ end] => destruct x eqn:?
         end; cbn [fst snd]; auto.
Qed.

Lemma parse_chunk_keeps p (r : R) :
  P p -> P (exit_parser (parse_chunk p r)).
Proof.
  intros Pp.
  assert (Ep : forall q (d : R) ch, exit_parser (chunk_epilogue q d ch) = q)
    by (intros; apply chunk_epilogue_flags).
  unfold parse_chunk, read_chunk_header, read_exact, skip_chunk_payload.
  cbv zeta.
  destruct (read r 8) as [hdr r1].
  destruct (Z.of_nat (length hdr) =? 8); cbn [negb]; [|exact Pp].
  cbn [ch_id ch_size].
  destruct (_ =? FOURCC_FMT).
  { pose proof (parse_fmt_chunk_keeps p r1
                  (mkChunk (rd_u32 hdr 0) (rd_u32 hdr 4)) Pp) as Fm.
    destruct (parse_fmt_chunk _ _ _) as [[ok p1] r2]. cbn [fst snd] in Fm.
    destruct ok; cbn [negb]; [rewrite Ep|]; exact Fm. }
  destruct (_ =? FOURCC_DATA).
  { destruct (seek _ _) as [ok r2].
    destruct ok; cbn [negb]; [rewrite Ep; apply P_haveData|];
      apply P_data; auto using rd_u32_range. }
  destruct (seek _ _) as [ok r2].
  destruct ok; cbn [negb]; [rewrite Ep|];
    destruct (Z.ltb_spec (metadataCount_ p) MAX_METADATA_CHUNKS);
    cbn [exit_parser]; auto.
Qed.

Lemma parse_loop_keeps fuel : forall p (r : R) b p' r',
  P p -> parse_loop fuel p r = Some (b, p', r') -> P p'.
Proof.
  induction fuel as [|fuel IH]; intros p r b p' r' Pp; cbn [parse_loop].
  - destruct (more_chunks p r); cbn [negb]; [discriminate|].
    now intros [= <- <- <-].
  - destruct (more_chunks p r); cbn [negb]; [|now intros [= <- <- <-]].
    pose proof (parse_chunk_keeps p r Pp) as Pp'.
    destruct (parse_chunk p r) as [p1 r1|p1 r1|p1 r1]; cbn in Pp'.
    + now intros [= <- <- <-].
    + now intros [= <- <- <-].
    + intros E. eapply IH, E. exact Pp'.
Qed.

Lemma parse_keeps fuel p0 (r0 : R) b p r :
  P (reset p0) -> parse fuel p0 r0 = Some (b, p, r) -> P p.
Proof.
  intros P0. unfold parse. cbv zeta.
  assert (Hd : P (snd (fst (read_riff_header (reset p0) r0)))).
  { unfold read_riff_header, read_exact.
    repeat match goal with
           | |- context [match ?x with _ => _ end] => destruct x eqn:?
           end; cbn [fst snd]; auto. }
  destruct (read_riff_header (reset p0) r0) as [[ok p1] r1].
  cbn [fst snd] in Hd.
  destruct ok; cbn [negb].
  - intros E. eapply parse_loop_keeps, E. exact Hd.
  - now intros [= <- <- <-].
Qed.

End Invariant.

Lemma parse_dataSize_range fuel p0 (r0 : R) b p r :
  parse fuel p0 r0 = Some (b, p, r) -> 0 <= dataSize_ p < 2 ^ 32.
Proof.
  apply (parse_keeps (fun p => 0 <= dataSize_ p < 2 ^ 32)); cbn; auto; lia.
Qed.

(** X10.  [parse] never writes outside the array [metadata_]: the count of
    stored entries ends between 0 and [MAX_METADATA_CHUNKS], whatever the
    number of chunks in the file, the array keeps its length, and the
    entries from index [metadataCount_] on are the ones the array had
    before the call. *)
Theorem parse_metadata_within_bounds fuel p0 (r0 : R) b p r :
  parse fuel p0 r0 = Some (b, p, r) ->
  0 <= metadataCount_ p <= MAX_METADATA_CHUNKS
  /\ length (metadata_ p) = length (metadata_ p0)
  /\ forall i, (Z.to_nat (metadataCount_ p) <= i)%nat ->
               metadata_ p !! i = metadata_ p0 !! i.
Proof.
  apply (parse_keeps
           (fun p => 0 <= metadataCount_ p <= MAX_METADATA_CHUNKS
                     /\ length (metadata_ p) = length (metadata_ p0)
                     /\ forall i, (Z.to_nat (metadataCount_ p) <= i)%nat ->
                                  metadata_ p !! i = metadata_ p0 !! i));
    cbn; auto.
  - intros q e Lt (Rg & Len & Same). split; [lia|].
    split; [now rewrite length_insert|].
    intros i Le. rewrite list_lookup_insert_ne by lia.
    apply Same. lia.
  - unfold MAX_METADATA_CHUNKS. split; [lia|]. split; reflexivity.
Qed.

End ParserMore.

(** * More on [Open] *)

Section OpenMore.
Context {FIL F : Type} `{FatFs FIL} `{FloatOps F}.
Variable workspace_bytes : Z.
Implicit Type s : WavPlayer FIL F.

Lemma Open_prime_primes s parser s' :
  0 <= workspace_bytes ->
  0 <= dataSize_ parser ->
  Open_prime workspace_bytes s parser = (Ok, s') ->
  file_info_ s'
  = mkInfo (numChannels (fmt_ parser))
           (udiv (dataSize_ parser) (frame_bytes_ s'))
           (sampleRate (fmt_ parser)) (dataOffset_ parser)
           (dataSize_ parser)
  /\ frame_bytes_ s'
     = usz (numChannels (fmt_ parser) * udiv (bitsPerSample (fmt_ parser)) 8)
  /\ 0 < frame_bytes_ s'
  /\ position_ s' = 0
  /\ pending_read_req_ s' = false
  /\ pending_seek_req_ s' = false
  /\ bytes_left_in_chunk_ s'
     = dataSize_ parser
       - round_down (Z.min workspace_bytes (dataSize_ parser))
                    (frame_bytes_ s')
  /\ buff_fifo_ s'
     = raw_samples (buff_raw_ s') 0
         (Z.to_nat
            (round_down
               (udiv (round_down (Z.min workspace_bytes (dataSize_ parser))
                                 (frame_bytes_ s')) 2)
               (numChannels (fmt_ parser)))).
Proof.
  intros W D. unfold Open_prime. cbv zeta.
  cbn [frame_bytes_ set_frame_bytes channels file_info_ set_file_info
       data_size_bytes data_start samplerate].
  set (fb := usz (numChannels (fmt_ parser)
                  * udiv (bitsPerSample (fmt_ parser)) 8)).
  assert (Fb : 0 <= fb) by (unfold fb, usz; apply Z.mod_pos_bound; lia).
  destruct (Z.eqb_spec fb 0) as [Z0|NZ]; [discriminate|].
  assert (Rd : round_down (Z.min workspace_bytes (dataSize_ parser)) fb
               = Z.min workspace_bytes (dataSize_ parser)
                 - umod (Z.min workspace_bytes (dataSize_ parser)) fb).
  { unfold round_down, umod. destruct (Z.gtb_spec fb 0); [reflexivity|lia]. }
  pose proof (Z.mod_pos_bound (Z.min workspace_bytes (dataSize_ parser)) fb
                ltac:(lia)) as Md.
  destruct (f_lseek _ _) as [sta f].
  destruct (is_FR_OK sta); cbn [negb]; [|discriminate].
  cbn [frame_bytes_ set_buff_raw set_file set_frame_bytes set_file_info].
  rewrite <- Rd.
  set (btr := round_down (Z.min workspace_bytes (dataSize_ parser)) fb) in *.
  assert (Bt : 0 <= btr <= Z.min workspace_bytes (dataSize_ parser)).
  { pose proof (Z.mod_le (Z.min workspace_bytes (dataSize_ parser)) fb
                  ltac:(lia) ltac:(lia)). unfold umod in Rd. lia. }
  assert (Fit : forall n (q : FIFO Z),
             0 <= n <= btr ->
             Nat.min (Z.to_nat (round_down (udiv n 2)
                                  (numChannels (fmt_ parser))))
                     (Z.to_nat (kRxSizeSamples workspace_bytes
                                - GetNumElements (Clear q)))
             = Z.to_nat (round_down (udiv n 2)
                           (numChannels (fmt_ parser)))).
  { intros n q Hn. apply Nat.min_l.
    pose proof (round_down_le (udiv n 2) (numChannels (fmt_ parser))).
    unfold kRxSizeSamples, udiv, GetNumElements in *. cbn.
    assert (n / 2 <= workspace_bytes / 2)
      by (apply Z.div_le_mono; lia).
    lia. }
  destruct (Z.gtb_spec btr 0) as [Pos|NPos].
  - destruct (f_read _ _) as [[sta2 bytes] f2].
    destruct (is_FR_OK sta2); cbn [negb]; [|discriminate].
    destruct (Z.eqb_spec (Z.of_nat (length bytes)) btr) as [Len|];
      cbn [negb]; [|discriminate].
    rewrite Len. rewrite push_raw_spec. intros [= <-].
    cbn [file_info_ frame_bytes_ position_ pending_read_req_
         pending_seek_req_ bytes_left_in_chunk_ buff_fifo_ buff_raw_
         set_bytes_left_in_chunk set_pending_seek_req set_pending_read_req
         set_position set_buff_fifo set_buff_raw set_file set_frame_bytes
         set_file_info snd app].
    fold btr. unfold umod.
    fold (round_down (udiv btr 2) (numChannels (fmt_ parser))).
    rewrite Fit by lia.
    repeat split; try reflexivity; try lia.
    + f_equal. unfold fb. do 2 f_equal. apply Z.mul_comm.
    + destruct (Z.leb_spec btr (dataSize_ parser)); lia.
  - assert (B0 : btr = 0) by lia.
    rewrite push_raw_spec. intros [= <-].
    cbn [file_info_ frame_bytes_ position_ pending_read_req_
         pending_seek_req_ bytes_left_in_chunk_ buff_fifo_ buff_raw_
         set_bytes_left_in_chunk set_pending_seek_req set_pending_read_req
         set_position set_buff_fifo set_buff_raw set_file set_frame_bytes
         set_file_info snd app].
    fold btr. unfold umod. rewrite B0.
    fold (round_down (udiv 0 2) (numChannels (fmt_ parser))).
    rewrite Fit by lia.
    repeat split; try reflexivity; try lia.
    + f_equal. unfold fb. do 2 f_equal. apply Z.mul_comm.
    + destruct (Z.leb_spec 0 (dataSize_ parser)); lia.
Qed.

Lemma Open_prime_is_open s parser :
  is_open_ (snd (Open_prime workspace_bytes s parser)) = is_open_ s.
Proof.
  unfold Open_prime. cbv zeta.
  repeat match goal with
         | |- context [match ?x with _ => _ end] => destruct x eqn:?
         end; reflexivity.
Qed.

(** X11.  What a successful [Open] leaves: the file marked open, the
    position at 0, no request pending, a non-zero frame size, the length
    in frames the size of the data chunk divided by the frame size; of the
    data chunk, the largest whole number of frames that fits the transfer
    buffer has been read, the rest is what remains in the chunk, and the
    ring buffer holds exactly the samples read, in whole frames of
    [channels] samples: priming never overruns the ring buffer. *)
Theorem Open_success_primes_buffer fuel s name s' :
  0 <= workspace_bytes ->
  Open workspace_bytes fuel s name = Some (Ok, s') ->
  let size := data_size_bytes (file_info_ s') in
  let primed := round_down (Z.min workspace_bytes size) (frame_bytes_ s') in
  is_open_ s' = true
  /\ position_ s' = 0
  /\ pending_read_req_ s' = false
  /\ pending_seek_req_ s' = false
  /\ 0 < frame_bytes_ s'
  /\ 0 <= size < 2 ^ 32
  /\ length_ (file_info_ s') = udiv size (frame_bytes_ s')
  /\ bytes_left_in_chunk_ s' = size - primed
  /\ buff_fifo_ s'
     = raw_samples (buff_raw_ s') 0
         (Z.to_nat (round_down (udiv primed 2) (channels (file_info_ s')))).
Proof.
  intros W. unfold Open. cbv zeta.
  destruct (f_open _ name) as [sta f].
  destruct sta; try discriminate.
  destruct (parse _ _ _) as [[[ok parser] reader]|] eqn:Pa; [|discriminate].
  destruct ok; cbn [negb]; [|discriminate].
  intros [= E].
  pose proof (parse_dataSize_range _ _ _ _ _ _ Pa) as D.
  match type of E with Open_prime _ ?u ?p = _ =>
    pose proof (Open_prime_is_open u p) as IO
  end.
  rewrite E in IO. cbn in IO.
  apply Open_prime_primes in E; [|exact W|lia].
  destruct E as (Fi & _ & Fb & Po & Pr & Ps & Bl & Bf).
  rewrite Fi. cbn [data_size_bytes length_ channels].
  repeat split; auto; lia.
Qed.

End OpenMore.

(** * Little-endian decoding *)

Section Decoding.

Lemma lor_shiftl_add a b n :
  0 <= n -> 0 <= a < 2 ^ n -> Z.lor a (Z.shiftl b n) = a + b * 2 ^ n.
Proof.
  intros Hn Ha. rewrite Z.shiftl_mul_pow2 by exact Hn.
  assert (Z.land a (b * 2 ^ n) = 0) as Disjoint.
  { apply Z.bits_inj'. intros i Hi. rewrite Z.land_spec, Z.bits_0.
    destruct (Z.lt_ge_cases i n) as [Lo|Hi'].
    - rewrite (Z.mul_pow2_bits_low b n i) by lia. apply andb_false_r.
    - destruct (Z.eq_dec a 0) as [->|NZ]; [now rewrite Z.bits_0|].
      rewrite (Z.bits_above_log2 a i); [reflexivity|lia|].
      assert (Z.log2 a < n) by (apply Z.log2_lt_pow2; lia). lia. }
  rewrite <- Z.lxor_lor by exact Disjoint.
  symmetry. now apply Z.add_nocarry_lxor.
Qed.

Lemma byte_at_range b i : 0 <= byte_at b i < 256.
Proof.
  unfold byte_at, u8. pose proof (Byte.to_N_bounded (nth i b x00)). lia.
Qed.

Lemma lor_bytes b0 b1 b2 b3 :
  0 <= b0 < 256 -> 0 <= b1 < 256 -> 0 <= b2 < 256 -> 0 <= b3 < 256 ->
  Z.lor (Z.lor (Z.lor b0 (Z.shiftl b1 8)) (Z.shiftl b2 16)) (Z.shiftl b3 24)
  = b0 + 2 ^ 8 * b1 + 2 ^ 16 * b2 + 2 ^ 24 * b3.
Proof.
  intros R0 R1 R2 R3.
  rewrite (lor_shiftl_add b0 _ 8) by lia.
  rewrite (lor_shiftl_add _ _ 16) by lia.
  rewrite (lor_shiftl_add _ _ 24) by lia. lia.
Qed.

(** X17.  [rd_u16] and [rd_u32] decode little-endian: the byte at the
    lowest offset is the least significant, and no byte is lost to the
    wrap-around of the result type. *)
Theorem rd_u32_little_endian b off :
  rd_u32 b off
  = byte_at b off + 2 ^ 8 * byte_at b (off + 1)
    + 2 ^ 16 * byte_at b (off + 2) + 2 ^ 24 * byte_at b (off + 3)
  /\ rd_u16 b off = byte_at b off + 2 ^ 8 * byte_at b (off + 1).
Proof.
  pose proof (byte_at_range b off).
  pose proof (byte_at_range b (off + 1)).
  pose proof (byte_at_range b (off + 2)).
  pose proof (byte_at_range b (off + 3)).
  unfold rd_u32, rd_u16, u32, u16.
  rewrite lor_bytes by assumption.
  rewrite (lor_shiftl_add (byte_at b off) _ 8) by lia.
  split; (rewrite Z.mod_small; [lia|lia]).
Qed.

Lemma u8_byte_of_ascii c : u8 (byte_of_ascii c) = ascii_code c.
Proof.
  unfold u8, ascii_code. f_equal.
  destruct c as [[] [] [] [] [] [] [] []]; reflexivity.
Qed.

Lemma ascii_code_range c : 0 <= ascii_code c < 256.
Proof.
  rewrite <- u8_byte_of_ascii.
  unfold u8. pose proof (Byte.to_N_bounded (byte_of_ascii c)). lia.
Qed.

(** X18.  A chunk identifier read from the file equals the constant
    [make_fourcc a b c d] exactly when the four bytes are the characters
    [a], [b], [c], [d] in this order. *)
Theorem make_fourcc_matches_file_order a b c d (buf : list byte) off :
  rd_u32 buf off = make_fourcc a b c d
  <-> nth off buf x00 = byte_of_ascii a
      /\ nth (off + 1) buf x00 = byte_of_ascii b
      /\ nth (off + 2) buf x00 = byte_of_ascii c
      /\ nth (off + 3) buf x00 = byte_of_ascii d.
Proof.
  assert (Inj : forall x y, u8 x = u8 y -> x = y).
  { intros x y E. unfold u8 in E. apply N2Z.inj in E.
    assert (Some x = Some y) as S
      by (now rewrite <- (Byte.of_to_N x), <- (Byte.of_to_N y), E).
    congruence. }
  pose proof (byte_at_range buf off) as R0.
  pose proof (byte_at_range buf (off + 1)) as R1.
  pose proof (byte_at_range buf (off + 2)) as R2.
  pose proof (byte_at_range buf (off + 3)) as R3.
  pose proof (ascii_code_range a) as Ra.
  pose proof (ascii_code_range b) as Rb.
  pose proof (ascii_code_range c) as Rc.
  pose proof (ascii_code_range d) as Rd.
  unfold rd_u32, make_fourcc, u32.
  rewrite !lor_bytes by assumption.
  rewrite Z.mod_small by lia.
  unfold byte_at in *.
  split.
  - intros E.
    assert (u8 (nth off buf x00) = ascii_code a
            /\ u8 (nth (off + 1) buf x00) = ascii_code b
            /\ u8 (nth (off + 2) buf x00) = ascii_code c
            /\ u8 (nth (off + 3) buf x00) = ascii_code d) as (A & B & C & D)
      by lia.
    rewrite <- !u8_byte_of_ascii in A, B, C, D.
    auto.
  - intros (-> & -> & -> & ->). now rewrite !u8_byte_of_ascii.
Qed.

End Decoding.

(** * The file table *)

Section FileTableFacts.
Import FileTable.

Lemma CaseInsensitiveCmp_values a : forall b,
  CaseInsensitiveCmp a b = -1 \/ CaseInsensitiveCmp a b = 0
  \/ CaseInsensitiveCmp a b = 1.
Proof.
  induction a as [|ca a IH]; intros [|cb b]; cbn [CaseInsensitiveCmp Z.opp]; auto.
  destruct (_ =? _); cbn [negb]; [apply IH|].
  destruct (_ <? _); auto.
Qed.

Lemma CaseInsensitiveCmp_flip a : forall b,
  CaseInsensitiveCmp b a = - CaseInsensitiveCmp a b.
Proof.
  induction a as [|ca a IH]; intros [|cb b]; cbn [CaseInsensitiveCmp Z.opp]; auto.
  destruct (Z.eqb_spec (tolower (u8 ca)) (tolower (u8 cb))) as [E|N];
    destruct (Z.eqb_spec (tolower (u8 cb)) (tolower (u8 ca))) as [E'|N'];
    cbn [negb]; try congruence.
  destruct (Z.ltb_spec (tolower (u8 ca)) (tolower (u8 cb)));
    destruct (Z.ltb_spec (tolower (u8 cb)) (tolower (u8 ca))); lia.
Qed.

Lemma CaseInsensitiveCmp_zero a : forall b,
  CaseInsensitiveCmp a b = 0 <-> folded a = folded b.
Proof.
  induction a as [|ca a IH]; intros [|cb b]; cbn [CaseInsensitiveCmp folded map];
    try (split; congruence);
    try (split; [lia|discriminate]).
  destruct (Z.eqb_spec (tolower (u8 ca)) (tolower (u8 cb))) as [E|N];
    cbn [negb].
  - rewrite IH. unfold folded. split; [intros ->; now rewrite E|].
    now intros [= _ ->].
  - split; [destruct (_ <? _); lia|]. intros [= E _]. contradiction.
Qed.

Lemma CaseInsensitiveCmp_trans a : forall b c,
  CaseInsensitiveCmp a b <= 0 -> CaseInsensitiveCmp b c <= 0 ->
  CaseInsensitiveCmp a c <= 0.
Proof.
  induction a as [|ca a IH]; intros [|cb b] [|cc c]; cbn [CaseInsensitiveCmp]; try lia.
  destruct (Z.eqb_spec (tolower (u8 ca)) (tolower (u8 cb))) as [E1|N1];
    destruct (Z.eqb_spec (tolower (u8 cb)) (tolower (u8 cc))) as [E2|N2];
    destruct (Z.eqb_spec (tolower (u8 ca)) (tolower (u8 cc))) as [E3|N3];
    cbn [negb]; try lia; try apply IH;
    repeat match goal with
           | |- context [?x <? ?y] => destruct (Z.ltb_spec x y)
           end; try lia.
Qed.

(** *** SortTable *)

Lemma drop_insert_here {A} (l : list A) i x :
  (i < length l)%nat -> drop i (<[i := x]> l) = x :: drop (S i) l.
Proof.
  intros Lt. rewrite (insert_take_drop l i x Lt).
  rewrite drop_app_length' by (rewrite length_take; lia). reflexivity.
Qed.

Lemma SortTable_insert_spec j : forall tbl key,
  (j < length tbl)%nat ->
  exists k,
    (k <= j)%nat
    /\ SortTable_insert tbl key j
       = take k tbl ++ key :: drop k (take j tbl) ++ drop (S j) tbl
    /\ Forall (fun x => CaseInsensitiveCmp (name x) (name key) > 0)
              (drop k (take j tbl))
    /\ (forall p, (0 < k)%nat -> tbl !! (k - 1)%nat = Some p ->
                  CaseInsensitiveCmp (name p) (name key) <= 0).
Proof.
  induction j as [|j IH]; intros tbl key Lt.
  - exists 0%nat. cbn [SortTable_insert]. split; [lia|].
    split; [|split; [constructor|intros; lia]].
    destruct tbl as [|x tbl]; [cbn in Lt; lia|]. cbn. now rewrite drop_0.
  - cbn [SortTable_insert].
    destruct (lookup_lt_is_Some_2 tbl j ltac:(lia)) as [prev Pv].
    rewrite Pv.
    assert (Stop : exists k,
               (k <= S j)%nat
               /\ <[S j := key]> tbl
                  = take k tbl ++ key :: drop k (take (S j) tbl)
                    ++ drop (S (S j)) tbl
               /\ Forall (fun x => CaseInsensitiveCmp (name x) (name key) > 0)
                         (drop k (take (S j) tbl))
               /\ (forall p, (0 < k)%nat -> tbl !! (k - 1)%nat = Some p ->
                             CaseInsensitiveCmp (name prev) (name key) <= 0 ->
                             CaseInsensitiveCmp (name p) (name key) <= 0)).
    { exists (S j). split; [lia|].
      rewrite drop_ge by (rewrite length_take; lia). cbn [app].
      split; [now apply insert_take_drop|].
      split; [constructor|].
      intros p _. replace (S j - 1)%nat with j by lia. rewrite Pv.
      now intros [= ->]. }
    destruct (Z.gtb_spec (CaseInsensitiveCmp (name prev) (name key)) 0)
      as [Gt|Le].
    + destruct (IH (<[S j := prev]> tbl) key) as (k & Kj & E & All & Bef).
      { rewrite length_insert. lia. }
      exists k. split; [lia|].
      rewrite take_insert_ge in E, All by lia.
      rewrite take_insert_ge in E by lia.
      rewrite (take_S_r tbl j prev Pv).
      rewrite drop_app_le by (rewrite length_take; lia).
      split.
      * rewrite E, drop_insert_here by lia.
        rewrite <- !app_assoc. reflexivity.
      * split.
        -- apply Forall_app. split; [exact All|]. constructor; [lia|constructor].
        -- intros p Kp Lp. apply (Bef p Kp).
           rewrite list_lookup_insert_ne by lia. exact Lp.
    + destruct Stop as (k & Kj & E & All & Bef).
      exists k. repeat split; auto.
Qed.

Lemma take_add_split {A} n m : forall l : list A,
  take (n + m) l = take n l ++ take m (drop n l).
Proof.
  induction n as [|n IH]; intros [|x l]; cbn; try reflexivity.
  - now rewrite take_nil.
  - now rewrite IH.
Qed.

Lemma short_sorted (l : list FileInfo) :
  (length l <= 1)%nat -> StronglySorted name_le l.
Proof.
  destruct l as [|x [|y l]]; cbn; intros L; try lia; repeat constructor.
Qed.

Lemma name_le_trans x y z : name_le x y -> name_le y z -> name_le x z.
Proof. unfold name_le. apply CaseInsensitiveCmp_trans. Qed.

(** One pass of the [for] loop of [SortTable]. *)
Lemma SortTable_pass tbl i key :
  tbl !! i = Some key ->
  StronglySorted name_le (take i tbl) ->
  length (SortTable_insert tbl key i) = length tbl
  /\ drop (S i) (SortTable_insert tbl key i) = drop (S i) tbl
  /\ take (S i) (SortTable_insert tbl key i) ≡ₚ take (S i) tbl
  /\ StronglySorted name_le (take (S i) (SortTable_insert tbl key i))
  /\ forall a,
       List.filter (same_name a) (take (S i) (SortTable_insert tbl key i))
       = List.filter (same_name a) (take (S i) tbl).
Proof.
  intros Key Sorted.
  pose proof (lookup_lt_Some _ _ _ Key) as Lt.
  destruct (SortTable_insert_spec i tbl key Lt) as (k & Ki & E & All & Bef).
  assert (Split : take i tbl = take k tbl ++ drop k (take i tbl)).
  { rewrite <- (take_drop k (take i tbl)) at 1.
    rewrite take_take. now replace (k `min` i)%nat with k by lia. }
  assert (Len : length (take k tbl ++ key :: drop k (take i tbl)) = S i).
  { rewrite length_app. cbn [length]. rewrite length_drop, !length_take. lia. }
  rewrite E.
  replace (take k tbl ++ key :: drop k (take i tbl) ++ drop (S i) tbl)
    with ((take k tbl ++ key :: drop k (take i tbl)) ++ drop (S i) tbl)
    by (now rewrite <- app_assoc).
  rewrite (take_app_length' _ _ (S i)) by (now rewrite Len).
  rewrite (drop_app_length' _ _ (S i)) by (now rewrite Len).
  rewrite (take_S_r tbl i key Key).
  split.
  { rewrite length_app, Len, length_drop. lia. }
  split; [reflexivity|].
  split.
  { rewrite Split at 2. rewrite <- app_assoc.
    apply Permutation_app_head. apply Permutation_cons_append. }
  rewrite Split in Sorted. apply StronglySorted_app in Sorted.
  destruct Sorted as (Cross & S1 & S2).
  split.
  { apply StronglySorted_app. split; [|split; [exact S1|]].
    - intros x y Hx Hy. apply elem_of_cons in Hy. destruct Hy as [->|Hy];
        [|now apply Cross].
      destruct (decide (k = 0)%nat) as [->|NZ];
        [rewrite take_0 in Hx; now apply elem_of_nil in Hx|].
      destruct (lookup_lt_is_Some_2 tbl (k - 1) ltac:(lia)) as [p Hp].
      pose proof (Bef p ltac:(lia) Hp) as Pk.
      apply list_elem_of_lookup in Hx. destruct Hx as [n Hn].
      pose proof (lookup_lt_Some _ _ _ Hn) as Ln. rewrite length_take in Ln.
      destruct (decide (n = k - 1)%nat) as [->|Ne].
      + rewrite lookup_take_lt in Hn by lia. rewrite Hp in Hn.
        injection Hn as <-. exact Pk.
      + apply (name_le_trans x p key); [|exact Pk].
        assert (Tk : take k tbl = take (k - 1) (take k tbl) ++ [p]).
        { rewrite take_take.
          replace ((k - 1) `min` k)%nat with (k - 1)%nat by lia.
          replace k with (S (k - 1)) at 1 by lia.
          now apply take_S_r. }
        rewrite Tk in S1.
        apply (StronglySorted_app_1_elem_of _ _ _ x p S1).
        * apply list_elem_of_lookup. exists n.
          rewrite lookup_take_lt by lia. exact Hn.
        * apply list_elem_of_singleton. reflexivity.
    - constructor; [exact S2|].
      eapply Forall_impl; [exact All|]. intros y Gy. unfold name_le.
      rewrite CaseInsensitiveCmp_flip. cbn beta in Gy. lia. }
  intros a. rewrite Split at 2. rewrite <- app_assoc.
  rewrite !List.filter_app. f_equal. cbn [List.filter].
  destruct (same_name a key) eqn:Sk.
  - assert (None : List.filter (same_name a) (drop k (take i tbl)) = []).
    { clear - All Sk. induction All as [|y l Gy _ IH]; [reflexivity|].
      cbn [List.filter]. rewrite IH.
      destruct (same_name a y) eqn:Sy; [|reflexivity].
      unfold same_name in Sk, Sy. apply Z.eqb_eq in Sk, Sy.
      pose proof (CaseInsensitiveCmp_trans (name y) a (name key)
                    ltac:(lia)
                    ltac:(rewrite CaseInsensitiveCmp_flip; lia)).
      lia. }
    rewrite None. reflexivity.
  - now rewrite app_nil_r.
Qed.

Lemma SortTable_from_spec passes : forall tbl i,
  (i + passes <= length tbl)%nat ->
  StronglySorted name_le (take i tbl) ->
  length (SortTable_from tbl i passes) = length tbl
  /\ drop (i + passes) (SortTable_from tbl i passes) = drop (i + passes) tbl
  /\ take (i + passes) (SortTable_from tbl i passes)
     ≡ₚ take (i + passes) tbl
  /\ StronglySorted name_le (take (i + passes) (SortTable_from tbl i passes))
  /\ forall a,
       List.filter (same_name a)
                   (take (i + passes) (SortTable_from tbl i passes))
       = List.filter (same_name a) (take (i + passes) tbl).
Proof.
  induction passes as [|passes IH]; intros tbl i Le Sorted;
    cbn [SortTable_from].
  - rewrite Nat.add_0_r. repeat split; auto.
  - destruct (lookup_lt_is_Some_2 tbl i ltac:(lia)) as [key Key].
    rewrite Key.
    destruct (SortTable_pass tbl i key Key Sorted)
      as (Len & Rest & Perm & Srt & Stable).
    destruct (IH (SortTable_insert tbl key i) (S i)
                ltac:(rewrite Len; lia) Srt)
      as (Len' & Rest' & Perm' & Srt' & Stable').
    replace (i + S passes)%nat with (S i + passes)%nat by lia.
    assert (Tk : forall l : list FileInfo,
               take (S i + passes) l
               = take (S i) l ++ take passes (drop (S i) l))
      by (intros; apply take_add_split).
    split; [congruence|].
    split.
    { rewrite Rest'. rewrite <- !drop_drop. now rewrite Rest. }
    split.
    { rewrite Perm'. rewrite (Tk (SortTable_insert tbl key i)), (Tk tbl).
      rewrite Rest. now apply Permutation_app_tail. }
    split; [exact Srt'|].
    intros a. rewrite Stable'.
    rewrite (Tk (SortTable_insert tbl key i)), (Tk tbl).
    rewrite !List.filter_app, Rest, Stable. reflexivity.
Qed.

Lemma SortTable_spec {DIR} (t : FileTable DIR) :
  (Z.to_nat (num_files_found t) <= length (table t))%nat ->
  num_files_found (SortTable t) = num_files_found t
  /\ dir (SortTable t) = dir t
  /\ length (table (SortTable t)) = length (table t)
  /\ drop (Z.to_nat (num_files_found t)) (table (SortTable t))
     = drop (Z.to_nat (num_files_found t)) (table t)
  /\ take (Z.to_nat (num_files_found t)) (table (SortTable t))
     ≡ₚ take (Z.to_nat (num_files_found t)) (table t)
  /\ StronglySorted name_le
       (take (Z.to_nat (num_files_found t)) (table (SortTable t)))
  /\ forall a,
       List.filter (same_name a)
         (take (Z.to_nat (num_files_found t)) (table (SortTable t)))
       = List.filter (same_name a)
           (take (Z.to_nat (num_files_found t)) (table t)).
Proof.
  intros Le. unfold SortTable.
  destruct (Z.ltb_spec (num_files_found t) 2) as [Lt|Ge].
  - repeat split; auto.
    apply short_sorted. rewrite length_take. lia.
  - cbn [num_files_found dir table set_table].
    destruct (SortTable_from_spec (Z.to_nat (num_files_found t) - 1)
                (table t) 1 ltac:(lia)
                ltac:(apply short_sorted; rewrite length_take; lia))
      as (Len & Rest & Perm & Srt & Stable).
    replace (1 + (Z.to_nat (num_files_found t) - 1))%nat
      with (Z.to_nat (num_files_found t)) in * by lia.
    repeat split; auto.
Qed.

(** X12.  The comparison of [SortTable] is a total preorder on names: it
    returns -1, 0 or 1, exchanging the arguments negates the result, the
    relation "not greater" is transitive, and the result is 0 exactly for
    names that are equal once upper-case ASCII letters are folded to
    lower case. *)
Theorem CaseInsensitiveCmp_total_preorder a b c :
  (CaseInsensitiveCmp a b = -1 \/ CaseInsensitiveCmp a b = 0
   \/ CaseInsensitiveCmp a b = 1)
  /\ CaseInsensitiveCmp b a = - CaseInsensitiveCmp a b
  /\ (CaseInsensitiveCmp a b <= 0 -> CaseInsensitiveCmp b c <= 0 ->
      CaseInsensitiveCmp a c <= 0)
  /\ (CaseInsensitiveCmp a b = 0 <-> folded a = folded b).
Proof.
  split; [apply CaseInsensitiveCmp_values|].
  split; [apply CaseInsensitiveCmp_flip|].
  split; [apply CaseInsensitiveCmp_trans|apply CaseInsensitiveCmp_zero].
Qed.

(** X13.  [SortTable] sorts the first [num_files_found] slots of the table
    by name, case-insensitively: afterwards these slots hold the entries
    they held before, every entry before another has a name not greater in
    the order of [CaseInsensitiveCmp], and the slots after them, the count
    and the length of the table are as before. *)
Theorem SortTable_sorts {DIR} (t : FileTable DIR) :
  (Z.to_nat (num_files_found t) <= length (table t))%nat ->
  StronglySorted name_le
    (take (Z.to_nat (num_files_found t)) (table (SortTable t)))
  /\ take (Z.to_nat (num_files_found t)) (table (SortTable t))
     ≡ₚ take (Z.to_nat (num_files_found t)) (table t)
  /\ drop (Z.to_nat (num_files_found t)) (table (SortTable t))
     = drop (Z.to_nat (num_files_found t)) (table t)
  /\ length (table (SortTable t)) = length (table t)
  /\ num_files_found (SortTable t) = num_files_found t.
Proof.
  intros Le.
  destruct (SortTable_spec t Le) as (N & _ & Len & Rest & Perm & Srt & _).
  auto.
Qed.

(** X14.  [SortTable] is stable: the entries whose names are equal up to
    the case of ASCII letters keep the order they had in the table. *)
Theorem SortTable_stable {DIR} (t : FileTable DIR) a :
  (Z.to_nat (num_files_found t) <= length (table t))%nat ->
  List.filter (same_name a)
    (take (Z.to_nat (num_files_found t)) (table (SortTable t)))
  = List.filter (same_name a)
      (take (Z.to_nat (num_files_found t)) (table t)).
Proof.
  intros Le. now destruct (SortTable_spec t Le) as (_ & _ & _ & _ & _ & _ & S).
Qed.

(** *** Fill *)

Lemma lists_accepted {DIR} `{FatFsDir DIR} len endswith (d d' : DIR) res fno0 e :
  f_readdir d = (res, fno0, d') ->
  accepted len endswith d' e -> accepted len endswith d e.
Proof.
  intros Rd (fno & L & Rest). exists fno. split; [|exact Rest].
  eapply lists_later; eauto.
Qed.

Lemma Fill_loop_spec {DIR} `{FatFsDir DIR} max_slots len endswith fuel :
  forall (d : DIR) tbl cnt res d' tbl' cnt',
  0 < max_slots < 2 ^ 32 ->
  0 <= cnt < max_slots ->
  (Z.to_nat max_slots <= length tbl)%nat ->
  Fill_loop max_slots len fuel d tbl cnt endswith
  = Some (res, d', tbl', cnt') ->
  cnt <= cnt' <= max_slots
  /\ length tbl' = length tbl
  /\ take (Z.to_nat cnt) tbl' = take (Z.to_nat cnt) tbl
  /\ drop (Z.to_nat cnt') tbl' = drop (Z.to_nat cnt') tbl
  /\ Forall (accepted len endswith d)
            (drop (Z.to_nat cnt) (take (Z.to_nat cnt') tbl')).
Proof.
  induction fuel as [|fuel IH]; intros d tbl cnt res d' tbl' cnt' M C L;
    cbn [Fill_loop]; [discriminate|].
  destruct (f_readdir d) as [[res0 fno] d1] eqn:Rd.
  assert (Wrap : usz (max_slots - 1) = max_slots - 1)
    by (unfold usz; apply Z.mod_small; lia).
  assert (Inc : usz (cnt + 1) = cnt + 1)
    by (unfold usz; apply Z.mod_small; lia).
  unfold kMaxFileSlots. rewrite Wrap, Inc.
  destruct (fname fno) as [|c0 cs] eqn:Fn.
  { intros [= <- <- <- <-]. split; [lia|]. split; [reflexivity|].
    split; [reflexivity|]. split; [reflexivity|].
    rewrite drop_ge by (rewrite length_take; lia). constructor. }
  destruct (valid_file_attrs fno && valid_size fno && valid_name len fno endswith)
    eqn:Valid.
  - apply andb_prop in Valid. destruct Valid as [Valid Vn].
    apply andb_prop in Valid. destruct Valid as [Va Vs].
    set (e := mkFileInfo (c0 :: cs) (usz (fsize fno))).
    assert (Acc : accepted len endswith d e).
    { exists fno. split; [eapply lists_here; eauto|].
      rewrite Fn. repeat split; auto; discriminate. }
    assert (Here : <[Z.to_nat cnt := e]> tbl !! Z.to_nat cnt = Some e)
      by (apply list_lookup_insert_eq; lia).
    destruct (Z.gtb_spec (cnt + 1) (max_slots - 1)) as [Full|Room].
    + intros [= <- <- <- <-]. split; [lia|].
      split; [apply length_insert|].
      split; [apply take_insert_ge; lia|].
      split; [apply drop_insert_lt; lia|].
      replace (Z.to_nat (cnt + 1)) with (S (Z.to_nat cnt)) by lia.
      rewrite (take_S_r _ _ _ Here).
      rewrite drop_app_length' by (rewrite length_take, length_insert; lia).
      constructor; [exact Acc|constructor].
    + intros E.
      apply IH in E; [|lia|lia|rewrite length_insert; lia].
      destruct E as (Cn & Len & Tk & Dr & All).
      rewrite length_insert in Len.
      replace (Z.to_nat (cnt + 1)) with (S (Z.to_nat cnt)) in * by lia.
      assert (At : tbl' !! Z.to_nat cnt = Some e).
      { rewrite <- (lookup_take_lt tbl' (S (Z.to_nat cnt))) by lia.
        rewrite Tk. rewrite lookup_take_lt by lia. exact Here. }
      split; [lia|]. split; [exact Len|].
      split.
      { assert (TT : forall l : list FileInfo,
                   take (Z.to_nat cnt) l
                   = take (Z.to_nat cnt) (take (S (Z.to_nat cnt)) l))
          by (intros; rewrite take_take; f_equal; lia).
        rewrite (TT tbl'), Tk, <- TT. apply take_insert_ge. lia. }
      split.
      { rewrite Dr. apply drop_insert_lt. lia. }
      assert (At' : take (Z.to_nat cnt') tbl' !! Z.to_nat cnt = Some e)
        by (rewrite lookup_take_lt by lia; exact At).
      rewrite (drop_S _ _ _ At').
      constructor; [exact Acc|].
      eapply Forall_impl; [exact All|].
      intros x. now apply (lists_accepted len endswith d d1 res0 fno).
  - destruct (Z.gtb_spec cnt (max_slots - 1)) as [Full|Room]; [lia|].
    intros E. apply IH in E; [|lia|lia|exact L].
    destruct E as (Cn & Len & Tk & Dr & All).
    repeat split; auto; try lia.
    eapply Forall_impl; [exact All|].
    intros x. now apply (lists_accepted len endswith d d1 res0 fno).
Qed.

Lemma starts_with_iff n : forall h,
  starts_with h n = true <-> exists post, h = n ++ post.
Proof.
  induction n as [|c n IH]; intros h.
  - split; [intros _; now exists h|now destruct h].
  - destruct h as [|d h]; cbn [starts_with].
    + split; [discriminate|]. intros [post E]. discriminate.
    + rewrite andb_true_iff, IH. split.
      * intros [Eq [post ->]]. apply Byte.byte_dec_bl in Eq. subst d.
        now exists post.
      * intros [post [= -> ->]]. split; [now apply Byte.byte_dec_lb|].
        now exists post.
Qed.

Lemma strstr_iff n : forall h,
  strstr h n = true <-> exists pre post, h = pre ++ n ++ post.
Proof.
  induction h as [|d h IH]; cbn [strstr]; rewrite orb_true_iff.
  - rewrite starts_with_iff. split.
    + intros [[post E]|]; [|discriminate]. now exists [], post.
    + intros ([|x pre] & post & E); [|discriminate]. left. now exists post.
  - rewrite starts_with_iff, IH. split.
    + intros [[post E]|(pre & post & E)].
      * now exists [], post.
      * exists (d :: pre), post. cbn. now rewrite E.
    + intros ([|x pre] & post & E).
      * left. now exists post.
      * right. injection E as -> E. now exists pre, post.
Qed.

(** X15.  What [Fill] leaves in the table when it is given a path: at most
    [max_slots] entries, so that no write goes past the last slot; the
    entries sorted by name; each of them made from an entry that the
    directory lists, with a non-empty name, none of the attributes hidden,
    system and directory, a size above 0 and an accepted name; the slots
    after them as they were.  It answers [true] only if the directory
    could be opened. *)
Theorem Fill_fills_sorted_table {DIR} `{FatFsDir DIR} max_slots len fuel
        (t : FileTable DIR) path endswith ok t' :
  0 < max_slots < 2 ^ 32 ->
  length (table t) = Z.to_nat max_slots ->
  Fill max_slots len fuel t (Some path) endswith = Some (ok, t') ->
  0 <= num_files_found t' <= max_slots
  /\ length (table t') = length (table t)
  /\ StronglySorted name_le
       (take (Z.to_nat (num_files_found t')) (table t'))
  /\ Forall (accepted len endswith (snd (f_opendir (dir t) path)))
            (take (Z.to_nat (num_files_found t')) (table t'))
  /\ drop (Z.to_nat (num_files_found t')) (table t')
     = drop (Z.to_nat (num_files_found t')) (table t)
  /\ (ok = true -> is_FR_OK (fst (f_opendir (dir t) path)) = true).
Proof.
  intros M L. unfold Fill.
  destruct (f_opendir (dir t) path) as [res d]. cbn [fst snd].
  destruct (is_FR_OK res).
  - cbn [dir table set_dir].
    destruct (Fill_loop _ _ _ _ _ _ _) as [[[[res1 d1] tbl] cnt]|] eqn:Loop;
      [|discriminate].
    intros [= <- <-].
    apply Fill_loop_spec in Loop; [|lia|lia|lia].
    destruct Loop as (Cn & Len & _ & Dr & All).
    rewrite drop_0 in All.
    match goal with |- context [SortTable ?u] =>
      destruct (SortTable_spec u) as (N & _ & Len' & Rest & Perm & Srt & _)
    end.
    { cbn. lia. }
    cbn [num_files_found table set_num_files_found set_table set_dir]
      in N, Len', Rest, Perm, Srt.
    rewrite N.
    split; [lia|]. split; [congruence|]. split; [exact Srt|].
    split; [now rewrite Perm|]. split; [congruence|auto].
  - intros [= <- <-]. unfold SortTable. cbn.
    repeat split; try lia; try constructor; discriminate.
Qed.

(** X16.  The name test of [Fill] with a suffix: a name passes exactly
    when the suffix occurs somewhere in it, at its end or not, and the
    name is longer than the suffix and shorter than the longest name the
    table holds. *)
Theorem valid_name_accepts_infix len fno suffix :
  strlen suffix < 2 ^ 32 ->
  valid_name len fno (Some suffix) = true
  <-> (exists pre post, fname fno = pre ++ suffix ++ post)
      /\ strlen suffix < strlen (fname fno) < len.
Proof.
  intros Small. unfold valid_name. cbv zeta.
  assert (U : u32 (strlen suffix) = strlen suffix)
    by (unfold u32, strlen in *; apply Z.mod_small; lia).
  rewrite U, !andb_true_iff, strstr_iff.
  destruct (Z.gtb_spec (strlen (fname fno)) (strlen suffix));
    destruct (Z.ltb_spec (strlen (fname fno)) len);
    intuition (try lia; try discriminate).
Qed.

End FileTableFacts.

(** * The format of an accepted file *)

Section ParserFormat.
Context {R : Type} `{IReader R}.

Lemma parse_fmt_chunk_supported p (r : R) ch :
  fst (fst (parse_fmt_chunk p r ch)) = true ->
  supported_format (audioFormat (fmt_ (snd (fst (parse_fmt_chunk p r ch)))))
  /\ haveFmt_ (snd (fst (parse_fmt_chunk p r ch))) = true.
Proof.
  unfold parse_fmt_chunk. cbv zeta.
  destruct (ch_size ch <? 16); [discriminate|].
  destruct (read_exact r 16) as [[ok core] r1].
  destruct ok; cbn [negb]; [|discriminate].
  cbn [audioFormat].
  assert (S : negb (rd_u16 core 0 =? 1) && negb (rd_u16 core 0 =? 3)
              && negb (rd_u16 core 0 =? 65534) = false ->
              supported_format (rd_u16 core 0)).
  { unfold supported_format.
    destruct (Z.eqb_spec (rd_u16 core 0) 1); [auto|].
    destruct (Z.eqb_spec (rd_u16 core 0) 3); [auto|].
    destruct (Z.eqb_spec (rd_u16 core 0) 65534); [auto|discriminate]. }
  destruct (negb (rd_u16 core 0 =? 1) && negb (rd_u16 core 0 =? 3)
            && negb (rd_u16 core 0 =? 65534)).
  { destruct (skip_rest_of_chunk _ _ _). discriminate. }
  specialize (S eq_refl).
  repeat match goal with
         | |- context [match ?x with _ => _ end] => destruct x eqn:?
         end; cbn; intros; try discriminate; auto.
Qed.

(** The parser holds a supported format whenever [haveFmt_] is set. *)
Lemma parse_chunk_supported p (r : R) :
  (haveFmt_ p = true -> supported_format (audioFormat (fmt_ p))) ->
  match parse_chunk p r with
  | ReturnFalse _ _ => True
  | Break p' _ | NextPass p' _ =>
      haveFmt_ p' = true -> supported_format (audioFormat (fmt_ p'))
  end.
Proof.
  intros I.
  assert (Ep : forall q (d : R) ch,
             match chunk_epilogue q d ch with
             | ReturnFalse _ _ => True
             | Break p' _ | NextPass p' _ => p' = q
             end).
  { intros q d ch.
    pose proof (proj1 (chunk_epilogue_flags q d ch)) as E.
    destruct (chunk_epilogue q d ch); cbn in E; auto. }
  unfold parse_chunk, read_chunk_header, read_exact, skip_chunk_payload.
  cbv zeta.
  destruct (read r 8) as [hdr r1].
  destruct (Z.of_nat (length hdr) =? 8); cbn [negb]; [|exact Logic.I].
  cbn [ch_id ch_size].
  destruct (_ =? FOURCC_FMT).
  { pose proof (parse_fmt_chunk_supported p r1
                  (mkChunk (rd_u32 hdr 0) (rd_u32 hdr 4))) as Fm.
    destruct (parse_fmt_chunk _ _ _) as [[ok p1] r2]. cbn [fst snd] in Fm.
    destruct ok; cbn [negb]; [|exact Logic.I].
    specialize (Ep p1 r2 (mkChunk (rd_u32 hdr 0) (rd_u32 hdr 4))).
    destruct (chunk_epilogue _ _ _); [exact Logic.I| |]; subst;
      intros _; now apply Fm. }
  destruct (_ =? FOURCC_DATA).
  { destruct (seek _ _) as [ok r2].
    destruct ok; cbn [negb]; [|exact Logic.I].
    match goal with |- context [chunk_epilogue ?q ?d ?c] =>
      specialize (Ep q d c); destruct (chunk_epilogue q d c)
    end; [exact Logic.I| |]; subst; exact I. }
  destruct (seek _ _) as [ok r2].
  destruct ok; cbn [negb]; [|exact Logic.I].
  match goal with |- context [chunk_epilogue ?q ?d ?c] =>
    specialize (Ep q d c); destruct (chunk_epilogue q d c)
  end; [exact Logic.I| |]; subst;
    destruct (_ <? MAX_METADATA_CHUNKS); exact I.
Qed.

Lemma parse_loop_supported fuel : forall p (r : R) p' r',
  (haveFmt_ p = true -> supported_format (audioFormat (fmt_ p))) ->
  parse_loop fuel p r = Some (true, p', r') ->
  supported_format (audioFormat (fmt_ p')).
Proof.
  induction fuel as [|fuel IH]; intros p r p' r' I; cbn [parse_loop].
  - destruct (more_chunks p r); cbn [negb]; [discriminate|].
    intros [= E <- <-]. apply I. now apply andb_prop in E.
  - destruct (more_chunks p r); cbn [negb].
    2:{ intros [= E <- <-]. apply I. now apply andb_prop in E. }
    pose proof (parse_chunk_supported p r I) as I'.
    destruct (parse_chunk p r) as [p1 r1|p1 r1|p1 r1].
    + discriminate.
    + intros [= E <- <-]. apply I'. now apply andb_prop in E.
    + intros E. eapply IH, E. exact I'.
Qed.

(** X19.  A file that [parse] accepts has an audio format tag 1 (PCM),
    3 (IEEE float) or 0xFFFE (extensible). *)
Theorem parse_success_format_supported fuel p0 (r0 : R) p r :
  parse fuel p0 r0 = Some (true, p, r) ->
  supported_format (audioFormat (fmt_ p)).
Proof.
  unfold parse. cbv zeta.
  assert (Hd : haveFmt_ (snd (fst (read_riff_header (reset p0) r0))) = false).
  { unfold read_riff_header, read_exact.
    repeat match goal with
           | |- context [match ?x with _ => _ end] => destruct x eqn:?
           end; reflexivity. }
  destruct (read_riff_header (reset p0) r0) as [[ok p1] r1].
  cbn [fst snd] in Hd.
  destruct ok; cbn [negb]; [|discriminate].
  apply parse_loop_supported. rewrite Hd. discriminate.
Qed.

End ParserFormat.

(** Witness of X19: [ramp.wav] is PCM. *)
Lemma parse_success_format_supported_witness :
  exists p r,
    parse 16 WavParser0 (reader_of ramp_wav) = Some (true, p, r)
    /\ supported_format (audioFormat (fmt_ p)).
Proof.
  let v := eval vm_compute in (parse 16 WavParser0 (reader_of ramp_wav)) in
  match v with
  | Some (true, ?p, ?r) =>
      assert (E : parse 16 WavParser0 (reader_of ramp_wav) = Some (true, p, r))
        by (vm_compute; reflexivity);
      pose proof (parse_success_format_supported _ _ _ _ _ E) as S;
      exists p, r; split; [exact E|exact S]
  end.
Defined.

(** * The further properties on concrete files *)

(** Witness of X1: the first [Stream] call on [ramp.wav]. *)
Lemma Stream_consumes_whole_frames_witness :
  exists r out s' k,
    Stream 32 4 ramp_playing 1 = Some (r, out, s')
    /\ (k <= 4)%nat
    /\ buff_fifo_ s'
       = drop (k * Z.to_nat (channels (file_info_ ramp_playing)))
              (buff_fifo_ ramp_playing).
Proof.
  with_stream 32 4%nat ramp_playing 1 ltac:(fun r out t E =>
    destruct (Stream_consumes_whole_frames 32 _ _ _ _ _ _ E)
      as (k & K & _ & B & _);
    exists r, out, t, k; split; [exact E|split; [exact K|exact B]]).
Defined.

(** Witness of X2: the first [Stream] call on the mono [ramp.wav]. *)
Lemma Stream_performs_no_io_witness :
  exists r out s',
    Stream 32 4 ramp_playing 1 = Some (r, out, s')
    /\ file_ s' = file_ ramp_playing
    /\ buff_raw_ s' = buff_raw_ ramp_playing.
Proof.
  assert (C : channels (file_info_ ramp_playing) <= kMaxAudioChannels)
    by (vm_compute; discriminate).
  with_stream 32 4%nat ramp_playing 1 ltac:(fun r out t E =>
    destruct (Stream_performs_no_io 32 _ _ _ _ _ _ C E) as (A & B & _);
    exists r, out, t; split; [exact E|split; [exact A|exact B]]).
Defined.

(** Witness of X3: the fourth call, which wraps the position. *)
Lemma Stream_position_in_range_witness :
  exists r out s',
    Stream 32 4 (ramp_after 3) 1 = Some (r, out, s')
    /\ 0 <= position_ s' < GetDurationInSamples s'.
Proof.
  assert (P : 0 <= position_ (ramp_after 3)) by (vm_compute; discriminate).
  with_stream 32 4%nat (ramp_after 3) 1 ltac:(fun r out t E =>
    pose proof (Stream_position_in_range 32 _ _ _ _ _ _ P E) as Q;
    exists r, out, t; split; [exact E|exact Q]).
Defined.

(** Witness of X4: two output samples asked of the mono [ramp.wav] after
    two calls; the first is interpolated, the second is zero. *)
Lemma Stream_output_witness :
  exists r out s',
    Stream 32 4 (ramp_after 2) 2 = Some (r, out, s')
    /\ length out = Z.to_nat 2
    /\ out !! 0%nat
       = Some (fadd (sample_at (previous_sample_ (ramp_after 2)) 0)
                    (fmul (pos_acc_ (ramp_after 2))
                          (fsub (sample_at (current_sample_ (ramp_after 2)) 0)
                                (sample_at (previous_sample_ (ramp_after 2))
                                           0))))
    /\ out !! 1%nat = Some f0.
Proof.
  assert (C : channels (file_info_ (ramp_after 2)) <= kMaxAudioChannels)
    by (vm_compute; discriminate).
  assert (A : sample_arrays_ok (ramp_after 2))
    by (split; vm_compute; reflexivity).
  assert (C0 : negb (IsEmpty (buff_fifo_ (ramp_after 2)))
               && playing_ (ramp_after 2)
               && Nat.ltb 0
                    (Z.to_nat
                       (Z.min (channels (file_info_ (ramp_after 2))) 2))
               = true) by (vm_compute; reflexivity).
  assert (C1 : negb (IsEmpty (buff_fifo_ (ramp_after 2)))
               && playing_ (ramp_after 2)
               && Nat.ltb 1
                    (Z.to_nat
                       (Z.min (channels (file_info_ (ramp_after 2))) 2))
               = false) by (vm_compute; reflexivity).
  with_stream 32 4%nat (ramp_after 2) 2 ltac:(fun r out t E =>
    destruct (Stream_output 32 _ _ _ _ _ _ C A E) as (L & V);
    pose proof (V 0%nat ltac:(vm_compute; lia)) as V0;
    pose proof (V 1%nat ltac:(vm_compute; lia)) as V1;
    rewrite C0 in V0; rewrite C1 in V1;
    exists r, out, t;
    split; [exact E|split; [exact L|split; [exact V0|exact V1]]]).
Defined.

(** Witness of X7: [Prepare] serving the first prefetch of a looping
    [ramp.wav], which wraps around the end of the data chunk. *)
Lemma Prepare_keeps_bytes_left_in_range_witness :
  0 <= bytes_left_in_chunk_
         (snd (Prepare 32 (SetLooping (ramp_after 1) true)))
    <= data_size_bytes (file_info_ (SetLooping (ramp_after 1) true)).
Proof.
  apply Prepare_keeps_bytes_left_in_range.
  - vm_compute. reflexivity.
  - vm_compute. reflexivity.
  - vm_compute. split; discriminate.
Defined.

(** Witness of X9: a round of calls on [ramp.wav]. *)
Lemma calls_keep_queues_within_capacity_witness :
  exists s',
    run_calls 32 [CallStream 4 1; CallPrepare; CallRestart; CallStream 4 1;
                  CallSetLooping true; CallPrepare]
              ramp_playing = Some s'
    /\ queues_ok 32 s'.
Proof.
  assert (W : 0 <= 32 < 2 ^ 32) by lia.
  assert (Q : queues_ok 32 ramp_playing).
  { unfold queues_ok. split; [vm_compute; discriminate|].
    split; [vm_compute; discriminate|]. vm_compute. constructor. }
  let v := eval vm_compute in
      (run_calls 32 [CallStream 4 1; CallPrepare; CallRestart; CallStream 4 1;
                     CallSetLooping true; CallPrepare] ramp_playing) in
  match v with
  | Some ?t =>
      assert (E : run_calls 32
                    [CallStream 4 1; CallPrepare; CallRestart; CallStream 4 1;
                     CallSetLooping true; CallPrepare] ramp_playing = Some t)
        by (vm_compute; reflexivity);
      exists t; split;
        [exact E|exact (calls_keep_queues_within_capacity 32 W _ _ _ Q E)]
  end.
Defined.

(** Witness of X10: a file with eighteen [JUNK] chunks; the parser
    stores sixteen of them. *)
Lemma parse_metadata_within_bounds_witness :
  exists b p r,
    parse 32 WavParser0 (reader_of junk_wav) = Some (b, p, r)
    /\ 0 <= metadataCount_ p <= MAX_METADATA_CHUNKS
    /\ length (metadata_ p) = length (metadata_ WavParser0)
    /\ metadataCount_ p = 16.
Proof.
  let v := eval vm_compute in (parse 32 WavParser0 (reader_of junk_wav)) in
  match v with
  | Some (?b, ?p, ?r) =>
      assert (E : parse 32 WavParser0 (reader_of junk_wav) = Some (b, p, r))
        by (vm_compute; reflexivity);
      destruct (parse_metadata_within_bounds _ _ _ _ _ _ E) as (C & L & _);
      exists b, p, r;
      split; [exact E|split; [exact C|split; [exact L|reflexivity]]]
  end.
Defined.

(** Witness of X11: [Open] of [ramp.wav] on a 32-byte player. *)
Lemma Open_success_primes_buffer_witness :
  exists s',
    Open 32 16 fresh_player "ramp.wav" = Some (Ok, s')
    /\ is_open_ s' = true
    /\ position_ s' = 0
    /\ 0 < frame_bytes_ s'.
Proof.
  assert (W : 0 <= 32) by lia.
  let v := eval vm_compute in (Open 32 16 fresh_player "ramp.wav") in
  match v with
  | Some (Ok, ?t) =>
      assert (E : Open 32 16 fresh_player "ramp.wav" = Some (Ok, t))
        by (vm_compute; reflexivity);
      destruct (Open_success_primes_buffer 32 _ _ _ _ W E)
        as (A & B & _ & _ & C & _);
      exists t; split; [exact E|split; [exact A|split; [exact B|exact C]]]
  end.
Defined.

(** Witness of X13. *)
Lemma SortTable_sorts_witness :
  StronglySorted FileTable.name_le
    (take (Z.to_nat (FileTable.num_files_found FileTable.unsorted_table))
       (FileTable.table (FileTable.SortTable FileTable.unsorted_table))).
Proof.
  destruct (SortTable_sorts FileTable.unsorted_table) as (S & _);
    [vm_compute; lia|exact S].
Defined.

(** Witness of X14: [A.WAV] stays before [a.wav]. *)
Lemma SortTable_stable_witness :
  List.filter (FileTable.same_name (list_byte_of_string "a.wav"))
    (take (Z.to_nat (FileTable.num_files_found FileTable.unsorted_table))
       (FileTable.table (FileTable.SortTable FileTable.unsorted_table)))
  = List.filter (FileTable.same_name (list_byte_of_string "a.wav"))
      (take (Z.to_nat (FileTable.num_files_found FileTable.unsorted_table))
         (FileTable.table FileTable.unsorted_table)).
Proof.
  apply SortTable_stable. vm_compute. lia.
Defined.

(** Witness of X15: the test directory, files whose name holds [.wav]. *)
Lemma Fill_fills_sorted_table_witness :
  exists ok t',
    FileTable.Fill 4 255 10 FileTable.test_table (Some "/"%string)
                   (Some (list_byte_of_string ".wav"))
    = Some (ok, t')
    /\ 0 <= FileTable.num_files_found t' <= 4
    /\ StronglySorted FileTable.name_le
         (take (Z.to_nat (FileTable.num_files_found t'))
               (FileTable.table t')).
Proof.
  assert (M : 0 < 4 < 2 ^ 32) by lia.
  assert (L : length (FileTable.table FileTable.test_table) = Z.to_nat 4)
    by (vm_compute; reflexivity).
  let v := eval vm_compute in
      (FileTable.Fill 4 255 10 FileTable.test_table (Some "/"%string)
                      (Some (list_byte_of_string ".wav"))) in
  match v with
  | Some (?ok, ?t) =>
      assert (E : FileTable.Fill 4 255 10 FileTable.test_table
                    (Some "/"%string) (Some (list_byte_of_string ".wav"))
                  = Some (ok, t))
        by (vm_compute; reflexivity);
      destruct (Fill_fills_sorted_table 4 255 10 _ _ _ _ _ M L E)
        as (C & _ & S & _);
      exists ok, t; split; [exact E|split; [exact C|exact S]]
  end.
Defined.

(** Witness of X16: [c.wav.txt] passes the test for the suffix [.wav]. *)
Lemma valid_name_accepts_infix_witness :
  FileTable.valid_name 255
    (FileTable.mkFILINFO 9 0 (list_byte_of_string "c.wav.txt"))
    (Some (list_byte_of_string ".wav")) = true
  <-> (exists pre post,
          FileTable.fname
            (FileTable.mkFILINFO 9 0 (list_byte_of_string "c.wav.txt"))
          = pre ++ list_byte_of_string ".wav" ++ post)
      /\ FileTable.strlen (list_byte_of_string ".wav")
         < FileTable.strlen
             (FileTable.fname
                (FileTable.mkFILINFO 9 0 (list_byte_of_string "c.wav.txt")))
         < 255.
Proof.
  apply valid_name_accepts_infix. vm_compute. reflexivity.
Defined.
